(** * dcs-retribution: the package planner, its theater state and its packages

    A shallow embedding of
      - game/commander/tasks/packageplanningtask.py  (module [Planner])
      - game/commander/theaterstate.py               (module [Theater])
      - game/ato/package.py                          (module [Pkg])
    followed by the facts proved about each (modules [PlannerFacts],
    [TheaterFacts] and [PkgFacts]).  Further parts of these files and of
      - game/server/waypoints/routes.py              (module [Routes])
    are embedded in the modules [PlannerEffects], [PkgPlans] and [Routes],
    with their facts in the modules at the end.

    Conventions.  Game objects (theater ground objects, control points,
    flights, packages, ...) are Python objects compared by identity; they
    are represented by their identity, an integer.  Attributes and methods
    of classes whose code is outside the embedded files ([distance_to],
    [max_threat_range], [plan_mission], ...) are members of a class that
    the functions using them take as a parameter.  A [Distance] wraps a
    number of meters and is compared and subtracted as that number; it is an
    integer here.  Where the code multiplies a distance by a fraction, the
    distance is the float of that integer and the arithmetic is that of
    IEEE 754 doubles.  A Python call that can raise returns a [result];
    where the state it leaves behind matters, it returns that state as
    well. *)

From Stdlib Require Import ZArith List Lia Sorted Permutation Bool String.
From Stdlib Require SpecFloat.
From stdpp Require Import gmap list sorting.
Import ListNotations.

Local Open Scope Z_scope.

(** ** Exceptions *)

Inductive exn : Type :=
| ValueError
| RuntimeError
| IndexError
| KeyError
| TypeError.

Inductive result (A : Type) : Type :=
| Ok (a : A)
| Raise (e : exn).

Arguments Ok {A} a.
Arguments Raise {A} e.

#[global] Instance result_ret : MRet result := fun A a => Ok a.

#[global] Instance result_bind : MBind result := fun A B k r =>
  match r with
  | Ok a => k a
  | Raise e => Raise e
  end.

(** ** Python floats

    A [float] is an IEEE 754 binary64 number ([SpecFloat], with a precision
    of 53 bits and infinities at exponent 1024); multiplication,
    subtraction and division round to nearest, ties to even. *)

Definition float : Type := SpecFloat.spec_float.

Definition float_mul : float -> float -> float := SpecFloat.SFmul 53 1024.

Definition float_sub : float -> float -> float := SpecFloat.SFsub 53 1024.

(** [a < b]: false when either is not a number. *)
Definition float_lt (a b : float) : bool := SpecFloat.SFltb a b.

(** The float of an int, [float(n)]: the nearest float (an infinity for an
    int beyond the largest float, where Python raises). *)
Definition float_of_int (n : Z) : float :=
  SpecFloat.binary_normalize 53 1024 n 0 false.

(** [a / b] for an int [a] and a positive int [b]: the quotient of the two
    ints, rounded once. *)
Definition int_truediv (a : Z) (b : positive) : float :=
  SpecFloat.SFdiv 53 1024
    match a with
    | 0 => SpecFloat.S754_zero false
    | Zpos m => SpecFloat.S754_finite false m 0
    | Zneg m => SpecFloat.S754_finite true m 0
    end
    (SpecFloat.S754_finite false b 0).

(** The literals [1.0], [0.5] and [0.9]: the floats nearest to them. *)
Definition float_1_0 : float :=
  SpecFloat.S754_finite false 4503599627370496 (-52).

Definition float_0_5 : float :=
  SpecFloat.S754_finite false 4503599627370496 (-53).

Definition float_0_9 : float :=
  SpecFloat.S754_finite false 8106479329266893 (-53).

(** [list.remove(x)]: drops the first occurrence, [ValueError] when there is
    none. *)
Fixpoint list_remove (x : Z) (l : list Z) : result (list Z) :=
  match l with
  | [] => Raise ValueError
  | y :: l' =>
      if bool_decide (y = x) then Ok l'
      else r ← list_remove x l'; Ok (y :: r)
  end.

(** ** Python's [sorted(xs, key=...)]: a stable sort by an integer key *)

Section SortedByKey.
Context {A : Type}.
Variable key : A -> Z.

Fixpoint insert_by_key (x : A) (l : list A) : list A :=
  match l with
  | [] => [x]
  | y :: l' =>
      if key x <=? key y then x :: y :: l' else y :: insert_by_key x l'
  end.

(** Elements are inserted from the right, each one in front of the first
    element whose key is not smaller: equal keys keep their input order. *)
Definition py_sorted (l : list A) : list A := foldr insert_by_key [] l.

Definition key_le (a b : A) : Prop := key a <= key b.
End SortedByKey.

(** ** game/ato/flighttype.py

    The enumeration's declaration is outside the embedded files; these are
    the members the embedded code names.  [PRETENSE_CARGO] is named by the
    Pretense generator only. *)

Inductive FlightType : Type :=
| TARCAP | BARCAP | CAS | STRIKE | ANTISHIP | SEAD | DEAD | ESCORT | BAI
| SWEEP | OCA_RUNWAY | OCA_AIRCRAFT | AEWC | TRANSPORT | SEAD_ESCORT
| REFUELING | FERRY | AIR_ASSAULT | SEAD_SWEEP | ARMED_RECON | RECOVERY
| PRETENSE_CARGO.

#[global] Instance FlightType_eq_dec : EqDecision FlightType.
Proof. solve_decision. Defined.

(** * game/commander/tasks/packageplanningtask.py *)

Module Planner.

(** [class RangeType(IntEnum)] *)
Inductive RangeType : Type := Detection | Threat.

(** The annotation [range_type: RangeType] is not enforced at run time: a
    caller can pass a value that is neither member, and
    [iter_iads_ranges] has a branch for it. *)
Inductive range_arg : Type :=
| Member (r : RangeType)
| NotMember.

(** [GroupTask] (game/data/groups.py) as far as this file tells its members
    apart. *)
Inductive GroupTask : Type := LORAD | MERAD | AAA | OtherGroupTask.

(** [AutoAtoBehavior] (game/settings) and [EscortType]
    (game/commander/missionproposals.py), likewise. *)
Inductive AutoAtoBehavior : Type := Disabled | OtherAutoAtoBehavior.

Inductive EscortType : Type := AirToAir | Sead | OtherEscortType.

#[global] Instance AutoAtoBehavior_eq_dec : EqDecision AutoAtoBehavior.
Proof. solve_decision. Defined.

(** [ProposedFlight(task, num_aircraft, escort_type)] *)
Record ProposedFlight : Type := {
  pf_task : FlightType;
  pf_num_aircraft : Z;
  pf_escort_type : option EscortType
}.

(** [ProposedMission(location, flights, asap)] *)
Record ProposedMission : Type := {
  pm_location : Z;
  pm_flights : list ProposedFlight;
  pm_asap : bool
}.

Record Settings : Type := {
  auto_ato_behavior : AutoAtoBehavior;
  ownfor_autoplanner_aggressiveness : Z;
  opfor_autoplanner_aggressiveness : Z
}.

(** What the planner reads of [state.context]: the coalition's side, whether
    its ATO already has an AWACS package, the settings and the time. *)
Record PersistentContext : Type := {
  coalition_player : bool;
  has_awacs_package : bool;
  settings : Settings;
  now : Z
}.

(** The fields of [TheaterState] this file reads or appends to.  The lists
    hold object identities. *)
Record TheaterState : Type := {
  context : PersistentContext;
  enemy_air_defenses : list Z;
  threatening_air_defenses : list Z;
  detecting_air_defenses : list Z;
  enemy_ships : list Z
}.

(** [@dataclass class PackagePlanningTask]: [package] is a reference to the
    planned [Package], [None] until a plan succeeds. *)
Record PackagePlanningTask : Type := {
  target : Z;
  flights : list ProposedFlight;
  package : option Z
}.

(** [if x in l: l.remove(x)] *)
Definition remove_if_present (x : Z) (l : list Z) : list Z :=
  if bool_decide (x ∈ l) then
    match list_remove x l with Ok l' => l' | Raise _ => l end
  else l.

(** game/commander/theaterstate.py: [TheaterState.eliminate_air_defense] and
    [eliminate_ship], without the threat zones they rebuild.  The state is
    returned as the call leaves it. *)
Definition eliminate_air_defense (state : TheaterState) (tgo : Z)
  : TheaterState * result unit :=
  let state :=
    {| context := context state;
       enemy_air_defenses := enemy_air_defenses state;
       threatening_air_defenses :=
         remove_if_present tgo (threatening_air_defenses state);
       detecting_air_defenses :=
         remove_if_present tgo (detecting_air_defenses state);
       enemy_ships := enemy_ships state |} in
  match list_remove tgo (enemy_air_defenses state) with
  | Raise e => (state, Raise e)
  | Ok l =>
      ({| context := context state;
          enemy_air_defenses := l;
          threatening_air_defenses := threatening_air_defenses state;
          detecting_air_defenses := detecting_air_defenses state;
          enemy_ships := enemy_ships state |}, Ok tt)
  end.

Definition eliminate_ship (state : TheaterState) (tgo : Z)
  : TheaterState * result unit :=
  let state :=
    {| context := context state;
       enemy_air_defenses := enemy_air_defenses state;
       threatening_air_defenses :=
         remove_if_present tgo (threatening_air_defenses state);
       detecting_air_defenses :=
         remove_if_present tgo (detecting_air_defenses state);
       enemy_ships := enemy_ships state |} in
  match list_remove tgo (enemy_ships state) with
  | Raise e => (state, Raise e)
  | Ok l =>
      ({| context := context state;
          enemy_air_defenses := enemy_air_defenses state;
          threatening_air_defenses := threatening_air_defenses state;
          detecting_air_defenses := detecting_air_defenses state;
          enemy_ships := l |}, Ok tt)
  end.

(** A freshly constructed task: [__post_init__] and the field defaults. *)
Definition new_task (target : Z) : PackagePlanningTask :=
  {| target := target; flights := []; package := None |}.

Definition set_flights (self : PackagePlanningTask) (fs : list ProposedFlight)
  : PackagePlanningTask :=
  {| target := target self; flights := fs; package := package self |}.

Definition set_package (self : PackagePlanningTask) (p : option Z)
  : PackagePlanningTask :=
  {| target := target self; flights := flights self; package := p |}.

Definition set_detecting (state : TheaterState) (l : list Z) : TheaterState :=
  {| context := context state;
     enemy_air_defenses := enemy_air_defenses state;
     threatening_air_defenses := threatening_air_defenses state;
     detecting_air_defenses := l;
     enemy_ships := enemy_ships state |}.

Definition set_threatening (state : TheaterState) (l : list Z) : TheaterState :=
  {| context := context state;
     enemy_air_defenses := enemy_air_defenses state;
     threatening_air_defenses := l;
     detecting_air_defenses := detecting_air_defenses state;
     enemy_ships := enemy_ships state |}.

(** Methods of the ground objects, [IadsGroundObject] and
    [NavalGroundObject] (game/theater/theatergroundobject.py), by object
    identity: [distance_to o t] is [o.distance_to(t)], [task_of o] is
    [o.task]; and [Distance.__bool__] (game/utils.py), the truth value of a
    distance.  Their code is outside the embedded files. *)
Class GroundObjects : Type := {
  distance_to : Z -> Z -> Z;
  max_detection_range : Z -> Z;
  max_threat_range : Z -> Z;
  task_of : Z -> GroupTask;
  distance_bool : Z -> bool
}.

(** The subclass's part of a task (the abstract [propose_flights], which runs
    on [self], and [purchase_multiplier], which subclasses override) and
    [PackageFulfiller.plan_mission] (game/commander/packagefulfiller.py),
    which returns the package it planned or [None]. *)
Class TaskMethods : Type := {
  propose_flights : PackagePlanningTask -> PackagePlanningTask;
  purchase_multiplier : PackagePlanningTask -> Z;
  plan_mission : PersistentContext -> ProposedMission -> Z -> Z -> option Z
}.

Section ThreatZoneEvaluator.
Context `{GroundObjects}.

Definition range_of (range_type : range_arg) (tgo : Z) : result Z :=
  match range_type with
  | Member Detection => Ok (max_detection_range tgo)
  | Member Threat => Ok (max_threat_range tgo)
  | NotMember => Raise ValueError
  end.

(** The [for target in all_iads] loop, with [target_ranges] as
    accumulator. *)
Fixpoint collect_target_ranges (self : PackagePlanningTask)
    (range_type : range_arg) (all_iads : list Z)
    (target_ranges : list (Z * Z)) : result (list (Z * Z)) :=
  match all_iads with
  | [] => Ok target_ranges
  | tgo :: rest =>
      let distance := distance_to tgo (target self) in
      target_range ← range_of range_type tgo;
      if negb (distance_bool target_range) then
        collect_target_ranges self range_type rest target_ranges
      else
        let distance_to_threat := distance - target_range in
        if 0 <? distance_to_threat then
          collect_target_ranges self range_type rest target_ranges
        else
          collect_target_ranges self range_type rest
            (target_ranges ++ [(tgo, distance_to_threat)])
  end.

Definition iter_iads_ranges (self : PackagePlanningTask)
    (state : TheaterState) (range_type : range_arg) : result (list Z) :=
  let all_iads := enemy_air_defenses state ++ enemy_ships state in
  target_ranges ← collect_target_ranges self range_type all_iads [];
  Ok (map fst (py_sorted snd target_ranges)).

(** For the statements: the range a member of [RangeType] selects, the
    [distance_to_threat] of the loop body, and the test an object passes to
    be kept. *)
Definition range_for (rt : RangeType) (tgo : Z) : Z :=
  match rt with
  | Detection => max_detection_range tgo
  | Threat => max_threat_range tgo
  end.

Definition distance_to_threat (self : PackagePlanningTask) (rt : RangeType)
    (tgo : Z) : Z :=
  distance_to tgo (target self) - range_for rt tgo.

Definition covers_target (self : PackagePlanningTask) (rt : RangeType)
    (tgo : Z) : bool :=
  distance_bool (range_for rt tgo) && (distance_to_threat self rt tgo <=? 0).

Definition iter_detecting_iads self state :=
  iter_iads_ranges self state (Member Detection).

Definition iter_iads_threats self state :=
  iter_iads_ranges self state (Member Threat).

Definition corrective_factor_for_type (tgo : Z) : float :=
  match task_of tgo with
  | LORAD | MERAD => float_1_0
  | AAA => float_0_5
  | OtherGroupTask => float_0_9
  end.

(** The distances are floats and [margin] is an int: [margin / 100] divides
    two ints, the products and the difference are those of floats. *)
Definition _get_weighted_threat_range (self : PackagePlanningTask)
    (iads_threat : Z) (state : TheaterState) : float :=
  let distance := float_of_int (distance_to iads_threat (target self)) in
  let settings := settings (context state) in
  let margin :=
    100 - (if coalition_player (context state)
           then ownfor_autoplanner_aggressiveness settings
           else opfor_autoplanner_aggressiveness settings) in
  let threat_range :=
    float_mul (float_of_int (max_threat_range iads_threat))
      (int_truediv margin 100) in
  let corrective_factor := corrective_factor_for_type iads_threat in
  let threat_range := float_mul threat_range corrective_factor in
  float_sub distance threat_range.

(** [if x not in acc: acc.append(x)] for each [x] of an iterator. *)
Fixpoint append_unseen (xs acc : list Z) : list Z :=
  match xs with
  | [] => acc
  | x :: rest =>
      if bool_decide (x ∈ acc) then append_unseen rest acc
      else append_unseen rest (acc ++ [x])
  end.

(** The [for iads_threat in self.iter_iads_threats(state)] loop, with
    [threatened] and the list [state.threatening_air_defenses] as
    accumulators. *)
Fixpoint threat_loop (self : PackagePlanningTask) (state : TheaterState)
    (threats : list Z) (threatened : bool) (threatening : list Z)
  : bool * list Z :=
  match threats with
  | [] => (threatened, threatening)
  | iads_threat :: rest =>
      let weighted := _get_weighted_threat_range self iads_threat state in
      let threatened :=
        if float_lt weighted (float_of_int 0) then true else threatened in
      let threatening :=
        if bool_decide (iads_threat ∈ threatening) then threatening
        else threatening ++ [iads_threat] in
      threat_loop self state rest threatened threatening
  end.

(** Returns the state after the call together with the value returned
    or the exception raised. *)
Definition target_area_preconditions_met (self : PackagePlanningTask)
    (state : TheaterState) (ignore_iads : bool)
  : TheaterState * result bool :=
  match iter_detecting_iads self state with
  | Raise e => (state, Raise e)
  | Ok detectors =>
      let state :=
        set_detecting state
          (append_unseen detectors (detecting_air_defenses state)) in
      if negb ignore_iads then
        match iter_iads_threats self state with
        | Raise e => (state, Raise e)
        | Ok threats =>
            let '(threatened, threatening) :=
              threat_loop self state threats false
                (threatening_air_defenses state) in
            (set_threatening state threatening, Ok (negb threatened))
        end
      else (state, Ok true)
  end.
End ThreatZoneEvaluator.

Section PackagePlanning.
Context `{TaskMethods}.

(** [self.propose_flight(task, num_aircraft, escort_type)] *)
Definition propose_flight (self : PackagePlanningTask) (task : FlightType)
    (num_aircraft : Z) (escort_type : option EscortType)
  : PackagePlanningTask :=
  set_flights self
    (flights self
     ++ [{| pf_task := task; pf_num_aircraft := num_aircraft;
            pf_escort_type := escort_type |}]).

Definition propose_common_escorts (self : PackagePlanningTask)
  : PackagePlanningTask :=
  let self := propose_flight self SEAD_ESCORT 2 (Some Sead) in
  let self := propose_flight self ESCORT 2 (Some AirToAir) in
  propose_flight self SEAD_SWEEP 2 (Some Sead).

(** Returns the task after the call together with the value returned or
    the exception raised.  [self.flights[0]], evaluated for the tracer's
    label, raises [IndexError] on an empty list. *)
Definition fulfill_mission (self : PackagePlanningTask)
    (state : TheaterState) : PackagePlanningTask * result bool :=
  let self := propose_flights self in
  match flights self with
  | [] => (self, Raise IndexError)
  | _ :: _ =>
      let asap :=
        if negb (has_awacs_package (context state))
           && bool_decide (AEWC ∈ map pf_task (flights self))
        then true else false in
      let self :=
        set_package self
          (plan_mission (context state)
             {| pm_location := target self; pm_flights := flights self;
                pm_asap := asap |}
             (purchase_multiplier self)
             (now (context state))) in
      (self, Ok (bool_decide (package self ≠ None)))
  end.

Definition preconditions_met (self : PackagePlanningTask)
    (state : TheaterState) : PackagePlanningTask * result bool :=
  if coalition_player (context state)
     && bool_decide
          (auto_ato_behavior (settings (context state)) = Disabled)
  then (self, Ok false)
  else fulfill_mission self state.

(** [coalition.ato.add_package] appends to the ATO's list of packages.
    Returns the ATO after the call together with the outcome. *)
Definition execute (self : PackagePlanningTask) (ato : list Z)
  : list Z * result unit :=
  match package self with
  | None => (ato, Raise RuntimeError)
  | Some p => (ato ++ [p], Ok tt)
  end.
End PackagePlanning.

(** A small theater for the examples: air-defense sites 1, 2 and 3 and ship
    4 around target 100, distances in meters.  A distance is true unless it
    is zero. *)
Definition demo_objects : GroundObjects := {|
  distance_to := fun tgo _ =>
    match tgo with
    | 1 => 50000 | 2 => 30000 | 3 => 90000 | 4 => 10000 | _ => 0
    end;
  max_detection_range := fun tgo =>
    match tgo with
    | 1 => 80000 | 2 => 60000 | 3 => 20000 | _ => 0
    end;
  max_threat_range := fun tgo =>
    match tgo with
    | 1 => 40000 | 2 => 45000 | 3 => 10000 | 4 => 40000 | _ => 0
    end;
  task_of := fun tgo =>
    match tgo with
    | 1 => LORAD | 2 => MERAD | 3 => AAA | _ => OtherGroupTask
    end;
  distance_bool := fun d => negb (d =? 0)
|}.

Definition demo_context : PersistentContext := {|
  coalition_player := false;
  has_awacs_package := false;
  settings := {| auto_ato_behavior := OtherAutoAtoBehavior;
                 ownfor_autoplanner_aggressiveness := 20;
                 opfor_autoplanner_aggressiveness := 20 |};
  now := 0
|}.

Definition demo_state : TheaterState := {|
  context := demo_context;
  enemy_air_defenses := [1; 2; 3];
  threatening_air_defenses := [];
  detecting_air_defenses := [2];
  enemy_ships := [4]
|}.

(** A strike task's proposals, and a fulfiller that can source aircraft for
    target 100 only, where it plans package 7. *)
Definition demo_methods : TaskMethods := {|
  propose_flights := fun self =>
    propose_common_escorts (propose_flight self STRIKE 2 None);
  purchase_multiplier := fun _ => 1;
  plan_mission := fun _ mission _ _ =>
    if pm_location mission =? 100 then Some 7 else None
|}.

Definition empty_state : TheaterState := {|
  context := demo_context;
  enemy_air_defenses := [];
  threatening_air_defenses := [];
  detecting_air_defenses := [];
  enemy_ships := []
|}.

End Planner.

(** * game/commander/theaterstate.py: [TheaterState.clone]

    [clone] copies some containers and shares others, so here the fields
    hold references into a heap of mutable objects. *)

Module Theater.

(** What a field, a list item or a dict value can be: [None], an integer, a
    game object (by identity; [clone] never copies one), or a reference to
    a container or dataclass instance on the heap. *)
Inductive value : Type :=
| VNone
| VInt (n : Z)
| VObj (o : Z)
| VRef (l : positive).

(** Heap objects: a [list], a [dict] keyed by game objects (its items in
    insertion order), an instance of a dataclass (its fields in order). *)
Inductive cell : Type :=
| CList (items : list value)
| CDict (items : list (Z * value))
| CData (fields : list value).

Abbreviation heap := (gmap positive cell).

#[global] Instance value_eq_dec : EqDecision value.
Proof. solve_decision. Defined.

(** Computations on the heap that may raise. *)
Definition M (A : Type) : Type := heap -> result (A * heap).

#[global] Instance M_ret : MRet M := fun A a h => Ok (a, h).

#[global] Instance M_bind : MBind M := fun A B f m h =>
  match m h with
  | Ok (a, h') => f a h'
  | Raise e => Raise e
  end.

Definition raise {A : Type} (e : exn) : M A := fun _ => Raise e.

(** A new object gets an address no object has. *)
Definition alloc (c : cell) : M value := fun h =>
  let l := fresh (dom h) in Ok (VRef l, <[l := c]> h).

Definition read (v : value) : M cell := fun h =>
  match v with
  | VRef l =>
      match h !! l with
      | Some c => Ok (c, h)
      | None => Raise TypeError
      end
  | _ => Raise TypeError
  end.

(** [list(x)] for a list [x]: a new list with the same items. *)
Definition py_list (x : value) : M value :=
  c ← read x;
  match c with
  | CList items => alloc (CList items)
  | _ => raise TypeError
  end.

(** [dict(x)] for a dict [x]: a new dict with the same items. *)
Definition py_dict (x : value) : M value :=
  c ← read x;
  match c with
  | CDict items => alloc (CDict items)
  | _ => raise TypeError
  end.

(** [dataclasses.replace(g)] without changes: a new instance with the
    fields of [g]. *)
Definition dataclasses_replace (g : value) : M value :=
  c ← read g;
  match c with
  | CData fields => alloc (CData fields)
  | _ => raise TypeError
  end.

(** [{cp: dataclasses.replace(g) for cp, g in x.items()}] *)
Fixpoint replace_items (items : list (Z * value)) : M (list (Z * value)) :=
  match items with
  | [] => mret []
  | (cp, g) :: rest =>
      g' ← dataclasses_replace g;
      rest' ← replace_items rest;
      mret ((cp, g') :: rest')
  end.

Definition dict_of_replaced (x : value) : M value :=
  c ← read x;
  match c with
  | CDict items => items' ← replace_items items; alloc (CDict items')
  | _ => raise TypeError
  end.

(** The fields of [@dataclass class TheaterState], in declaration order. *)
Inductive field : Type :=
| context
| barcaps_needed
| active_front_lines
| front_line_stances
| vulnerable_front_lines
| aewc_targets
| refueling_targets
| recovery_targets
| enemy_air_defenses
| threatening_air_defenses
| detecting_air_defenses
| enemy_convoys
| enemy_shipping
| enemy_ships
| enemy_battle_positions
| oca_targets
| strike_targets
| enemy_barcaps
| threat_zones
| vulnerable_control_points
| control_point_priority_queue
| priority_cp.

#[global] Instance field_eq_dec : EqDecision field.
Proof. solve_decision. Defined.

(** An instance maps each field to its value. *)
Definition TheaterState : Type := field -> value.

(** The keyword arguments of the call in [clone], in the order written,
    which is the order they are evaluated in. *)
Definition clone_arguments : list field :=
  [ context; barcaps_needed; active_front_lines; front_line_stances;
    vulnerable_front_lines; aewc_targets; refueling_targets;
    recovery_targets; enemy_air_defenses; enemy_convoys; enemy_shipping;
    enemy_ships; enemy_battle_positions; oca_targets; strike_targets;
    enemy_barcaps; threat_zones; threatening_air_defenses;
    detecting_air_defenses; vulnerable_control_points;
    control_point_priority_queue; priority_cp ].

(** The expression [clone] passes for each keyword. *)
Definition clone_argument (self : TheaterState) (f : field) : M value :=
  match f with
  | context => mret (self context)
  | barcaps_needed => py_dict (self barcaps_needed)
  | active_front_lines => py_list (self active_front_lines)
  | front_line_stances => py_dict (self front_line_stances)
  | vulnerable_front_lines => py_list (self vulnerable_front_lines)
  | aewc_targets => py_list (self aewc_targets)
  | refueling_targets => py_list (self refueling_targets)
  | recovery_targets => py_dict (self recovery_targets)
  | enemy_air_defenses => py_list (self enemy_air_defenses)
  | enemy_convoys => py_list (self enemy_convoys)
  | enemy_shipping => py_list (self enemy_shipping)
  | enemy_ships => py_list (self enemy_ships)
  | enemy_battle_positions => dict_of_replaced (self enemy_battle_positions)
  | oca_targets => py_list (self oca_targets)
  | strike_targets => py_list (self strike_targets)
  | enemy_barcaps => py_list (self enemy_barcaps)
  | threat_zones => mret (self threat_zones)
  | threatening_air_defenses => mret (self threatening_air_defenses)
  | detecting_air_defenses => mret (self detecting_air_defenses)
  | vulnerable_control_points => mret (self vulnerable_control_points)
  | control_point_priority_queue => mret (self control_point_priority_queue)
  | priority_cp => mret (self priority_cp)
  end.

Fixpoint eval_arguments (self : TheaterState) (fs : list field)
  : M (list (field * value)) :=
  match fs with
  | [] => mret []
  | f :: rest =>
      v ← clone_argument self f;
      rest' ← eval_arguments self rest;
      mret ((f, v) :: rest')
  end.

(** The constructor call, from the keywords and their values. *)
Fixpoint construct (kwargs : list (field * value)) : TheaterState :=
  match kwargs with
  | [] => fun _ => VNone
  | (f, v) :: rest =>
      fun f' => if bool_decide (f' = f) then v else construct rest f'
  end.

Definition clone (self : TheaterState) : M TheaterState :=
  kwargs ← eval_arguments self clone_arguments;
  mret (construct kwargs).

(** Python's [==] on values, to a nesting depth of [fuel].  Lists and
    dataclass instances compare item by item, dicts by key; an object
    equals itself. *)
Fixpoint all2 {A : Type} (eqb : A -> A -> bool) (xs ys : list A) : bool :=
  match xs, ys with
  | [], [] => true
  | x :: xs', y :: ys' => eqb x y && all2 eqb xs' ys'
  | _, _ => false
  end.

Fixpoint dict_get (k : Z) (items : list (Z * value)) : option value :=
  match items with
  | [] => None
  | (k', v) :: rest => if bool_decide (k' = k) then Some v else dict_get k rest
  end.

Fixpoint py_eq (fuel : nat) (h : heap) (a b : value) : bool :=
  match fuel with
  | O => false
  | S fuel =>
      match a, b with
      | VNone, VNone => true
      | VInt x, VInt y => bool_decide (x = y)
      | VObj x, VObj y => bool_decide (x = y)
      | VRef la, VRef lb =>
          bool_decide (la = lb)
          || match h !! la, h !! lb with
             | Some (CList xs), Some (CList ys) => all2 (py_eq fuel h) xs ys
             | Some (CData xs), Some (CData ys) => all2 (py_eq fuel h) xs ys
             | Some (CDict xs), Some (CDict ys) =>
                 (length xs =? length ys)%nat
                 && forallb
                      (fun kv =>
                         match dict_get (fst kv) ys with
                         | Some v' => py_eq fuel h (snd kv) v'
                         | None => false
                         end)
                      xs
             | _, _ => false
             end
      | _, _ => false
      end
  end.

Definition py_equal (h : heap) (a b : value) : bool := py_eq 3 h a b.

(** [v] is a copy made after [h0]: a reference to an object that [h0] does
    not have and [h'] has, equal to [orig]. *)
Definition fresh_copy (h0 h' : heap) (orig v : value) : Prop :=
  (exists l, v = VRef l /\ h0 !! l = None /\ is_Some (h' !! l))
  /\ py_equal h' v orig = true.

(** What the annotations of the fields promise. *)
Inductive field_type : Type :=
| TObject | TOptional | TList | TDict | TDictOfData.

Definition annotation (f : field) : field_type :=
  match f with
  | context | threat_zones => TObject
  | priority_cp => TOptional
  | barcaps_needed | front_line_stances | recovery_targets => TDict
  | enemy_battle_positions => TDictOfData
  | _ => TList
  end.

Definition is_data (h : heap) (v : value) : bool :=
  match v with
  | VRef g => match h !! g with Some (CData _) => true | _ => false end
  | _ => false
  end.

Definition has_type (h : heap) (t : field_type) (v : value) : bool :=
  match t, v with
  | TObject, VObj _ => true
  | TOptional, (VObj _ | VNone) => true
  | TList, VRef l =>
      match h !! l with Some (CList _) => true | _ => false end
  | TDict, VRef l =>
      match h !! l with
      | Some (CDict items) => bool_decide (NoDup (map fst items))
      | _ => false
      end
  | TDictOfData, VRef l =>
      match h !! l with
      | Some (CDict items) =>
          bool_decide (NoDup (map fst items))
          && forallb (fun kv => is_data h (snd kv)) items
      | _ => false
      end
  | _, _ => false
  end.

(** A state whose fields hold what they are annotated to hold. *)
Definition well_typed (h : heap) (self : TheaterState) : bool :=
  forallb (fun f => has_type h (annotation f) (self f)) clone_arguments.

(** The collections [clone] copies for the planning pass at hand; the other
    fields, the persistent collections among them, it passes on as they
    are. *)
Definition per_pass (f : field) : bool :=
  match f with
  | barcaps_needed | active_front_lines | front_line_stances
  | vulnerable_front_lines | aewc_targets | refueling_targets
  | recovery_targets | enemy_air_defenses | enemy_convoys | enemy_shipping
  | enemy_ships | enemy_battle_positions | oca_targets | strike_targets
  | enemy_barcaps => true
  | _ => false
  end.

Definition persistent (f : field) : bool :=
  match f with
  | threatening_air_defenses | detecting_air_defenses
  | vulnerable_control_points | control_point_priority_queue => true
  | _ => false
  end.

(** Mutations of a collection through a reference: [x.append(v)],
    [x.remove(v)] and [x[k] = n] replace the object the reference leads
    to. *)
Definition write (x : value) (c : cell) : M unit := fun h =>
  match x with
  | VRef l =>
      match h !! l with
      | Some _ => Ok (tt, <[l := c]> h)
      | None => Raise TypeError
      end
  | _ => Raise TypeError
  end.

(** The object a value refers to, if it refers to one. *)
Definition contents (h : heap) (x : value) : option cell :=
  match x with
  | VRef l => h !! l
  | _ => None
  end.

Definition list_append (x v : value) : M unit :=
  c ← read x;
  match c with
  | CList items => write x (CList (items ++ [v]))
  | _ => raise TypeError
  end.

Definition dict_set (x : value) (k : Z) (v : value) : M unit :=
  c ← read x;
  match c with
  | CDict items =>
      write x
        (CDict (match dict_get k items with
                | Some _ =>
                    map (fun kv => if bool_decide (fst kv = k) then (k, v)
                                   else kv) items
                | None => items ++ [(k, v)]
                end))
  | _ => raise TypeError
  end.

(** A small state for the examples.  Object 20 of the heap is the
    [BattlePositions] of control point 50, with two lists for fields. *)
Definition demo_heap : heap :=
  list_to_map
    [ (1%positive, CDict [(10, VInt 2); (11, VInt 4)]);
      (2%positive, CList [VObj 20]);
      (3%positive, CDict [(20, VNone)]);
      (4%positive, CList [VObj 20]);
      (5%positive, CList [VObj 10]);
      (6%positive, CList [VObj 10]);
      (7%positive, CDict [(11, VInt 0)]);
      (8%positive, CList [VObj 31; VObj 32]);
      (9%positive, CList [VObj 31]);
      (10%positive, CList []);
      (11%positive, CList []);
      (12%positive, CList []);
      (13%positive, CList [VObj 40]);
      (14%positive, CDict [(50, VRef 20)]);
      (15%positive, CList [VObj 50]);
      (16%positive, CList [VObj 60]);
      (17%positive, CList [VObj 50]);
      (18%positive, CList [VObj 50]);
      (19%positive, CList [VObj 50]);
      (20%positive, CData [VRef 21; VRef 22]);
      (21%positive, CList [VObj 70]);
      (22%positive, CList []) ].

Definition demo_state : TheaterState := fun f =>
  match f with
  | context => VObj 1
  | barcaps_needed => VRef 1
  | active_front_lines => VRef 2
  | front_line_stances => VRef 3
  | vulnerable_front_lines => VRef 4
  | aewc_targets => VRef 5
  | refueling_targets => VRef 6
  | recovery_targets => VRef 7
  | enemy_air_defenses => VRef 8
  | threatening_air_defenses => VRef 9
  | detecting_air_defenses => VRef 10
  | enemy_convoys => VRef 11
  | enemy_shipping => VRef 12
  | enemy_ships => VRef 13
  | enemy_battle_positions => VRef 14
  | oca_targets => VRef 15
  | strike_targets => VRef 16
  | enemy_barcaps => VRef 17
  | threat_zones => VObj 2
  | vulnerable_control_points => VRef 18
  | control_point_priority_queue => VRef 19
  | priority_cp => VObj 50
  end.

(** Clone the example state, then append object 33 to the field [f] of the
    clone; the result is the original's and the clone's [f] afterwards. *)
Definition demo_append_through_clone (f : field)
  : result (option cell * option cell) :=
  match (c ← clone demo_state; _ ← list_append (c f) (VObj 33); mret c)
          demo_heap with
  | Ok (c, h) => Ok (contents h (demo_state f), contents h (c f))
  | Raise e => Raise e
  end.

End Theater.

(** * game/ato/package.py

    Packages and flights are objects that refer to each other and are
    mutated in place: a world holds them by reference.  A call returns the
    world as it leaves it, also when it raises. *)

Module Pkg.

(** What [package.py] reads and writes of a [Flight] (game/ato/flight.py).
    [flight.id], drawn at construction, is the key under which the flight
    is registered in a database.  [transit_time] is the time the flight
    plan needs from now to the target, [None] without a flight plan. *)
Record Flight : Type := {
  id : Z;
  package : Z;
  flight_type : FlightType;
  departure : Z;
  cargo : option Z;
  transit_time : option Z
}.

(** The attributes of a [Package] in the order [__init__] assigns them.  A
    [datetime] is a number of seconds, counted from [datetime.min]. *)
Record Package : Type := {
  target : Z;
  _db : Z;
  frequency : option Z;
  custom_name : option string;
  auto_asap : bool;
  flights : list Z;
  time_over_target : Z;
  waypoints : option Z
}.

Definition datetime_min : Z := 0.

(** The objects by reference: packages, flights, [Database] objects (what
    each holds under which id), the [transport] attribute of the
    [TransferOrder]s that flights carry as cargo, and the flights that were
    told to return their pilots and aircraft, in the order of the calls. *)
Record World : Type := {
  packages : gmap Z Package;
  flight_objects : gmap Z Flight;
  databases : gmap Z (gmap Z Z);
  transports : gmap Z (option Z);
  returned : list Z
}.

Definition M (A : Type) : Type := World -> World * result A.

#[global] Instance M_ret : MRet M := fun A a w => (w, Ok a).

#[global] Instance M_bind : MBind M := fun A B f m w =>
  match m w with
  | (w', Ok a) => f a w'
  | (w', Raise e) => (w', Raise e)
  end.

Definition raise {A : Type} (e : exn) : M A := fun w => (w, Raise e).

Definition lift {A : Type} (r : result A) : M A := fun w => (w, r).

(** [Database.add] and [Database.remove] (game/db/database.py), whose code
    is outside the embedded files: each returns the new contents or
    raises. *)
Class Database : Type := {
  db_add : gmap Z Z -> Z -> Z -> result (gmap Z Z);
  db_remove : gmap Z Z -> Z -> result (gmap Z Z)
}.

(** *** Reading and writing objects *)

Definition get_package (p : Z) : M Package := fun w =>
  match packages w !! p with
  | Some o => (w, Ok o)
  | None => (w, Raise TypeError)
  end.

Definition get_flight (f : Z) : M Flight := fun w =>
  match flight_objects w !! f with
  | Some o => (w, Ok o)
  | None => (w, Raise TypeError)
  end.

Definition put_package (p : Z) (o : Package) : M unit := fun w =>
  ({| packages := <[p := o]> (packages w);
      flight_objects := flight_objects w;
      databases := databases w;
      transports := transports w;
      returned := returned w |}, Ok tt).

Definition put_flight (f : Z) (o : Flight) : M unit := fun w =>
  ({| packages := packages w;
      flight_objects := <[f := o]> (flight_objects w);
      databases := databases w;
      transports := transports w;
      returned := returned w |}, Ok tt).

Definition set_flights (o : Package) (fs : list Z) : Package :=
  {| target := target o; _db := _db o; frequency := frequency o;
     custom_name := custom_name o; auto_asap := auto_asap o;
     flights := fs;
     time_over_target := time_over_target o; waypoints := waypoints o |}.

Definition set_time_over_target (o : Package) (t : Z) : Package :=
  {| target := target o; _db := _db o; frequency := frequency o;
     custom_name := custom_name o; auto_asap := auto_asap o;
     flights := flights o;
     time_over_target := t; waypoints := waypoints o |}.

Definition set_waypoints (o : Package) (wp : option Z) : Package :=
  {| target := target o; _db := _db o; frequency := frequency o;
     custom_name := custom_name o; auto_asap := auto_asap o;
     flights := flights o;
     time_over_target := time_over_target o; waypoints := wp |}.

Definition set_flight_package (o : Flight) (p : Z) : Flight :=
  {| id := id o; package := p; flight_type := flight_type o;
     departure := departure o; cargo := cargo o;
     transit_time := transit_time o |}.

(** [self._db.add(id, flight)] and [self._db.remove(id)] on the database
    object [db]; the database changes only when the call returns. *)
Definition database_update (db : Z)
    (update : gmap Z Z -> result (gmap Z Z)) : M unit := fun w =>
  match databases w !! db with
  | None => (w, Raise TypeError)
  | Some contents =>
      match update contents with
      | Raise e => (w, Raise e)
      | Ok contents' =>
          ({| packages := packages w;
              flight_objects := flight_objects w;
              databases := <[db := contents']> (databases w);
              transports := transports w;
              returned := returned w |}, Ok tt)
      end
  end.

(** Modelled from the spec: [Flight.return_pilots_and_aircraft]
    (game/ato/flight.py) is outside the embedded files; the flight's
    pilots and aircraft go back to its squadron, which the world records
    as an entry of [returned]. *)
Definition return_pilots_and_aircraft (f : Z) : M unit := fun w =>
  ({| packages := packages w;
      flight_objects := flight_objects w;
      databases := databases w;
      transports := transports w;
      returned := returned w ++ [f] |}, Ok tt).

(** [cargo.transport = None] *)
Definition clear_transport (c : Z) : M unit := fun w =>
  ({| packages := packages w;
      flight_objects := flight_objects w;
      databases := databases w;
      transports := <[c := None]> (transports w);
      returned := returned w |}, Ok tt).

Section Methods.
Context `{Database}.

(** [Package(target, db, auto_asap, custom_name, frequency)]: a new object. *)
Definition new_package (target db : Z) (auto_asap : bool)
    (custom_name : option string) (frequency : option Z) : M Z := fun w =>
  let self := fresh (dom (packages w)) in
  (fst (put_package self
          {| target := target; _db := db; frequency := frequency;
             custom_name := custom_name; auto_asap := auto_asap;
             flights := [];
             time_over_target := datetime_min; waypoints := None |} w),
   Ok self).

Definition add_flight (self flight : Z) : M unit :=
  o ← get_package self;
  _ ← put_package self (set_flights o (flights o ++ [flight]));
  fl ← get_flight flight;
  database_update (_db o) (fun contents => db_add contents (id fl) flight).

Definition remove_flight (self flight : Z) : M unit :=
  o ← get_package self;
  fs ← lift (list_remove flight (flights o));
  _ ← put_package self (set_flights o fs);
  fl ← get_flight flight;
  _ ← database_update (_db o) (fun contents => db_remove contents (id fl));
  _ ← return_pilots_and_aircraft flight;
  _ ← match cargo fl with
      | Some c => clear_transport c
      | None => mret tt
      end;
  o ← get_package self;
  match flights o with
  | [] => put_package self (set_waypoints o None)
  | _ :: _ => mret tt
  end.

(** Modelled from the spec: [Flight.clone_flight] (game/ato/flight.py) is
    outside the embedded files; it constructs a new flight with the
    attributes of the given one and an id of its own. *)
Definition new_flight (like : Flight) : M Z := fun w =>
  let cf := fresh (dom (flight_objects w)) in
  let new_id :=
    fresh (list_to_set (C := gset Z)
             (map (fun kv => id (snd kv)) (map_to_list (flight_objects w)))) in
  (fst (put_flight cf
          {| id := new_id; package := package like;
             flight_type := flight_type like; departure := departure like;
             cargo := cargo like; transit_time := transit_time like |} w),
   Ok cf).

Definition clone_flight (f : Z) : M Z :=
  fl ← get_flight f;
  new_flight fl.

(** The body of [for f in package.flights] in [clone_package]; the copy of
    the flight plan's layout touches nothing modelled here. *)
Fixpoint clone_flights (clone : Z) (fs : list Z) : M unit :=
  match fs with
  | [] => mret tt
  | f :: rest =>
      cf ← clone_flight f;
      cfl ← get_flight cf;
      _ ← put_flight cf (set_flight_package cfl clone);
      _ ← add_flight clone cf;
      clone_flights clone rest
  end.

Definition clone_package (package : Z) : M Z :=
  o ← get_package package;
  clone ← new_package (target o) (_db o) (auto_asap o) None None;
  c ← get_package clone;
  _ ← put_package clone (set_time_over_target c (time_over_target o));
  _ ← clone_flights clone (flights o);
  mret clone.

End Methods.

(** *** Properties that read the flights *)

Fixpoint get_flights (fs : list Z) : M (list Flight) :=
  match fs with
  | [] => mret []
  | f :: rest =>
      fl ← get_flight f;
      fls ← get_flights rest;
      mret (fl :: fls)
  end.

(** [flight_counts[flight.flight_type] += 1] on a [defaultdict] that
    starts every count at 0. *)
Definition count_flight (flight_counts : FlightType -> nat) (fl : Flight)
  : FlightType -> nat :=
  fun t =>
    if bool_decide (t = flight_type fl) then S (flight_counts t)
    else flight_counts t.

Definition tasks_by_priority : list FlightType :=
  [ CAS; STRIKE; ANTISHIP; OCA_AIRCRAFT; OCA_RUNWAY; BAI; DEAD; TRANSPORT;
    AIR_ASSAULT; ARMED_RECON; SEAD; SEAD_SWEEP; TARCAP; BARCAP; AEWC; FERRY;
    RECOVERY; REFUELING; SWEEP; SEAD_ESCORT; ESCORT ].

(** [for task in tasks_by_priority: if flight_counts[task]: return task] *)
Fixpoint first_counted (flight_counts : FlightType -> nat)
    (tasks : list FlightType) : option FlightType :=
  match tasks with
  | [] => None
  | task :: rest =>
      if negb (flight_counts task =? 0)%nat then Some task
      else first_counted flight_counts rest
  end.

Definition primary_task (self : Z) : M (option FlightType) :=
  o ← get_package self;
  fls ← get_flights (flights o);
  match fls with
  | [] => mret None
  | first :: _ =>
      let flight_counts := fold_left count_flight fls (fun _ => 0%nat) in
      match first_counted flight_counts tasks_by_priority with
      | Some task => mret (Some task)
      | None => mret (Some (flight_type first))
      end
  end.

(** Modelled from the spec: [ObjectiveDistanceCache.get_closest_airfields]
    (game/ato/closestairfields.py) is outside the embedded files; its
    [operational_airfields] are the control points whose runway is
    operational, by increasing distance to the target. *)
Class Airfields : Type := {
  control_points : list Z;
  distance_from : Z -> Z -> Z;
  runway_is_operational : Z -> bool
}.

Definition operational_airfields `{Airfields} (target : Z) : list Z :=
  filter (fun c => runway_is_operational c = true)
    (py_sorted (distance_from target) control_points).

(** [for flight in self.flights: if flight.departure == airfield] *)
Fixpoint departs_from (airfield : Z) (fls : list Flight) : bool :=
  match fls with
  | [] => false
  | fl :: rest =>
      if bool_decide (departure fl = airfield) then true
      else departs_from airfield rest
  end.

Fixpoint first_departure (airfields : list Z) (fls : list Flight)
  : result Z :=
  match airfields with
  | [] => Raise RuntimeError
  | airfield :: rest =>
      if departs_from airfield fls then Ok airfield
      else first_departure rest fls
  end.

Definition departure_closest_to_target `{Airfields} (self : Z) : M Z :=
  o ← get_package self;
  match flights o with
  | [] => raise RuntimeError
  | _ :: _ =>
      fls ← get_flights (flights o);
      lift (first_departure (operational_airfields (target o)) fls)
  end.

(** Modelled from the spec: [TotEstimator.earliest_tot]
    (game/ato/traveltime.py) is outside the embedded files; the earliest
    time over target is the transit time of the slowest flight plus a fixed
    buffer, a flight without a flight plan counting as arrived. *)
Class TotEstimator : Type := { tot_buffer : Z }.

Definition time_to_target (fl : Flight) : Z :=
  match transit_time fl with
  | Some t => t
  | None => 0
  end.

Definition earliest_tot `{TotEstimator} (fls : list Flight) (now : Z) : Z :=
  now + foldr Z.max 0 (map time_to_target fls) + tot_buffer.

Definition set_tot_asap `{TotEstimator} (self : Z) (now : Z) : M unit :=
  o ← get_package self;
  fls ← get_flights (flights o);
  put_package self (set_time_over_target o (earliest_tot fls now)).

(** *** Ownership *)



(** *** Instances for the examples *)

Definition demo_flight_10 : Flight :=
  {| id := 110; package := 1; flight_type := STRIKE; departure := 201;
     cargo := None; transit_time := Some 1800 |}.

Definition demo_flight_11 : Flight :=
  {| id := 111; package := 1; flight_type := ESCORT; departure := 202;
     cargo := None; transit_time := Some 2400 |}.

Definition demo_flight_12 : Flight :=
  {| id := 112; package := 1; flight_type := TRANSPORT; departure := 201;
     cargo := Some 300; transit_time := None |}.

Definition demo_flight_13 : Flight :=
  {| id := 113; package := 2; flight_type := PRETENSE_CARGO;
     departure := 203; cargo := None; transit_time := Some 600 |}.

Definition demo_package_1 : Package :=
  {| target := 500; _db := 900; frequency := None; custom_name := None;
     auto_asap := false; flights := [11; 10; 12];
     time_over_target := 0; waypoints := Some 77 |}.

Definition demo_package_2 : Package :=
  {| target := 500; _db := 900; frequency := None; custom_name := None;
     auto_asap := true; flights := [13];
     time_over_target := 0; waypoints := Some 78 |}.

Definition demo_package_3 : Package :=
  {| target := 500; _db := 900; frequency := None; custom_name := None;
     auto_asap := false; flights := [];
     time_over_target := 0; waypoints := None |}.

(** A database that is a dict refusing a second object under one id, and
    one that is a plain dict assignment. *)
Definition strict_database : Database := {|
  db_add := fun contents uuid obj =>
    match contents !! uuid with
    | Some _ => Raise KeyError
    | None => Ok (<[uuid := obj]> contents)
    end;
  db_remove := fun contents uuid =>
    match contents !! uuid with
    | Some _ => Ok (delete uuid contents)
    | None => Raise KeyError
    end
|}.

Definition lenient_database : Database := {|
  db_add := fun contents uuid obj => Ok (<[uuid := obj]> contents);
  db_remove := fun contents uuid => Ok (delete uuid contents)
|}.

(** Package 1 (flights 11, 10 and 12, the last one carrying cargo 300) and
    package 2 (flight 13) against target 500, and the empty package 3. *)
Definition demo_world : World := {|
  packages :=
    list_to_map
      [(1, demo_package_1); (2, demo_package_2); (3, demo_package_3)];
  flight_objects :=
    list_to_map
      [ (10, demo_flight_10); (11, demo_flight_11); (12, demo_flight_12);
        (13, demo_flight_13) ];
  databases :=
    {[ 900 := list_to_map [(110, 10); (111, 11); (112, 12); (113, 13)] ]};
  transports := {[ 300 := Some 12 ]};
  returned := []
|}.

(** Control points 201 to 204 at 90, 40, 10 and 5 km from target 500; the
    runway of 203 is out of operation. *)
Definition demo_airfields : Airfields := {|
  control_points := [201; 202; 203; 204];
  distance_from := fun _ c =>
    match c with
    | 201 => 90000 | 202 => 40000 | 203 => 10000 | 204 => 5000 | _ => 0
    end;
  runway_is_operational := fun c => negb (c =? 203)
|}.

Definition demo_estimator : TotEstimator := {| tot_buffer := 300 |}.

End Pkg.


(** * packageplanningtask.py: [PackagePlanningTask.apply_effects]

    The effect of a planned package on [state.recovery_targets], the dict
    that counts, per friendly carrier, the aircraft that have to be
    recovered there. *)

Module PlannerEffects.
Import Planner.

(** What [apply_effects] reads of a flight of the planned package:
    [f.departure] (a control point, by identity), [f.is_helo] and
    [f.count]. *)
Record PlannedFlight : Type := {
  departure : Z;
  is_helo : bool;
  count : Z
}.

(** [ControlPoint.is_fleet] (game/theater/controlpoint.py), by identity of
    the control point; its code is outside the embedded files. *)
Class ControlPoints : Type := { is_fleet : Z -> bool }.

Section ApplyEffects.
Context `{ControlPoints}.

(** The [for f in self.package.flights] loop with the set [seen] and the
    dict [state.recovery_targets] as accumulators.
    [state.recovery_targets[f.departure] += f.count] reads the entry first
    and raises [KeyError] without one.  Returns the dict as the loop leaves
    it. *)
Fixpoint credit_departures (fs : list PlannedFlight) (seen : gset Z)
    (recovery_targets : gmap Z Z) : gmap Z Z * result unit :=
  match fs with
  | [] => (recovery_targets, Ok tt)
  | f :: rest =>
      if is_fleet (departure f) && negb (is_helo f)
         && bool_decide (departure f ∉ seen)
      then
        match recovery_targets !! departure f with
        | None => (recovery_targets, Raise KeyError)
        | Some n =>
            credit_departures rest ({[departure f]} ∪ seen)
              (<[departure f := n + count f]> recovery_targets)
        end
      else credit_departures rest seen recovery_targets
  end.

(** [package_flights p] is the list [p.flights] of the package object [p].
    A [Package] defines neither [__bool__] nor [__len__], so
    [not self.package] holds for [None] only. *)
Definition apply_effects (self : PackagePlanningTask)
    (package_flights : Z -> list PlannedFlight)
    (recovery_targets : gmap Z Z) : gmap Z Z * result unit :=
  match package self with
  | None => (recovery_targets, Ok tt)
  | Some p => credit_departures (package_flights p) ∅ recovery_targets
  end.

(** For the statements: the flight whose count is credited to a control
    point, the first one in the list that departs from it and is no
    helicopter. *)
Definition credited_flight (fs : list PlannedFlight) (cp : Z)
  : option PlannedFlight :=
  head (filter (fun f => departure f = cp /\ is_helo f = false) fs).

(** For the statements: a flight whose departure has to be credited but
    has no entry. *)
Definition uncounted (recovery_targets : gmap Z Z) (f : PlannedFlight)
  : Prop :=
  is_fleet (departure f) = true /\ is_helo f = false
  /\ recovery_targets !! departure f = None.

End ApplyEffects.

(** *** Instances for the examples *)

(** Control points 301 and 302 are carriers, the others are airfields. *)
Definition demo_control_points : ControlPoints := {|
  is_fleet := fun cp => (cp =? 301) || (cp =? 302)
|}.

(** Package 7: two helicopters and four jets from carrier 301, two jets
    from airfield 303 and two more jets from 301.  Package 8: three jets
    from carrier 302, four from 301 and two more from 302. *)
Definition demo_package_flights (p : Z) : list PlannedFlight :=
  match p with
  | 7 => [ {| departure := 301; is_helo := true; count := 2 |};
           {| departure := 301; is_helo := false; count := 4 |};
           {| departure := 303; is_helo := false; count := 2 |};
           {| departure := 301; is_helo := false; count := 2 |} ]
  | 8 => [ {| departure := 302; is_helo := false; count := 3 |};
           {| departure := 301; is_helo := false; count := 4 |};
           {| departure := 302; is_helo := false; count := 2 |} ]
  | _ => []
  end.

Definition demo_recovery_targets : gmap Z Z := {[ 301 := 0; 302 := 0 ]}.

Definition planned_task (p : Z) : PackagePlanningTask :=
  {| target := 100; flights := []; package := Some p |}.

(** For the statements: the two persistent lists name no object twice, and
    only objects that are in the enemy lists of the state. *)
Definition known_threats (state : TheaterState) : Prop :=
  NoDup (threatening_air_defenses state)
  /\ NoDup (detecting_air_defenses state)
  /\ (forall tgo, tgo ∈ threatening_air_defenses state ->
                  tgo ∈ enemy_air_defenses state ++ enemy_ships state)
  /\ (forall tgo, tgo ∈ detecting_air_defenses state ->
                  tgo ∈ enemy_air_defenses state ++ enemy_ships state).

(** The demo theater seen by a side that plans at full aggressiveness. *)
Definition bold_state : TheaterState := {|
  context :=
    {| coalition_player := true;
       has_awacs_package := false;
       settings := {| auto_ato_behavior := OtherAutoAtoBehavior;
                      ownfor_autoplanner_aggressiveness := 100;
                      opfor_autoplanner_aggressiveness := 20 |};
       now := 0 |};
  enemy_air_defenses := [1; 2; 3];
  threatening_air_defenses := [2];
  detecting_air_defenses := [2];
  enemy_ships := [4]
|}.

(** A long-range site 5 that stands 7 meters from target 100 with a threat
    range of 100 meters, seen by a side that plans at an aggressiveness of
    93. *)
Definition near_objects : GroundObjects := {|
  distance_to := fun _ _ => 7;
  max_detection_range := fun _ => 100;
  max_threat_range := fun _ => 100;
  task_of := fun _ => LORAD;
  distance_bool := fun d => negb (d =? 0)
|}.

Definition careful_state : TheaterState := {|
  context :=
    {| coalition_player := true;
       has_awacs_package := false;
       settings := {| auto_ato_behavior := OtherAutoAtoBehavior;
                      ownfor_autoplanner_aggressiveness := 93;
                      opfor_autoplanner_aggressiveness := 20 |};
       now := 0 |};
  enemy_air_defenses := [5];
  threatening_air_defenses := [];
  detecting_air_defenses := [];
  enemy_ships := []
|}.

End PlannerEffects.

(** * package.py: [primary_flight], and the speed and times a package
      takes from its flight plans *)

Module PkgPlans.
Import Pkg.

(** [primaries = [x for x in self.flights if x.flight_type == task]] and
    [primaries[0]], on the flights list and the objects it refers to. *)
Fixpoint first_of_type (task : FlightType) (fs : list Z) (fls : list Flight)
  : option Z :=
  match fs, fls with
  | f :: fs', fl :: fls' =>
      if bool_decide (flight_type fl = task) then Some f
      else first_of_type task fs' fls'
  | _, _ => None
  end.

(** A member of [FlightType] is never false, so [if not task] tests for
    [None]. *)
Definition primary_flight (self : Z) : M (option Z) :=
  task ← primary_task self;
  match task with
  | None => mret None
  | Some task =>
      o ← get_package self;
      fls ← get_flights (flights o);
      mret (first_of_type task (flights o) fls)
  end.

(** What the package reads of [flight.flight_plan] (game/ato/flightplans):
    whether it is a [FormationFlightPlan], its formation speed, the
    waypoints at which it requests and dismisses its escort, the times it
    gives for a waypoint and its departure time.  A [Speed] is a number of
    knots, a [datetime] a number of seconds, a waypoint an object
    identity. *)
Record FlightPlan : Type := {
  is_formation : bool;
  best_flight_formation_speed : Z;
  request_escort_at : option Z;
  dismiss_escort_at : option Z;
  tot_for_waypoint : Z -> option Z;
  depart_time_for_waypoint : Z -> option Z;
  plan_departure_time : Z
}.

(** A flight of [self.flights] as these properties read it. *)
Record PlannedFlight : Type := {
  is_helo : bool;
  flight_plan : FlightPlan
}.

(** [min(xs)] and [max(xs)] of a list that is not empty. *)
Definition py_min (x : Z) (xs : list Z) : Z := fold_left Z.min xs x.

Definition py_max (x : Z) (xs : list Z) : Z := fold_left Z.max xs x.

(** The loop of [formation_speed], with [speeds] as accumulator. *)
Fixpoint formation_speeds (flights : list PlannedFlight) (helo : bool)
    (speeds : list Z) : list Z :=
  match flights with
  | [] => speeds
  | flight :: rest =>
      if is_formation (flight_plan flight)
         && bool_decide (is_helo flight = helo)
      then formation_speeds rest helo
             (speeds ++ [best_flight_formation_speed (flight_plan flight)])
      else formation_speeds rest helo speeds
  end.

Definition formation_speed (flights : list PlannedFlight) (helo : bool)
  : option Z :=
  match formation_speeds flights helo [] with
  | [] => None
  | s :: speeds => Some (py_min s speeds)
  end.

(** The loop of [escort_start_time], with [times] as accumulator. *)
Fixpoint escort_start_times (flights : list PlannedFlight) (times : list Z)
  : list Z :=
  match flights with
  | [] => times
  | flight :: rest =>
      match request_escort_at (flight_plan flight) with
      | None => escort_start_times rest times
      | Some waypoint =>
          match tot_for_waypoint (flight_plan flight) waypoint with
          | None => escort_start_times rest times
          | Some tot => escort_start_times rest (times ++ [tot])
          end
      end
  end.

Definition escort_start_time (flights : list PlannedFlight) : option Z :=
  match escort_start_times flights [] with
  | [] => None
  | t :: times => Some (py_min t times)
  end.

(** The loop of [escort_end_time]: a waypoint without a TOT counts with
    its departure time. *)
Fixpoint escort_end_times (flights : list PlannedFlight) (times : list Z)
  : list Z :=
  match flights with
  | [] => times
  | flight :: rest =>
      match dismiss_escort_at (flight_plan flight) with
      | None => escort_end_times rest times
      | Some waypoint =>
          let tot :=
            match tot_for_waypoint (flight_plan flight) waypoint with
            | Some tot => Some tot
            | None => depart_time_for_waypoint (flight_plan flight) waypoint
            end in
          match tot with
          | None => escort_end_times rest times
          | Some tot => escort_end_times rest (times ++ [tot])
          end
      end
  end.

Definition escort_end_time (flights : list PlannedFlight) : option Z :=
  match escort_end_times flights [] with
  | [] => None
  | t :: times => Some (py_max t times)
  end.

Definition mission_departure_time (flights : list PlannedFlight)
  : option Z :=
  match map (fun flight => plan_departure_time (flight_plan flight)) flights
  with
  | [] => None
  | t :: times => Some (py_max t times)
  end.

(** For the statements: the speed a flight adds to the list of
    [formation_speed], if any. *)
Definition in_formation (helo : bool) (flight : PlannedFlight)
  : option Z :=
  if is_formation (flight_plan flight) && bool_decide (is_helo flight = helo)
  then Some (best_flight_formation_speed (flight_plan flight))
  else None.

(** For the statements: the time a flight adds to the list of
    [escort_start_time] and to the list of [escort_end_time], if any. *)
Definition escort_requested (flight : PlannedFlight) : option Z :=
  waypoint ← request_escort_at (flight_plan flight);
  tot_for_waypoint (flight_plan flight) waypoint.

Definition escort_dismissed (flight : PlannedFlight) : option Z :=
  waypoint ← dismiss_escort_at (flight_plan flight);
  match tot_for_waypoint (flight_plan flight) waypoint with
  | Some tot => Some tot
  | None => depart_time_for_waypoint (flight_plan flight) waypoint
  end.

(** *** Instances for the examples *)

(** A strike flight in formation at 400 knots that wants its escort from
    waypoint 1 (TOT 1000) to waypoint 2 (no TOT, left at 1500); its escort
    in formation at 350 knots; a helicopter in formation at 120 knots; and
    a CAP flight on its own. *)
Definition demo_flights : list PlannedFlight :=
  [ {| is_helo := false;
       flight_plan :=
         {| is_formation := true; best_flight_formation_speed := 400;
            request_escort_at := Some 1; dismiss_escort_at := Some 2;
            tot_for_waypoint := fun w => if w =? 1 then Some 1000 else None;
            depart_time_for_waypoint :=
              fun w => if w =? 2 then Some 1500 else None;
            plan_departure_time := 1600 |} |};
    {| is_helo := false;
       flight_plan :=
         {| is_formation := true; best_flight_formation_speed := 350;
            request_escort_at := None; dismiss_escort_at := None;
            tot_for_waypoint := fun _ => None;
            depart_time_for_waypoint := fun _ => None;
            plan_departure_time := 1700 |} |};
    {| is_helo := true;
       flight_plan :=
         {| is_formation := true; best_flight_formation_speed := 120;
            request_escort_at := Some 5; dismiss_escort_at := Some 6;
            tot_for_waypoint := fun _ => None;
            depart_time_for_waypoint := fun _ => None;
            plan_departure_time := 900 |} |};
    {| is_helo := false;
       flight_plan :=
         {| is_formation := false; best_flight_formation_speed := 300;
            request_escort_at := None; dismiss_escort_at := None;
            tot_for_waypoint := fun _ => None;
            depart_time_for_waypoint := fun _ => None;
            plan_departure_time := 1200 |} |} ].

(** The example world of the packages with a database that has lost its
    entries. *)
Definition unregistered_world : World := {|
  packages := packages demo_world;
  flight_objects := flight_objects demo_world;
  databases := {[ 900 := ∅ ]};
  transports := transports demo_world;
  returned := []
|}.

End PkgPlans.

(** * game/server/waypoints/routes.py

    The waypoints of a flight as the map front end lists and moves them.
    Waypoints and package waypoints are objects that are mutated in place;
    the server state holds them by reference, next to the world of
    packages and flights. *)

Module Routes.
Import Pkg PkgPlans.

(** [dcs.mapping.Point], as far as the coordinates go. *)
Record Point : Type := { x : Z; y : Z }.

(** [FlightWaypointType] (game/ato/flightwaypointtype.py), whose declaration
    is outside the embedded files: the members this file names, the members
    whose name contains [INGRESS], and the others. *)
Inductive FlightWaypointType : Type :=
| TAKEOFF
| JOIN
| SPLIT
| REFUEL
| INGRESS (mission : Z)
| OtherWaypointType (n : Z).

#[global] Instance FlightWaypointType_eq_dec : EqDecision FlightWaypointType.
Proof. solve_decision. Defined.

(** ["INGRESS" in waypoint_type.name] *)
Definition ingress_in_name (t : FlightWaypointType) : bool :=
  match t with
  | INGRESS _ => true
  | _ => false
  end.

(** What this file reads and writes of a [FlightWaypoint]. *)
Record FlightWaypoint : Type := {
  waypoint_type : FlightWaypointType;
  position : Point
}.

(** The attributes of [PackageWaypoints] this file assigns. *)
Record PackageWaypoints : Type := {
  join : option Point;
  ingress : option Point;
  initial : option Point;
  split : option Point;
  refuel : option Point
}.

(** The arguments of [FlightWaypointJs.for_waypoint(waypoint, flight, idx)]:
    the waypoint is one made for the occasion or a waypoint of the flight
    plan. *)
Inductive listed_waypoint : Type :=
| Synthetic (waypoint : FlightWaypoint)
| Planned (waypoint : Z).

Record FlightWaypointJs : Type := {
  for_waypoint : listed_waypoint;
  for_flight : Z;
  idx : Z
}.

(** The objects by reference: the world of packages and flights, the
    waypoints, the lists [flight.flight_plan.waypoints] and what
    [flight.flight_plan.iter_waypoints()] yields, per flight, the
    [PackageWaypoints], and the events put on the event stream (each the
    list of flights it reports as updated). *)
Record Server : Type := {
  world : World;
  waypoint_objects : gmap Z FlightWaypoint;
  flight_waypoints : gmap Z (list Z);
  iter_waypoints : gmap Z (list Z);
  package_waypoints : gmap Z PackageWaypoints;
  event_stream : list (list Z)
}.

(** A handler fails with a Python exception or with an [HTTPException]. *)
Inductive failure : Type :=
| Exception (e : exn)
| HTTPException (status_code : Z).

Inductive outcome (A : Type) : Type :=
| Returns (a : A)
| Fails (f : failure).

Arguments Returns {A} a.
Arguments Fails {A} f.

Definition SM (A : Type) : Type := Server -> Server * outcome A.

#[global] Instance SM_ret : MRet SM := fun A a s => (s, Returns a).

#[global] Instance SM_bind : MBind SM := fun A B f m s =>
  match m s with
  | (s', Returns a) => f a s'
  | (s', Fails e) => (s', Fails e)
  end.

Definition fail {A : Type} (f : failure) : SM A := fun s => (s, Fails f).

Definition HTTP_403_FORBIDDEN : Z := 403.

Definition HTTP_404_NOT_FOUND : Z := 404.

(** Code outside the embedded files: [Point.from_latlng] on the theater's
    terrain, [PackageWaypoints.get_initial_point], the positions of targets
    and control points, the lookup of the [PackageModel] of a package and
    its [update_tot]. *)
Class Services : Type := {
  from_latlng : Z -> Z -> Point;
  get_initial_point : Point -> Point -> Point;
  target_position : Z -> Point;
  control_point_position : Z -> Point;
  find_matching_package_model : Server -> Z -> option Z;
  update_tot : Z -> Server -> Server
}.

(** *** Reading and writing objects *)

Definition lift_world {A : Type} (m : M A) : SM A := fun s =>
  let '(w, r) := m (world s) in
  ({| world := w;
      waypoint_objects := waypoint_objects s;
      flight_waypoints := flight_waypoints s;
      iter_waypoints := iter_waypoints s;
      package_waypoints := package_waypoints s;
      event_stream := event_stream s |},
   match r with
   | Ok a => Returns a
   | Raise e => Fails (Exception e)
   end).

Definition get_waypoint (w : Z) : SM FlightWaypoint := fun s =>
  match waypoint_objects s !! w with
  | Some o => (s, Returns o)
  | None => (s, Fails (Exception TypeError))
  end.

Definition set_waypoint_objects (s : Server)
    (objects : gmap Z FlightWaypoint) : Server :=
  {| world := world s;
     waypoint_objects := objects;
     flight_waypoints := flight_waypoints s;
     iter_waypoints := iter_waypoints s;
     package_waypoints := package_waypoints s;
     event_stream := event_stream s |}.

Definition moved_to (p : Point) (o : FlightWaypoint) : FlightWaypoint :=
  {| waypoint_type := waypoint_type o; position := p |}.

(** [w.position = p] *)
Definition set_position_of (w : Z) (p : Point) : SM unit := fun s =>
  match waypoint_objects s !! w with
  | Some o =>
      (set_waypoint_objects s (<[w := moved_to p o]> (waypoint_objects s)),
       Returns tt)
  | None => (s, Fails (Exception TypeError))
  end.

Definition get_flight_waypoints (f : Z) : SM (list Z) := fun s =>
  match flight_waypoints s !! f with
  | Some ws => (s, Returns ws)
  | None => (s, Fails (Exception TypeError))
  end.

Definition get_iter_waypoints (f : Z) : SM (list Z) := fun s =>
  match iter_waypoints s !! f with
  | Some ws => (s, Returns ws)
  | None => (s, Fails (Exception TypeError))
  end.

Definition get_package_waypoints (r : Z) : SM PackageWaypoints := fun s =>
  match package_waypoints s !! r with
  | Some o => (s, Returns o)
  | None => (s, Fails (Exception TypeError))
  end.

Definition put_package_waypoints (r : Z) (o : PackageWaypoints) : SM unit :=
  fun s =>
    ({| world := world s;
        waypoint_objects := waypoint_objects s;
        flight_waypoints := flight_waypoints s;
        iter_waypoints := iter_waypoints s;
        package_waypoints := <[r := o]> (package_waypoints s);
        event_stream := event_stream s |}, Returns tt).

(** [EventStream.put_nowait(events)] *)
Definition put_nowait (events : list Z) : SM unit := fun s =>
  ({| world := world s;
      waypoint_objects := waypoint_objects s;
      flight_waypoints := flight_waypoints s;
      iter_waypoints := iter_waypoints s;
      package_waypoints := package_waypoints s;
      event_stream := event_stream s ++ [events] |}, Returns tt).

(** [xs[i]] for a Python list: a negative index counts from the end. *)
Definition py_index {A : Type} (xs : list A) (i : Z) : option A :=
  if 0 <=? i then xs !! Z.to_nat i
  else if - Z.of_nat (length xs) <=? i
       then xs !! Z.to_nat (Z.of_nat (length xs) + i)
       else None.

Section Handlers.
Context `{Services}.

(** [enumerate(waypoints, start)] into the calls of
    [FlightWaypointJs.for_waypoint]. *)
Fixpoint listed (flight : Z) (start : Z) (waypoints : list Z)
  : list FlightWaypointJs :=
  match waypoints with
  | [] => []
  | w :: rest =>
      {| for_waypoint := Planned w; for_flight := flight; idx := start |}
        :: listed flight (start + 1) rest
  end.

Definition waypoints_for_flight (flight : Z) : SM (list FlightWaypointJs) :=
  fl ← lift_world (get_flight flight);
  let departure :=
    {| for_waypoint :=
         Synthetic {| waypoint_type := TAKEOFF;
                      position := control_point_position (departure fl) |};
       for_flight := flight;
       idx := 0 |} in
  waypoints ← get_flight_waypoints flight;
  mret ([departure] ++ listed flight 1 waypoints).

(** The assignments to [wpts] for the type of the moved waypoint; [None]
    for the [else] branch, which returns. *)
Definition moved_package_waypoints (t : FlightWaypointType)
    (position target : Point) (wpts : PackageWaypoints)
  : option PackageWaypoints :=
  match t with
  | JOIN =>
      Some {| join := Some position; ingress := ingress wpts;
              initial := initial wpts; split := split wpts;
              refuel := refuel wpts |}
  | SPLIT =>
      Some {| join := join wpts; ingress := ingress wpts;
              initial := initial wpts; split := Some position;
              refuel := refuel wpts |}
  | REFUEL =>
      Some {| join := join wpts; ingress := ingress wpts;
              initial := initial wpts; split := split wpts;
              refuel := Some position |}
  | INGRESS _ =>
      Some {| join := join wpts; ingress := Some position;
              initial := Some (get_initial_point position target);
              split := split wpts; refuel := refuel wpts |}
  | _ => None
  end.

(** The test of the inner loop. *)
Definition same_leg (t t' : FlightWaypointType) : bool :=
  bool_decide (t' = t) || (ingress_in_name t' && ingress_in_name t).

(** [for wpt in f.flight_plan.iter_waypoints()], up to its [break];
    [new_in_same_map(x, y)] makes a point with the coordinates given.
    Returns the flights reported as updated so far. *)
Fixpoint move_first_match (waypoint f : Z) (wpts : list Z)
    (events : list Z) : SM (list Z) :=
  match wpts with
  | [] => mret events
  | wpt :: rest =>
      o ← get_waypoint wpt;
      moved ← get_waypoint waypoint;
      if same_leg (waypoint_type moved) (waypoint_type o) then
        _ ← set_position_of wpt
              {| x := x (position moved); y := y (position moved) |};
        mret (events ++ [f])
      else move_first_match waypoint f rest events
  end.

(** [for f in flight.package.flights] *)
Fixpoint update_flights (waypoint flight : Z) (fs : list Z)
    (events : list Z) : SM (list Z) :=
  match fs with
  | [] => mret events
  | f :: rest =>
      if bool_decide (f = flight) then
        update_flights waypoint flight rest events
      else
        wpts ← get_iter_waypoints f;
        events ← move_first_match waypoint f wpts events;
        update_flights waypoint flight rest events
  end.

(** [events] is the list of flights that [events.update_flight] was called
    with; the function returns it as it leaves it.  A [PackageWaypoints]
    object is never false, so [and wpts] tests for [None]. *)
Definition update_package_waypoints_if_primary_flight
    (waypoint flight : Z) (events : list Z) : SM (list Z) :=
  fl ← lift_world (get_flight flight);
  o ← lift_world (get_package (package fl));
  let wpts := waypoints o in
  primary ← lift_world (primary_flight (package fl));
  if bool_decide (primary = Some flight) then
    match wpts with
    | None => mret events
    | Some wpts =>
        moved ← get_waypoint waypoint;
        old ← get_package_waypoints wpts;
        match moved_package_waypoints (waypoint_type moved) (position moved)
                (target_position (target o)) old with
        | None => mret events
        | Some new =>
            _ ← put_package_waypoints wpts new;
            o ← lift_world (get_package (package fl));
            update_flights waypoint flight (flights o) events
        end
    end
  else mret events.

(** The waypoint [set_position] is about to move: the check of the index
    and [flight.flight_plan.waypoints[waypoint_idx - 1]]. *)
Definition indexed_waypoint (flight : Z) (waypoint_idx : Z) : SM Z :=
  if waypoint_idx =? 0 then fail (HTTPException HTTP_403_FORBIDDEN)
  else
    waypoints ← get_flight_waypoints flight;
    match py_index waypoints (waypoint_idx - 1) with
    | Some waypoint => mret waypoint
    | None => fail (Exception IndexError)
    end.

Definition set_position (flight : Z) (waypoint_idx : Z) (lat lng : Z)
  : SM unit :=
  waypoint ← indexed_waypoint flight waypoint_idx;
  _ ← set_position_of waypoint (from_latlng lat lng);
  fl ← lift_world (get_flight flight);
  package_model ← (fun s =>
                     (s, Returns (find_matching_package_model s (package fl))));
  match package_model with
  | None => fail (HTTPException HTTP_404_NOT_FOUND)
  | Some package_model =>
      events ← update_package_waypoints_if_primary_flight waypoint flight [];
      _ ← (fun s => (update_tot package_model s, Returns tt));
      put_nowait (events ++ [flight])
  end.

End Handlers.

(** For the statements: the first waypoint of a list that is on the leg of
    type [t], by the types the objects have; and the waypoint of flight [f]
    that follows a waypoint of type [t] moved by [flight]. *)
Fixpoint first_on_leg (objects : gmap Z FlightWaypoint)
    (t : FlightWaypointType) (wpts : list Z) : option Z :=
  match wpts with
  | [] => None
  | wpt :: rest =>
      match objects !! wpt with
      | Some o =>
          if same_leg t (waypoint_type o) then Some wpt
          else first_on_leg objects t rest
      | None => None
      end
  end.

Definition follower (s : Server) (t : FlightWaypointType) (flight f : Z)
  : option Z :=
  if bool_decide (f = flight) then None
  else wpts ← iter_waypoints s !! f; first_on_leg (waypoint_objects s) t wpts.

(** *** Instances for the examples *)

Definition demo_services : Services := {|
  from_latlng := fun lat lng => {| x := lat; y := lng |};
  get_initial_point := fun ingress target =>
    {| x := (x ingress + x target) / 2; y := (y ingress + y target) / 2 |};
  target_position := fun _ => {| x := 0; y := 0 |};
  control_point_position := fun c => {| x := c; y := c |};
  find_matching_package_model := fun _ p => if p =? 1 then Some 1 else None;
  update_tot := fun _ s => s
|}.

(** The example world of the packages: the strike flight 10 leads package
    1.  Its plan is the waypoints 40 (join, which has just been moved away
    from the join point of the package), 41 (ingress), 42 (split); the
    escort 11 flies 50 (join), 51 (escort ingress), 52 (split), the
    transport 12 the waypoints 60 and 61, neither of them a join. *)
Definition demo_server : Server := {|
  world := demo_world;
  waypoint_objects :=
    list_to_map
      [ (40, {| waypoint_type := JOIN; position := {| x := 12; y := 13 |} |});
        (41, {| waypoint_type := INGRESS 1;
                position := {| x := 20; y := 20 |} |});
        (42, {| waypoint_type := SPLIT; position := {| x := 30; y := 30 |} |});
        (50, {| waypoint_type := JOIN; position := {| x := 11; y := 11 |} |});
        (51, {| waypoint_type := INGRESS 2;
                position := {| x := 21; y := 21 |} |});
        (52, {| waypoint_type := SPLIT; position := {| x := 31; y := 31 |} |});
        (60, {| waypoint_type := OtherWaypointType 1;
                position := {| x := 5; y := 5 |} |});
        (61, {| waypoint_type := OtherWaypointType 2;
                position := {| x := 6; y := 6 |} |}) ];
  flight_waypoints :=
    list_to_map [(10, [40; 41; 42]); (11, [50; 51; 52]); (12, [60; 61]);
                 (13, [])];
  iter_waypoints :=
    list_to_map [(10, [40; 41; 42]); (11, [50; 51; 52]); (12, [60; 61]);
                 (13, [])];
  package_waypoints :=
    {[ 77 := {| join := Some {| x := 10; y := 10 |};
                ingress := Some {| x := 20; y := 20 |};
                initial := Some {| x := 10; y := 10 |};
                split := Some {| x := 30; y := 30 |};
                refuel := None |} ]};
  event_stream := []
|}.

End Routes.

(** * Facts about [py_sorted] *)

Section SortedByKeyFacts.
Context {A : Type}.
Variable key : A -> Z.

Lemma insert_by_key_perm x l : Permutation (x :: l) (insert_by_key key x l).
Proof.
  induction l as [|y l IH]; simpl; [reflexivity|].
  destruct (key x <=? key y); [reflexivity|].
  rewrite perm_swap. now apply perm_skip.
Qed.

Lemma py_sorted_perm l : Permutation l (py_sorted key l).
Proof.
  induction l as [|x l IH]; simpl; [constructor|].
  rewrite <- insert_by_key_perm. now apply perm_skip.
Qed.

Lemma insert_by_key_sorted x l :
  StronglySorted (key_le key) l ->
  StronglySorted (key_le key) (insert_by_key key x l).
Proof.
  induction 1 as [|y l Hs IH Hall]; simpl.
  - repeat constructor.
  - destruct (key x <=? key y) eqn:E.
    + apply Z.leb_le in E. constructor; [now constructor|].
      constructor; [exact E|].
      eapply List.Forall_impl; [|exact Hall]. unfold key_le. simpl. intros; lia.
    + apply Z.leb_gt in E. constructor; [exact IH|].
      eapply Permutation_Forall; [apply insert_by_key_perm|].
      constructor; [unfold key_le; lia | exact Hall].
Qed.

Lemma py_sorted_sorted l : StronglySorted (key_le key) (py_sorted key l).
Proof.
  induction l as [|x l IH]; simpl; [constructor|].
  now apply insert_by_key_sorted.
Qed.

(** Stability: the elements of any one key come out in their input order. *)
Lemma insert_by_key_filter k x l :
  StronglySorted (key_le key) l ->
  filter (fun a => key a = k) (insert_by_key key x l)
  = filter (fun a => key a = k) (x :: l).
Proof.
  induction 1 as [|y l Hs IH Hall]; simpl; [reflexivity|].
  destruct (key x <=? key y) eqn:E; [reflexivity|].
  apply Z.leb_gt in E.
  rewrite !filter_cons in *.
  destruct (decide (key y = k)) as [Hy|Hy];
    destruct (decide (key x = k)) as [Hx|Hx];
    try (rewrite IH; reflexivity).
  unfold key_le in Hall. lia.
Qed.

Lemma py_sorted_stable k l :
  filter (fun a => key a = k) (py_sorted key l)
  = filter (fun a => key a = k) l.
Proof.
  induction l as [|x l IH]; simpl; [reflexivity|].
  rewrite insert_by_key_filter by apply py_sorted_sorted.
  rewrite !filter_cons, IH. reflexivity.
Qed.
End SortedByKeyFacts.

(** * Facts about [list_remove] *)

Lemma list_remove_spec x l :
  x ∈ l ->
  exists pre post,
    l = pre ++ x :: post /\ (x ∉ pre) /\ list_remove x l = Ok (pre ++ post).
Proof.
  induction l as [|y l IH]; intros Hin.
  - now apply not_elem_of_nil in Hin.
  - simpl. case_bool_decide as Hy.
    + subst y. exists [], l. repeat split. apply not_elem_of_nil.
    + apply elem_of_cons in Hin as [->|Hin]; [congruence|].
      destruct (IH Hin) as (pre & post & -> & Hpre & ->).
      exists (y :: pre), post. repeat split.
      apply not_elem_of_cons. split; [congruence|exact Hpre].
Qed.

Lemma list_remove_raises x l : x ∉ l -> list_remove x l = Raise ValueError.
Proof.
  induction l as [|y l IH]; intros Hin; simpl; [reflexivity|].
  apply not_elem_of_cons in Hin as [Hne Hin].
  rewrite bool_decide_eq_false_2 by congruence. now rewrite IH.
Qed.

Lemma list_remove_sublist x l l' : list_remove x l = Ok l' -> sublist l' l.
Proof.
  revert l'. induction l as [|y l IH]; intros l'; simpl; [discriminate|].
  case_bool_decide.
  - intros [= <-]. now apply sublist_cons.
  - destruct (list_remove x l) as [r|e]; simpl; [|discriminate].
    intros [= <-]. apply sublist_skip. now apply IH.
Qed.

(** * Facts about the planner (packageplanningtask.py) *)

Module PlannerFacts.
Import Planner.

Section ThreatZoneFacts.
Context `{GroundObjects}.

Lemma range_of_member rt tgo : range_of (Member rt) tgo = Ok (range_for rt tgo).
Proof. destruct rt; reflexivity. Qed.

(** With a member of [RangeType] the loop never raises: it appends, in input
    order, the objects that pass the two tests, each with its
    distance-to-threat. *)
Lemma collect_target_ranges_member self rt all_iads acc :
  collect_target_ranges self (Member rt) all_iads acc
  = Ok (acc ++ map (fun tgo => (tgo, distance_to_threat self rt tgo))
                   (filter (fun tgo => covers_target self rt tgo = true)
                           all_iads)).
Proof.
  revert acc.
  induction all_iads as [|tgo rest IH]; intros acc;
    cbn [collect_target_ranges].
  - simpl. now rewrite app_nil_r.
  - rewrite range_of_member. cbn [mbind result_bind]. rewrite filter_cons.
    fold (distance_to_threat self rt tgo).
    destruct (decide (covers_target self rt tgo = true)) as [Hc|Hc];
      unfold covers_target in Hc.
    + apply andb_true_iff in Hc as [Hb Hd]. apply Z.leb_le in Hd.
      rewrite Hb. cbn [negb].
      destruct (0 <? distance_to_threat self rt tgo) eqn:Ed;
        [apply Z.ltb_lt in Ed; lia|].
      rewrite IH, <- app_assoc. reflexivity.
    + apply not_true_is_false, andb_false_iff in Hc as [Hb|Hd].
      * rewrite Hb. apply IH.
      * apply Z.leb_gt in Hd.
        destruct (negb _); [apply IH|].
        destruct (0 <? distance_to_threat self rt tgo) eqn:Ed;
          [apply IH | apply Z.ltb_ge in Ed; lia].
Qed.

Lemma iter_iads_ranges_member self state rt :
  iter_iads_ranges self state (Member rt)
  = Ok (map fst
          (py_sorted snd
             (map (fun tgo => (tgo, distance_to_threat self rt tgo))
                (filter (fun tgo => covers_target self rt tgo = true)
                   (enemy_air_defenses state ++ enemy_ships state))))).
Proof.
  unfold iter_iads_ranges. rewrite collect_target_ranges_member. reflexivity.
Qed.

(** A list of pairs (object, its key) sorted by the second component gives,
    projected on the objects, a list sorted by the key function. *)
Lemma sorted_pairs_fst (f : Z -> Z) (l : list (Z * Z)) :
  Forall (fun p => snd p = f (fst p)) l ->
  StronglySorted (key_le snd) l ->
  StronglySorted (fun a b => f a <= f b) (map fst l).
Proof.
  intros Hkey Hs. induction Hs as [|p l Hs IH Hall]; simpl; [constructor|].
  apply Forall_cons in Hkey as [Hp Hl].
  constructor; [now apply IH|].
  apply Forall_map. rewrite Forall_forall in Hall, Hl |- *.
  intros q Hq. specialize (Hall q Hq). specialize (Hl q Hq).
  unfold key_le in Hall. simpl. lia.
Qed.

Lemma paired_keys (f : Z -> Z) (l : list Z) :
  Forall (fun p => snd p = f (fst p))
    (py_sorted snd (map (fun tgo => (tgo, f tgo)) l)).
Proof.
  eapply Permutation_Forall; [apply py_sorted_perm|].
  apply Forall_map, Forall_forall. reflexivity.
Qed.

Lemma map_fst_paired (f : Z -> Z) (l : list Z) :
  map fst (map (fun tgo => (tgo, f tgo)) l) = l.
Proof. rewrite map_map. simpl. apply map_id. Qed.

Lemma filter_fst_paired (f : Z -> Z) (k : Z) (l : list (Z * Z)) :
  Forall (fun p => snd p = f (fst p)) l ->
  filter (fun tgo => f tgo = k) (map fst l)
  = map fst (filter (fun p => snd p = k) l).
Proof.
  induction 1 as [|p l Hp _ IH]; [reflexivity|].
  cbn [map]. rewrite !filter_cons, IH.
  destruct (decide (f (fst p) = k)), (decide (snd p = k));
    try reflexivity; congruence.
Qed.

(** Objects of equal distance-to-threat are yielded in the order of the
    input, air defenses before ships. *)
Lemma iter_iads_ranges_stable self state rt threats k :
  iter_iads_ranges self state (Member rt) = Ok threats ->
  filter (fun tgo => distance_to_threat self rt tgo = k) threats
  = filter (fun tgo => distance_to_threat self rt tgo = k)
      (filter (fun tgo => covers_target self rt tgo = true)
         (enemy_air_defenses state ++ enemy_ships state)).
Proof.
  rewrite iter_iads_ranges_member. intros [= <-].
  rewrite filter_fst_paired by apply paired_keys.
  rewrite py_sorted_stable.
  rewrite <- (filter_fst_paired (distance_to_threat self rt))
    by (apply Forall_map, Forall_forall; reflexivity).
  now rewrite map_fst_paired.
Qed.

Lemma iter_iads_ranges_sorted self state rt threats :
  iter_iads_ranges self state (Member rt) = Ok threats ->
  StronglySorted
    (fun a b => distance_to_threat self rt a <= distance_to_threat self rt b)
    threats.
Proof.
  rewrite iter_iads_ranges_member. intros [= <-].
  apply sorted_pairs_fst; [apply paired_keys|apply py_sorted_sorted].
Qed.

(** C1. With a member of [RangeType], [iter_iads_ranges] yields exactly the
    objects of [enemy_air_defenses] and [enemy_ships] that pass its tests
    (each as often as it occurs there); everything it yields has a
    distance-to-threat, the distance to the target minus the maximum range,
    that is not positive; and it yields them by ascending distance-to-threat,
    the most negative first. *)
Theorem iter_iads_ranges_pruned_and_ordered self state rt :
  exists threats,
    iter_iads_ranges self state (Member rt) = Ok threats
    /\ Permutation threats
         (filter (fun tgo => covers_target self rt tgo = true)
            (enemy_air_defenses state ++ enemy_ships state))
    /\ Forall (fun tgo => distance_to_threat self rt tgo <= 0) threats
    /\ StronglySorted
         (fun a b => distance_to_threat self rt a <= distance_to_threat self rt b)
         threats.
Proof.
  eexists. split; [apply iter_iads_ranges_member|].
  assert (Hperm : Permutation
            (map fst
               (py_sorted snd
                  (map (fun tgo => (tgo, distance_to_threat self rt tgo))
                     (filter (fun tgo => covers_target self rt tgo = true)
                        (enemy_air_defenses state ++ enemy_ships state)))))
            (filter (fun tgo => covers_target self rt tgo = true)
               (enemy_air_defenses state ++ enemy_ships state))).
  { rewrite <- py_sorted_perm. now rewrite map_fst_paired. }
  split; [exact Hperm|]. split.
  - eapply Permutation_Forall; [symmetry; exact Hperm|].
    apply Forall_forall. intros tgo Hin.
    apply list_elem_of_filter in Hin as [Hc _].
    unfold covers_target in Hc.
    apply andb_true_iff in Hc as [_ Hd]. now apply Z.leb_le in Hd.
  - eapply iter_iads_ranges_sorted, iter_iads_ranges_member.
Qed.

(** The first object yielded is one of greatest coverage: no yielded object
    has a smaller distance-to-threat. *)
Corollary iter_iads_ranges_head self state rt first rest :
  iter_iads_ranges self state (Member rt) = Ok (first :: rest) ->
  Forall (fun tgo =>
            distance_to_threat self rt first <= distance_to_threat self rt tgo)
    rest.
Proof.
  intros Heq. apply iter_iads_ranges_sorted in Heq.
  now apply StronglySorted_inv in Heq as [_ Hall].
Qed.

(** The loop has a failing branch, reached by a non-member on the first
    object it visits. *)
Lemma iter_iads_ranges_not_member self state :
  enemy_air_defenses state ++ enemy_ships state <> [] ->
  iter_iads_ranges self state NotMember = Raise ValueError.
Proof.
  unfold iter_iads_ranges.
  destruct (enemy_air_defenses state ++ enemy_ships state); [congruence|].
  reflexivity.
Qed.

(** C7. The evaluator has no failure state on its inputs: when
    [enemy_air_defenses] and [enemy_ships] are both empty it yields the empty
    sequence and raises nothing, for [Detection], for [Threat] and indeed for
    any argument; and whatever the two lists hold it returns, without raising,
    for both members of [RangeType]. *)
Theorem iter_iads_ranges_never_fails self state :
  (enemy_air_defenses state = [] -> enemy_ships state = [] ->
   forall range_type, iter_iads_ranges self state range_type = Ok [])
  /\ (forall rt, exists threats,
        iter_iads_ranges self state (Member rt) = Ok threats).
Proof.
  split.
  - intros Had Hsh range_type. unfold iter_iads_ranges.
    rewrite Had, Hsh. reflexivity.
  - intros rt. eexists. apply iter_iads_ranges_member.
Qed.

(** *** The persistent lists stay free of duplicates *)

Lemma append_unseen_NoDup (xs acc : list Z) :
  NoDup acc -> NoDup (append_unseen xs acc).
Proof.
  revert acc. induction xs as [|x xs IH]; intros acc Hnd; simpl; [exact Hnd|].
  case_bool_decide as Hin; apply IH; [exact Hnd|].
  apply NoDup_app. split; [exact Hnd|]. split.
  - intros y Hy Hy'. apply list_elem_of_singleton in Hy'. now subst.
  - apply NoDup_singleton.
Qed.

(** Nothing is dropped or reordered: the list on entry is a prefix of the
    list on exit, and every new entry is one of the visited objects. *)
Lemma append_unseen_prefix (xs acc : list Z) :
  exists added,
    append_unseen xs acc = acc ++ added /\ Forall (fun x => x ∈ xs) added.
Proof.
  revert acc. induction xs as [|x xs IH]; intros acc; simpl.
  - exists []. now rewrite app_nil_r.
  - case_bool_decide as Hin.
    + destruct (IH acc) as (added & -> & Hall). exists added.
      split; [reflexivity|].
      eapply List.Forall_impl; [|exact Hall]. intros; now right.
    + destruct (IH (acc ++ [x])) as (added & -> & Hall). exists (x :: added).
      split; [now rewrite <- app_assoc|].
      constructor; [now left|].
      eapply List.Forall_impl; [|exact Hall]. intros; now right.
Qed.

Lemma threat_loop_threatening self state threats threatened acc :
  snd (threat_loop self state threats threatened acc)
  = append_unseen threats acc.
Proof.
  revert threatened acc.
  induction threats as [|x xs IH]; intros threatened acc; simpl; [reflexivity|].
  case_bool_decide; apply IH.
Qed.

(** C4. When [threatening_air_defenses] and [detecting_air_defenses] hold
    no duplicates before a call of [target_area_preconditions_met], they
    hold none after it; the call returns without raising. *)
Theorem target_area_preconditions_met_keeps_nodup self state ignore_iads :
  NoDup (threatening_air_defenses state) ->
  NoDup (detecting_air_defenses state) ->
  NoDup (threatening_air_defenses
           (fst (target_area_preconditions_met self state ignore_iads)))
  /\ NoDup (detecting_air_defenses
              (fst (target_area_preconditions_met self state ignore_iads)))
  /\ exists clear,
       snd (target_area_preconditions_met self state ignore_iads) = Ok clear.
Proof.
  intros Hthreat Hdetect. unfold target_area_preconditions_met.
  unfold iter_detecting_iads, iter_iads_threats.
  rewrite !iter_iads_ranges_member.
  destruct ignore_iads; cbn [negb].
  - cbn. repeat split; [exact Hthreat|now apply append_unseen_NoDup|eauto].
  - match goal with
    | |- context [threat_loop ?a ?b ?c ?d ?e] =>
        pose proof (threat_loop_threatening a b c d e) as Hloop;
        destruct (threat_loop a b c d e) as [threatened threatening]
    end.
    cbn in Hloop |- *. subst threatening.
    repeat split; [| |eauto]; now apply append_unseen_NoDup.
Qed.

(** [eliminate_air_defense] and [eliminate_ship], the other writers of the
    two lists, only remove entries. *)
Lemma remove_if_present_NoDup x l : NoDup l -> NoDup (remove_if_present x l).
Proof.
  intros Hnd. unfold remove_if_present.
  case_bool_decide; [|exact Hnd].
  destruct (list_remove x l) as [r|e] eqn:E; [|exact Hnd].
  eapply sublist_NoDup; [exact Hnd|]. eapply list_remove_sublist, E.
Qed.

Lemma eliminate_air_defense_keeps_nodup state tgo :
  NoDup (threatening_air_defenses state) ->
  NoDup (detecting_air_defenses state) ->
  NoDup (threatening_air_defenses (fst (eliminate_air_defense state tgo)))
  /\ NoDup (detecting_air_defenses (fst (eliminate_air_defense state tgo))).
Proof.
  intros Ht Hd. unfold eliminate_air_defense.
  destruct (list_remove tgo _); cbn;
    split; now apply remove_if_present_NoDup.
Qed.

Lemma eliminate_ship_keeps_nodup state tgo :
  NoDup (threatening_air_defenses state) ->
  NoDup (detecting_air_defenses state) ->
  NoDup (threatening_air_defenses (fst (eliminate_ship state tgo)))
  /\ NoDup (detecting_air_defenses (fst (eliminate_ship state tgo))).
Proof.
  intros Ht Hd. unfold eliminate_ship.
  destruct (list_remove tgo _); cbn;
    split; now apply remove_if_present_NoDup.
Qed.

End ThreatZoneFacts.

Section PackagePlanningFacts.
Context `{TaskMethods}.

Lemma fulfill_mission_returns self state self' (planned : bool) :
  fulfill_mission self state = (self', Ok planned) ->
  (planned = true <-> package self' <> None).
Proof.
  unfold fulfill_mission.
  destruct (flights (propose_flights self)); [discriminate|].
  intros [= <- <-]. split.
  - intros Hb. now apply bool_decide_eq_true in Hb.
  - intros Hp. now apply bool_decide_eq_true.
Qed.

Lemma fulfill_mission_raises self state self' e :
  fulfill_mission self state = (self', Raise e) ->
  e = IndexError /\ flights (propose_flights self) = [].
Proof.
  unfold fulfill_mission.
  destruct (flights (propose_flights self)); [|discriminate].
  now intros [= <- <-].
Qed.

(** With flights proposed, [fulfill_mission] returns, and [self.package] is
    what the fulfiller returned for them. *)
Lemma fulfill_mission_plans self state :
  flights (propose_flights self) <> [] ->
  exists self' asap,
    fulfill_mission self state
    = (self', Ok (bool_decide (package self' <> None)))
    /\ target self' = target (propose_flights self)
    /\ flights self' = flights (propose_flights self)
    /\ package self'
       = plan_mission (context state)
           {| pm_location := target self'; pm_flights := flights self';
              pm_asap := asap |}
           (purchase_multiplier (propose_flights self))
           (now (context state)).
Proof.
  intros Hflights. unfold fulfill_mission.
  destruct (flights (propose_flights self)) as [|f fs] eqn:E; [easy|].
  rewrite <- E. eexists _, _. split; [reflexivity|]. cbn. now rewrite E.
Qed.

(** C2. [preconditions_met] returns [True] only with a planned package in
    [self.package]; unless planning is disabled for the player it is
    [fulfill_mission], which returns [True] exactly when [self.package] is
    not [None] after it, so a plan that failed returns [False] and leaves
    [None] there; when planning is disabled for the player, or the
    fulfiller finds no package for the flights proposed, the call returns
    [False] and raises nothing; and [execute] on a task whose [package] is
    [None] raises [RuntimeError] and leaves the ATO as it was. *)
Theorem planning_fails_non_fatally self state :
  (forall self',
      preconditions_met self state = (self', Ok true) ->
      fulfill_mission self state = (self', Ok true)
      /\ exists p, package self' = Some p)
  /\ (forall self' planned,
        fulfill_mission self state = (self', Ok planned) ->
        (planned = true <-> package self' <> None))
  /\ (coalition_player (context state) = true ->
      auto_ato_behavior (settings (context state)) = Disabled ->
      preconditions_met self state = (self, Ok false))
  /\ (coalition_player (context state) = false
      \/ auto_ato_behavior (settings (context state)) <> Disabled ->
      preconditions_met self state = fulfill_mission self state)
  /\ (flights (propose_flights self) <> [] ->
      exists self' planned asap,
        fulfill_mission self state = (self', Ok planned)
        /\ package self'
           = plan_mission (context state)
               {| pm_location := target self'; pm_flights := flights self';
                  pm_asap := asap |}
               (purchase_multiplier (propose_flights self))
               (now (context state))
        /\ (planned = false -> package self' = None))
  /\ (forall ato,
        package self = None -> execute self ato = (ato, Raise RuntimeError)).
Proof.
  split; [|split; [|split; [|split; [|split]]]].
  - intros self' Hrun. unfold preconditions_met in Hrun.
    destruct (coalition_player (context state)
              && bool_decide
                   (auto_ato_behavior (settings (context state)) = Disabled));
      [discriminate|].
    split; [exact Hrun|].
    apply fulfill_mission_returns in Hrun as [Hp _].
    destruct (package self') as [p|]; [eauto|now destruct Hp].
  - apply fulfill_mission_returns.
  - intros Hplayer Hdisabled. unfold preconditions_met.
    rewrite Hplayer, Hdisabled. reflexivity.
  - intros Hgate. unfold preconditions_met.
    destruct Hgate as [->|Hbehavior]; [reflexivity|].
    rewrite bool_decide_eq_false_2 by exact Hbehavior.
    now rewrite andb_false_r.
  - intros Hflights.
    destruct (fulfill_mission_plans self state Hflights)
      as (self' & asap & Hrun & _ & _ & Hplan).
    exists self', (bool_decide (package self' <> None)), asap.
    split; [exact Hrun|]. split; [exact Hplan|].
    intros Hfalse. apply bool_decide_eq_false in Hfalse.
    destruct (package self') as [p|]; [|reflexivity].
    now destruct Hfalse.
  - intros ato Hnone. unfold execute. now rewrite Hnone.
Qed.

End PackagePlanningFacts.

Example preconditions_met_demo_planned :
  @preconditions_met demo_methods (new_task 100) demo_state
  = ({| target := 100;
        flights := [ {| pf_task := STRIKE; pf_num_aircraft := 2;
                        pf_escort_type := None |};
                     {| pf_task := SEAD_ESCORT; pf_num_aircraft := 2;
                        pf_escort_type := Some Sead |};
                     {| pf_task := ESCORT; pf_num_aircraft := 2;
                        pf_escort_type := Some AirToAir |};
                     {| pf_task := SEAD_SWEEP; pf_num_aircraft := 2;
                        pf_escort_type := Some Sead |} ];
        package := Some 7 |}, Ok true).
Proof. reflexivity. Qed.

Example preconditions_met_demo_failed :
  snd (@preconditions_met demo_methods (new_task 101) demo_state) = Ok false
  /\ package (fst (@preconditions_met demo_methods (new_task 101) demo_state))
     = None.
Proof. split; reflexivity. Qed.

Lemma planning_fails_non_fatally_witness :
  (exists p,
      package (fst (@preconditions_met demo_methods (new_task 100) demo_state))
      = Some p)
  /\ (exists self',
        @fulfill_mission demo_methods (new_task 101) demo_state
        = (self', Ok false)
        /\ package self' = None)
  /\ execute (new_task 100) [3] = ([3], Raise RuntimeError).
Proof.
  split; [|split].
  - destruct (@planning_fails_non_fatally demo_methods (new_task 100)
                demo_state) as (Hmet & _).
    destruct (Hmet (fst (@preconditions_met demo_methods (new_task 100)
                           demo_state)) eq_refl) as (_ & p & Hp).
    exists p. exact Hp.
  - destruct (@planning_fails_non_fatally demo_methods (new_task 101)
                demo_state) as (_ & _ & _ & _ & Hplan & _).
    destruct Hplan as (self' & planned & asap & Hrun & _ & Hnone);
      [discriminate|].
    exists self'.
    assert (planned = false) as -> by (cbv in Hrun; congruence).
    split; [exact Hrun|now apply Hnone].
  - destruct (@planning_fails_non_fatally demo_methods (new_task 100)
                demo_state) as (_ & _ & _ & _ & _ & Hexec).
    now apply Hexec.
Defined.

Example iter_iads_ranges_demo_detection :
  @iter_iads_ranges demo_objects (new_task 100) demo_state (Member Detection)
  = Ok [1; 2].
Proof. reflexivity. Qed.

Example iter_iads_ranges_demo_threat :
  @iter_iads_ranges demo_objects (new_task 100) demo_state (Member Threat)
  = Ok [4; 2].
Proof. reflexivity. Qed.

Example iter_iads_ranges_demo_not_member :
  @iter_iads_ranges demo_objects (new_task 100) demo_state NotMember
  = Raise ValueError.
Proof. reflexivity. Qed.

Lemma iter_iads_ranges_never_fails_witness :
  @iter_iads_ranges demo_objects (new_task 100) empty_state NotMember = Ok []
  /\ exists threats,
       @iter_iads_ranges demo_objects (new_task 100) demo_state (Member Threat)
       = Ok threats.
Proof.
  split.
  - apply (proj1 (@iter_iads_ranges_never_fails demo_objects (new_task 100)
                    empty_state)); reflexivity.
  - apply (proj2 (@iter_iads_ranges_never_fails demo_objects (new_task 100)
                    demo_state)).
Defined.

Example target_area_preconditions_met_demo :
  let r := @target_area_preconditions_met demo_objects (new_task 100)
             demo_state false in
  detecting_air_defenses (fst r) = [2; 1]
  /\ threatening_air_defenses (fst r) = [4; 2]
  /\ snd r = Ok false.
Proof. repeat split. Qed.

Lemma target_area_preconditions_met_keeps_nodup_witness :
  let r := @target_area_preconditions_met demo_objects (new_task 100)
             demo_state false in
  NoDup (threatening_air_defenses (fst r))
  /\ NoDup (detecting_air_defenses (fst r))
  /\ exists clear, snd r = Ok clear.
Proof.
  apply (@target_area_preconditions_met_keeps_nodup demo_objects
           (new_task 100) demo_state false).
  - apply NoDup_nil_2.
  - apply NoDup_singleton.
Defined.

End PlannerFacts.

(** * Facts about [TheaterState.clone] (theaterstate.py) *)

Module TheaterFacts.
Import Theater.

Lemma run_bind {A B : Type} (m : M A) (k : A -> M B) h a h' :
  m h = Ok (a, h') -> (x ← m; k x) h = k a h'.
Proof. intros Hm. unfold mbind, M_bind. now rewrite Hm. Qed.

Lemma fresh_unused (h : heap) : h !! fresh (dom h) = None.
Proof. apply not_elem_of_dom, is_fresh. Qed.

Lemma alloc_extends (h : heap) c :
  h ⊆ <[fresh (dom h) := c]> h.
Proof. apply insert_subseteq, fresh_unused. Qed.

(** *** Equality of values *)

Lemma all2_refl {A : Type} (eqb : A -> A -> bool) xs :
  (forall x, eqb x x = true) -> all2 eqb xs xs = true.
Proof.
  intros Hrefl. induction xs as [|x xs IH]; simpl; [reflexivity|].
  now rewrite Hrefl, IH.
Qed.

Lemma all2_mono {A : Type} (eqb eqb' : A -> A -> bool) xs ys :
  (forall x y, eqb x y = true -> eqb' x y = true) ->
  all2 eqb xs ys = true -> all2 eqb' xs ys = true.
Proof.
  intros Himp. revert ys.
  induction xs as [|x xs IH]; intros [|y ys]; simpl; try easy.
  intros [Hxy Hrest]%andb_true_iff.
  apply andb_true_iff. split; [now apply Himp|now apply IH].
Qed.

Lemma py_eq_refs fuel h la lb :
  py_eq (S fuel) h (VRef la) (VRef lb)
  = bool_decide (la = lb)
    || match h !! la, h !! lb with
       | Some (CList xs), Some (CList ys) => all2 (py_eq fuel h) xs ys
       | Some (CData xs), Some (CData ys) => all2 (py_eq fuel h) xs ys
       | Some (CDict xs), Some (CDict ys) =>
           (length xs =? length ys)%nat
           && forallb
                (fun kv =>
                   match dict_get (fst kv) ys with
                   | Some v' => py_eq fuel h (snd kv) v'
                   | None => false
                   end)
                xs
       | _, _ => false
       end.
Proof. reflexivity. Qed.

(** An object equals itself, at any depth that looks at it. *)
Lemma py_eq_refl fuel h v : py_eq (S fuel) h v v = true.
Proof.
  destruct v; simpl; try reflexivity; try now apply bool_decide_eq_true.
  rewrite bool_decide_eq_true_2 by reflexivity. reflexivity.
Qed.

(** Equality found in a heap still holds when the heap has grown. *)
Lemma py_eq_mono fuel (h h' : heap) a b :
  h ⊆ h' -> py_eq fuel h a b = true -> py_eq fuel h' a b = true.
Proof.
  intros Hsub. revert a b.
  induction fuel as [|fuel IH]; intros a b; simpl; [easy|].
  destruct a as [| |?|la], b as [| |?|lb]; try easy.
  intros [Hid|Hdeep]%orb_true_iff; apply orb_true_iff; [now left|right].
  destruct (h !! la) as [ca|] eqn:Ha; [|easy].
  destruct (h !! lb) as [cb|] eqn:Hb; [|now destruct ca].
  rewrite (lookup_weaken _ _ _ _ Ha Hsub), (lookup_weaken _ _ _ _ Hb Hsub).
  destruct ca as [xs|xs|xs], cb as [ys|ys|ys]; try easy.
  - eapply all2_mono; [|exact Hdeep]. apply IH.
  - apply andb_true_iff in Hdeep as [Hlen Hall].
    apply andb_true_iff. split; [exact Hlen|].
    rewrite forallb_forall in Hall |- *. intros kv Hin.
    specialize (Hall kv Hin).
    destruct (dict_get (fst kv) ys); [now apply IH|easy].
  - eapply all2_mono; [|exact Hdeep]. apply IH.
Qed.

Lemma fresh_copy_mono h0 h1 h2 orig v :
  h1 ⊆ h2 -> fresh_copy h0 h1 orig v -> fresh_copy h0 h2 orig v.
Proof.
  intros Hsub [(l & -> & Hnew & [c Hc]) Heq]. split.
  - exists l. repeat split; [exact Hnew|].
    exists c. eapply lookup_weaken; eauto.
  - eapply py_eq_mono; eauto.
Qed.

(** *** The copies [clone] makes *)

Lemma py_list_spec h0 h x :
  h0 ⊆ h -> has_type h0 TList x = true ->
  exists v h', py_list x h = Ok (v, h') /\ h ⊆ h' /\ fresh_copy h0 h' x v.
Proof.
  intros Hsub Htype. destruct x as [| | |lo]; try discriminate.
  simpl in Htype. destruct (h0 !! lo) as [[xs| |]|] eqn:Hlo; try discriminate.
  pose proof (lookup_weaken _ _ _ _ Hlo Hsub) as Hlo'.
  pose proof (fresh_unused h) as Hfresh.
  eexists _, _. split; [|split; [apply alloc_extends|]].
  - unfold py_list, mbind, M_bind, read. rewrite Hlo'. reflexivity.
  - split.
    + eexists. split; [reflexivity|]. split.
      * eapply lookup_weaken_None; eauto.
      * rewrite lookup_insert_eq. eauto.
    + unfold py_equal. rewrite py_eq_refs. apply orb_true_iff. right.
      rewrite lookup_insert_eq, lookup_insert_ne by congruence.
      rewrite Hlo'. apply all2_refl. intros v. apply py_eq_refl.
Qed.

Lemma dict_get_elem k v items :
  NoDup (map fst items) -> (k, v) ∈ items -> dict_get k items = Some v.
Proof.
  induction items as [|[k' v'] items IH]; simpl; intros Hnd Hin.
  - now apply not_elem_of_nil in Hin.
  - apply NoDup_cons in Hnd as [Hk' Hnd].
    apply elem_of_cons in Hin as [[= -> ->]|Hin].
    + now rewrite bool_decide_eq_true_2.
    + rewrite bool_decide_eq_false_2; [now apply IH|].
      intros ->. apply Hk'. apply list_elem_of_fmap. now exists (k, v).
Qed.

(** Dicts with the same keys and, key by key, equal values are equal. *)
Lemma dict_items_equal fuel h (items' items : list (Z * value)) :
  NoDup (map fst items) ->
  Forall2 (fun kv' kv =>
             fst kv' = fst kv /\ py_eq fuel h (snd kv') (snd kv) = true)
    items' items ->
  (length items' =? length items)%nat
  && forallb
       (fun kv' =>
          match dict_get (fst kv') items with
          | Some v => py_eq fuel h (snd kv') v
          | None => false
          end)
       items' = true.
Proof.
  intros Hnd Hall. apply andb_true_iff. split.
  - apply Nat.eqb_eq. eapply Forall2_length, Hall.
  - apply forallb_forall. intros kv' Hin.
    apply list_elem_of_In, list_elem_of_lookup in Hin as [i Hi].
    destruct (Forall2_lookup_l _ _ _ _ _ Hall Hi) as ([k v] & Hi' & Hk & Heq).
    simpl in Hk, Heq. rewrite Hk.
    erewrite dict_get_elem; [exact Heq|exact Hnd|].
    eapply list_elem_of_lookup_2, Hi'.
Qed.

Lemma py_dict_spec h0 h x :
  h0 ⊆ h -> has_type h0 TDict x = true ->
  exists v h', py_dict x h = Ok (v, h') /\ h ⊆ h' /\ fresh_copy h0 h' x v.
Proof.
  intros Hsub Htype. destruct x as [| | |lo]; try discriminate.
  simpl in Htype. destruct (h0 !! lo) as [[|items|]|] eqn:Hlo; try discriminate.
  apply bool_decide_eq_true in Htype.
  pose proof (lookup_weaken _ _ _ _ Hlo Hsub) as Hlo'.
  pose proof (fresh_unused h) as Hfresh.
  eexists _, _. split; [|split; [apply alloc_extends|]].
  - unfold py_dict, mbind, M_bind, read. rewrite Hlo'. reflexivity.
  - split.
    + eexists. split; [reflexivity|]. split.
      * eapply lookup_weaken_None; eauto.
      * rewrite lookup_insert_eq. eauto.
    + unfold py_equal. rewrite py_eq_refs. apply orb_true_iff. right.
      rewrite lookup_insert_eq, lookup_insert_ne by congruence.
      rewrite Hlo'. apply dict_items_equal; [exact Htype|].
      apply Forall2_same_length_lookup_2; [reflexivity|].
      intros i kv kv' Hi Hi'. rewrite Hi in Hi'. injection Hi' as <-.
      split; [reflexivity|apply py_eq_refl].
Qed.

Lemma dataclasses_replace_spec h0 h g :
  h0 ⊆ h -> is_data h0 g = true ->
  exists g' h',
    dataclasses_replace g h = Ok (g', h')
    /\ h ⊆ h' /\ py_eq 2 h' g' g = true.
Proof.
  intros Hsub Hdata. destruct g as [| | |lg]; try discriminate.
  simpl in Hdata. destruct (h0 !! lg) as [[| |fs]|] eqn:Hlg; try discriminate.
  pose proof (lookup_weaken _ _ _ _ Hlg Hsub) as Hlg'.
  pose proof (fresh_unused h) as Hfresh.
  eexists _, _. split; [|split; [apply alloc_extends|]].
  - unfold dataclasses_replace, mbind, M_bind, read. rewrite Hlg'. reflexivity.
  - rewrite py_eq_refs. apply orb_true_iff. right.
    rewrite lookup_insert_eq, lookup_insert_ne by congruence.
    rewrite Hlg'. apply all2_refl. intros v. apply py_eq_refl.
Qed.

Lemma replace_items_spec h0 items : forall h,
  h0 ⊆ h -> forallb (fun kv => is_data h0 (snd kv)) items = true ->
  exists items' h',
    replace_items items h = Ok (items', h')
    /\ h ⊆ h'
    /\ Forall2 (fun kv' kv =>
                  fst kv' = fst kv /\ py_eq 2 h' (snd kv') (snd kv) = true)
         items' items.
Proof.
  induction items as [|[cp g] items IH]; intros h Hsub Hdata.
  - exists [], h. repeat split; [reflexivity|constructor].
  - simpl in Hdata. apply andb_true_iff in Hdata as [Hg Hrest].
    destruct (dataclasses_replace_spec h0 h g Hsub Hg)
      as (g' & h1 & Hrun1 & Hsub1 & Heq1).
    destruct (IH h1 (transitivity Hsub Hsub1) Hrest)
      as (items' & h' & Hrun & Hsub' & Hall).
    exists ((cp, g') :: items'), h'. split; [|split].
    + cbn [replace_items]. rewrite (run_bind _ _ _ _ _ Hrun1).
      rewrite (run_bind _ _ _ _ _ Hrun). reflexivity.
    + now transitivity h1.
    + constructor; [|exact Hall]. split; [reflexivity|].
      eapply py_eq_mono; eauto.
Qed.

Lemma dict_of_replaced_spec h0 h x :
  h0 ⊆ h -> has_type h0 TDictOfData x = true ->
  exists v h',
    dict_of_replaced x h = Ok (v, h') /\ h ⊆ h' /\ fresh_copy h0 h' x v.
Proof.
  intros Hsub Htype. destruct x as [| | |lo]; try discriminate.
  simpl in Htype. destruct (h0 !! lo) as [[|items|]|] eqn:Hlo; try discriminate.
  apply andb_true_iff in Htype as [Hnd Hdata].
  apply bool_decide_eq_true in Hnd.
  pose proof (lookup_weaken _ _ _ _ Hlo Hsub) as Hlo'.
  destruct (replace_items_spec h0 items h Hsub Hdata)
    as (items' & h1 & Hrun & Hsub1 & Hall).
  pose proof (lookup_weaken _ _ _ _ Hlo' Hsub1) as Hlo1.
  pose proof (fresh_unused h1) as Hfresh.
  eexists _, _. split; [|split].
  - unfold dict_of_replaced. unfold mbind at 1, M_bind at 1, read.
    rewrite Hlo'. rewrite (run_bind _ _ _ _ _ Hrun). reflexivity.
  - transitivity h1; [exact Hsub1|apply alloc_extends].
  - split.
    + eexists. split; [reflexivity|]. split.
      * eapply lookup_weaken_None; [exact Hfresh|].
        now transitivity h.
      * rewrite lookup_insert_eq. eauto.
    + unfold py_equal. rewrite py_eq_refs. apply orb_true_iff. right.
      rewrite lookup_insert_eq, lookup_insert_ne by congruence.
      rewrite Hlo1. apply dict_items_equal; [exact Hnd|].
      eapply Forall2_impl; [exact Hall|].
      intros kv' kv [Hk Heq]. split; [exact Hk|].
      eapply py_eq_mono; [apply alloc_extends|exact Heq].
Qed.

Lemma clone_argument_spec h0 h self f :
  h0 ⊆ h -> has_type h0 (annotation f) (self f) = true ->
  exists v h',
    clone_argument self f h = Ok (v, h')
    /\ h ⊆ h'
    /\ (if per_pass f then fresh_copy h0 h' (self f) v else v = self f).
Proof.
  intros Hsub Htype.
  destruct f; cbn [annotation] in Htype; cbn [clone_argument per_pass];
    first [ now apply py_list_spec
          | now apply py_dict_spec
          | now apply dict_of_replaced_spec
          | eexists _, h; repeat split; reflexivity ].
Qed.

Lemma eval_arguments_spec h0 self fs : forall h,
  h0 ⊆ h ->
  forallb (fun f => has_type h0 (annotation f) (self f)) fs = true ->
  exists kwargs h',
    eval_arguments self fs h = Ok (kwargs, h')
    /\ h ⊆ h'
    /\ map fst kwargs = fs
    /\ Forall (fun kv =>
                 if per_pass (fst kv)
                 then fresh_copy h0 h' (self (fst kv)) (snd kv)
                 else snd kv = self (fst kv))
         kwargs.
Proof.
  induction fs as [|f fs IH]; intros h Hsub Htypes.
  - exists [], h. repeat split; [reflexivity|constructor].
  - simpl in Htypes. apply andb_true_iff in Htypes as [Hf Hfs].
    destruct (clone_argument_spec h0 h self f Hsub Hf)
      as (v & h1 & Hrun1 & Hsub1 & Hv).
    destruct (IH h1 (transitivity Hsub Hsub1) Hfs)
      as (kwargs & h' & Hrun & Hsub' & Hkeys & Hall).
    exists ((f, v) :: kwargs), h'. split; [|split; [|split]].
    + cbn [eval_arguments]. rewrite (run_bind _ _ _ _ _ Hrun1).
      rewrite (run_bind _ _ _ _ _ Hrun). reflexivity.
    + now transitivity h1.
    + simpl. now rewrite Hkeys.
    + constructor; [|exact Hall]. simpl.
      destruct (per_pass f); [|exact Hv].
      eapply fresh_copy_mono; eauto.
Qed.

Lemma construct_elem kwargs f v :
  NoDup (map fst kwargs) -> (f, v) ∈ kwargs -> construct kwargs f = v.
Proof.
  induction kwargs as [|[f' v'] kwargs IH]; simpl; intros Hnd Hin.
  - now apply not_elem_of_nil in Hin.
  - apply NoDup_cons in Hnd as [Hf' Hnd].
    apply elem_of_cons in Hin as [[= -> ->]|Hin].
    + now rewrite bool_decide_eq_true_2.
    + rewrite bool_decide_eq_false_2; [now apply IH|].
      intros ->. apply Hf'. apply list_elem_of_fmap. now exists (f', v).
Qed.

Lemma clone_arguments_complete f : f ∈ clone_arguments.
Proof. destruct f; unfold clone_arguments; set_solver. Qed.

Lemma clone_arguments_NoDup : NoDup clone_arguments.
Proof. apply (bool_decide_unpack _). vm_compute. exact I. Qed.

(** What [clone] returns, field by field. *)
Lemma clone_fields h self :
  well_typed h self = true ->
  exists c h',
    clone self h = Ok (c, h')
    /\ h ⊆ h'
    /\ forall f,
         if per_pass f then fresh_copy h h' (self f) (c f)
         else c f = self f.
Proof.
  intros Htyped.
  destruct (eval_arguments_spec h self clone_arguments h (reflexivity h) Htyped)
    as (kwargs & h' & Hrun & Hsub & Hkeys & Hall).
  exists (construct kwargs), h'. split; [|split; [exact Hsub|]].
  - unfold clone. rewrite (run_bind _ _ _ _ _ Hrun). reflexivity.
  - intros f.
    assert (Hin : f ∈ map fst kwargs)
      by (rewrite Hkeys; apply clone_arguments_complete).
    apply list_elem_of_fmap in Hin as ([f' v] & -> & Hin).
    rewrite Forall_forall in Hall. specialize (Hall _ Hin). simpl in Hall |- *.
    rewrite (construct_elem kwargs f' v); [exact Hall| |exact Hin].
    rewrite Hkeys. apply clone_arguments_NoDup.
Qed.

Lemma well_typed_field h self f :
  well_typed h self = true -> has_type h (annotation f) (self f) = true.
Proof.
  unfold well_typed. rewrite forallb_forall. intros Hall. apply Hall.
  apply list_elem_of_In, clone_arguments_complete.
Qed.

Lemma typed_reference_allocated h t l :
  has_type h t (VRef l) = true -> is_Some (h !! l).
Proof.
  destruct t; simpl; try discriminate; destruct (h !! l); eauto; discriminate.
Qed.

Lemma per_pass_is_reference h self f :
  well_typed h self = true -> per_pass f = true ->
  exists lo, self f = VRef lo /\ is_Some (h !! lo).
Proof.
  intros Htyped Hf. pose proof (well_typed_field h self f Htyped) as Ht.
  destruct f; try discriminate Hf; cbn [annotation] in Ht;
    destruct (self _) as [| | |lo]; try discriminate Ht;
    exists lo; (split; [reflexivity|]);
    simpl in Ht; destruct (h !! lo); eauto; discriminate.
Qed.

(** C3. [clone] returns on every well-typed state; each field of the clone
    equals the field of the original; and each per-pass collection of the
    clone is an object the heap did not have before, so that replacing its
    contents (as appending, removing or assigning through the clone does)
    succeeds and leaves every object the heap had before as it was, the
    corresponding collection of the original among them. *)
Theorem clone_is_shallow_copy h self :
  well_typed h self = true ->
  exists c h',
    clone self h = Ok (c, h')
    /\ (forall f, py_equal h' (c f) (self f) = true)
    /\ (forall f, per_pass f = true ->
        exists l lo,
          c f = VRef l /\ self f = VRef lo /\ l <> lo /\ h !! l = None
          /\ forall x, exists h'',
               write (c f) x h' = Ok (tt, h'')
               /\ contents h'' (c f) = Some x
               /\ (forall g, contents h'' (self g) = contents h (self g))
               /\ (forall l0, is_Some (h !! l0) -> h'' !! l0 = h !! l0)).
Proof.
  intros Htyped.
  destruct (clone_fields h self Htyped) as (c & h' & Hrun & Hsub & Hfields).
  exists c, h'. split; [exact Hrun|]. split.
  - intros f. specialize (Hfields f).
    destruct (per_pass f); [now destruct Hfields|].
    rewrite Hfields. apply py_eq_refl.
  - intros f Hf. specialize (Hfields f). rewrite Hf in Hfields.
    destruct Hfields as [(l & Hcf & Hnew & [cl Hcl]) _].
    destruct (per_pass_is_reference h self f Htyped Hf) as (lo & Hlo & [co Hco]).
    assert (Hframe : forall x l0,
               is_Some (h !! l0) -> <[l := x]> h' !! l0 = h !! l0).
    { intros x l0 [c0 Hc0]. rewrite lookup_insert_ne by congruence.
      rewrite Hc0. eapply lookup_weaken; eauto. }
    exists l, lo. repeat split; [exact Hcf|exact Hlo|congruence|exact Hnew|].
    intros x. exists (<[l := x]> h'). repeat split.
    + rewrite Hcf. unfold write. now rewrite Hcl.
    + rewrite Hcf. simpl. apply lookup_insert_eq.
    + intros g. pose proof (well_typed_field h self g Htyped) as Hg.
      destruct (self g) as [| | |lg]; try reflexivity. simpl.
      eapply Hframe, typed_reference_allocated, Hg.
    + apply Hframe.
Qed.

(** The persistent collections are not copied: the clone holds the very
    references of the original, so what a task appends through either is
    there for both. *)
Lemma clone_shares_persistent h self c h' f :
  well_typed h self = true -> clone self h = Ok (c, h') ->
  persistent f = true -> c f = self f.
Proof.
  intros Htyped Hrun Hf.
  destruct (clone_fields h self Htyped) as (c' & h'' & Hrun' & _ & Hfields).
  rewrite Hrun in Hrun'. injection Hrun' as <- <-.
  specialize (Hfields f). destruct f; try discriminate Hf; exact Hfields.
Qed.

Example well_typed_demo : well_typed demo_heap demo_state = true.
Proof. vm_compute. reflexivity. Qed.

(** Appending to the clone's [enemy_air_defenses] leaves the original's
    list; appending to its [threatening_air_defenses] appends to the
    original's, which is the same list. *)
Example append_through_clone_copied :
  demo_append_through_clone enemy_air_defenses
  = Ok (Some (CList [VObj 31; VObj 32]),
        Some (CList [VObj 31; VObj 32; VObj 33])).
Proof. vm_compute. reflexivity. Qed.

Example append_through_clone_shared :
  demo_append_through_clone threatening_air_defenses
  = Ok (Some (CList [VObj 31; VObj 33]), Some (CList [VObj 31; VObj 33])).
Proof. vm_compute. reflexivity. Qed.

(** The clone's [enemy_battle_positions] is a new dict of new
    [BattlePositions] instances; the lists these hold, objects 21 and 22,
    are those of the original's instances. *)
Example clone_battle_positions_demo :
  exists c h' l,
    clone demo_state demo_heap = Ok (c, h')
    /\ contents h' (c enemy_battle_positions) = Some (CDict [(50, VRef l)])
    /\ demo_heap !! l = None
    /\ h' !! l = Some (CData [VRef 21; VRef 22]).
Proof.
  eexists _, _, _. split; [vm_compute; reflexivity|].
  vm_compute. repeat split.
Qed.

Lemma clone_is_shallow_copy_witness :
  exists c h',
    clone demo_state demo_heap = Ok (c, h')
    /\ (forall f, py_equal h' (c f) (demo_state f) = true)
    /\ (forall f, per_pass f = true ->
        exists l lo,
          c f = VRef l /\ demo_state f = VRef lo /\ l <> lo
          /\ demo_heap !! l = None
          /\ forall x, exists h'',
               write (c f) x h' = Ok (tt, h'')
               /\ contents h'' (c f) = Some x
               /\ (forall g, contents h'' (demo_state g)
                             = contents demo_heap (demo_state g))
               /\ (forall l0, is_Some (demo_heap !! l0) ->
                              h'' !! l0 = demo_heap !! l0)).
Proof.
  apply (clone_is_shallow_copy demo_heap demo_state).
  vm_compute. reflexivity.
Defined.

End TheaterFacts.

(** * Facts about packages (package.py) *)

Module PkgFacts.
Import Pkg.

Lemma pkg_bind_ok {A B : Type} (m : M A) (k : A -> M B) w a w' :
  m w = (w', Ok a) -> (x ← m; k x) w = k a w'.
Proof. intros Hm. unfold mbind, M_bind. now rewrite Hm. Qed.

Lemma pkg_bind_raise {A B : Type} (m : M A) (k : A -> M B) w e w' :
  m w = (w', Raise e) -> (x ← m; k x) w = (w', Raise e).
Proof. intros Hm. unfold mbind, M_bind. now rewrite Hm. Qed.

Lemma pkg_bind_run {A B : Type} (m : M A) (k : A -> M B) w :
  (x ← m; k x) w
  = match m w with
    | (w', Ok a) => k a w'
    | (w', Raise e) => (w', Raise e)
    end.
Proof. reflexivity. Qed.

Lemma get_package_ok w p o :
  packages w !! p = Some o -> get_package p w = (w, Ok o).
Proof. intros Hp. unfold get_package. now rewrite Hp. Qed.

Lemma get_flight_ok w f fl :
  flight_objects w !! f = Some fl -> get_flight f w = (w, Ok fl).
Proof. intros Hf. unfold get_flight. now rewrite Hf. Qed.

Lemma get_flights_ok w fs fls :
  Forall2 (fun f fl => flight_objects w !! f = Some fl) fs fls ->
  get_flights fs w = (w, Ok fls).
Proof.
  induction 1 as [|f fl fs fls Hf _ IH]; [reflexivity|].
  cbn [get_flights]. rewrite (pkg_bind_ok _ _ _ _ _ (get_flight_ok _ _ _ Hf)).
  rewrite (pkg_bind_ok _ _ _ _ _ IH). reflexivity.
Qed.

(** *** [primary_task] *)

Lemma flight_counts_spec fls counts t :
  fold_left count_flight fls counts t
  = (counts t + length (filter (fun fl => flight_type fl = t) fls))%nat.
Proof.
  revert counts. induction fls as [|fl fls IH]; intros counts; simpl.
  - lia.
  - rewrite IH. unfold count_flight at 1. rewrite filter_cons.
    case_bool_decide as Ht; destruct (decide (flight_type fl = t));
      simpl; try lia; congruence.
Qed.

Lemma flight_counted fls t :
  fold_left count_flight fls (fun _ => 0%nat) t <> 0%nat
  <-> exists fl, fl ∈ fls /\ flight_type fl = t.
Proof.
  rewrite flight_counts_spec. simpl. split.
  - intros Hlen.
    destruct (filter (fun fl => flight_type fl = t) fls) as [|fl rest] eqn:E;
      [easy|].
    assert (Hfl : fl ∈ filter (fun fl => flight_type fl = t) fls)
      by (rewrite E; now left).
    apply list_elem_of_filter in Hfl as [Ht Hin]. now exists fl.
  - intros (fl & Hin & Ht) Hlen.
    assert (Hfl : fl ∈ filter (fun fl => flight_type fl = t) fls)
      by now apply list_elem_of_filter.
    destruct (filter (fun fl => flight_type fl = t) fls); [|easy].
    now apply not_elem_of_nil in Hfl.
Qed.

Lemma first_counted_some counts tasks task :
  first_counted counts tasks = Some task <->
  exists pre post,
    tasks = pre ++ task :: post
    /\ counts task <> 0%nat
    /\ Forall (fun t => counts t = 0%nat) pre.
Proof.
  induction tasks as [|t tasks IH]; simpl.
  - split; [easy|]. intros (pre & post & Heq & _). now destruct pre.
  - destruct (counts t =? 0)%nat eqn:E; simpl.
    + apply Nat.eqb_eq in E. rewrite IH. split.
      * intros (pre & post & -> & Hc & Hpre).
        exists (t :: pre), post. repeat split; [exact Hc|now constructor].
      * intros (pre & post & Heq & Hc & Hpre).
        destruct pre as [|t' pre]; simpl in Heq; injection Heq as -> ->;
          [congruence|].
        apply Forall_cons in Hpre as [_ Hpre]. now exists pre, post.
    + apply Nat.eqb_neq in E. split.
      * intros [= ->]. exists [], tasks. repeat split; [exact E|constructor].
      * intros (pre & post & Heq & Hc & Hpre).
        destruct pre as [|t' pre]; simpl in Heq; injection Heq as -> ->;
          [reflexivity|].
        apply Forall_cons in Hpre as [Ht _]. congruence.
Qed.

Lemma first_counted_none counts tasks :
  first_counted counts tasks = None <->
  Forall (fun t => counts t = 0%nat) tasks.
Proof.
  induction tasks as [|t tasks IH]; simpl; [easy|].
  destruct (counts t =? 0)%nat eqn:E; simpl.
  - apply Nat.eqb_eq in E. rewrite IH, Forall_cons. tauto.
  - apply Nat.eqb_neq in E. rewrite Forall_cons. split; [easy|tauto].
Qed.

Lemma primary_task_run w self o fls :
  packages w !! self = Some o ->
  Forall2 (fun f fl => flight_objects w !! f = Some fl) (flights o) fls ->
  primary_task self w
  = (w, Ok match fls with
           | [] => None
           | first :: _ =>
               match first_counted
                       (fold_left count_flight fls (fun _ => 0%nat))
                       tasks_by_priority with
               | Some task => Some task
               | None => Some (flight_type first)
               end
           end).
Proof.
  intros Hself Hfls. unfold primary_task.
  rewrite (pkg_bind_ok _ _ _ _ _ (get_package_ok _ _ _ Hself)).
  rewrite (pkg_bind_ok _ _ _ _ _ (get_flights_ok _ _ _ Hfls)).
  destruct fls as [|first rest]; [reflexivity|].
  now destruct (first_counted _ _).
Qed.

(** C9. [primary_task] returns [None] if and only if the package has no
    flights.  Otherwise it returns the type of a flight of the package: the
    first type in the order CAS, STRIKE, ANTISHIP, OCA_AIRCRAFT, OCA_RUNWAY,
    BAI, DEAD, TRANSPORT, AIR_ASSAULT, ARMED_RECON, SEAD, SEAD_SWEEP,
    TARCAP, BARCAP, AEWC, FERRY, RECOVERY, REFUELING, SWEEP, SEAD_ESCORT,
    ESCORT that some flight of the package has, and, when no flight has one
    of these types, the type of the first flight. *)
Theorem primary_task_by_priority w self o fls :
  packages w !! self = Some o ->
  Forall2 (fun f fl => flight_objects w !! f = Some fl) (flights o) fls ->
  exists task,
    primary_task self w = (w, Ok task)
    /\ (task = None <-> flights o = [])
    /\ (forall t, task = Some t -> exists fl, fl ∈ fls /\ flight_type fl = t)
    /\ (forall pre t post,
          [ CAS; STRIKE; ANTISHIP; OCA_AIRCRAFT; OCA_RUNWAY; BAI; DEAD;
            TRANSPORT; AIR_ASSAULT; ARMED_RECON; SEAD; SEAD_SWEEP; TARCAP;
            BARCAP; AEWC; FERRY; RECOVERY; REFUELING; SWEEP; SEAD_ESCORT;
            ESCORT ] = pre ++ t :: post ->
          (exists fl, fl ∈ fls /\ flight_type fl = t) ->
          (forall t' fl, t' ∈ pre -> fl ∈ fls -> flight_type fl <> t') ->
          task = Some t)
    /\ (forall first rest,
          fls = first :: rest ->
          (forall t fl,
              t ∈ [ CAS; STRIKE; ANTISHIP; OCA_AIRCRAFT; OCA_RUNWAY; BAI;
                    DEAD; TRANSPORT; AIR_ASSAULT; ARMED_RECON; SEAD;
                    SEAD_SWEEP; TARCAP; BARCAP; AEWC; FERRY; RECOVERY;
                    REFUELING; SWEEP; SEAD_ESCORT; ESCORT ] ->
              fl ∈ fls -> flight_type fl <> t) ->
          task = Some (flight_type first)).
Proof.
  change [ CAS; STRIKE; ANTISHIP; OCA_AIRCRAFT; OCA_RUNWAY; BAI; DEAD;
           TRANSPORT; AIR_ASSAULT; ARMED_RECON; SEAD; SEAD_SWEEP; TARCAP;
           BARCAP; AEWC; FERRY; RECOVERY; REFUELING; SWEEP; SEAD_ESCORT;
           ESCORT ] with tasks_by_priority.
  intros Hself Hfls. rewrite (primary_task_run _ _ _ _ Hself Hfls).
  eexists. split; [reflexivity|].
  pose proof (Forall2_length _ _ _ Hfls) as Hlen.
  destruct fls as [|first rest].
  { destruct (flights o); [|discriminate Hlen].
    repeat split; try easy.
    intros pre t post _ (fl & Hin & _). now apply not_elem_of_nil in Hin. }
  set (counts := fold_left count_flight (first :: rest) (fun _ => 0%nat)).
  assert (Hzero : forall t,
             counts t = 0%nat <->
             forall fl, fl ∈ first :: rest -> flight_type fl <> t).
  { intros t. split.
    - intros Hc fl Hin Ht.
      apply (proj2 (flight_counted (first :: rest) t)); eauto.
    - intros Hnone. destruct (decide (counts t = 0%nat)) as [|Hc]; [easy|].
      apply flight_counted in Hc as (fl & Hin & Ht). now destruct (Hnone fl). }
  split; [|split; [|split]].
  - split; [now destruct (first_counted counts tasks_by_priority)|].
    intros Hnil. rewrite Hnil in Hlen. discriminate Hlen.
  - intros t Ht.
    destruct (first_counted counts tasks_by_priority) as [task|] eqn:E;
      injection Ht as <-.
    + apply first_counted_some in E as (pre & post & _ & Hc & _).
      now apply flight_counted in Hc.
    + exists first. split; [now left|reflexivity].
  - intros pre t post Heq Hsome Hpre.
    assert (E : first_counted counts tasks_by_priority = Some t).
    { apply first_counted_some. exists pre, post. split; [exact Heq|]. split.
      - now apply flight_counted.
      - apply Forall_forall. intros t' Hin. apply Hzero. eauto. }
    now rewrite E.
  - intros first' rest' [= <- <-] Hnone.
    assert (E : first_counted counts tasks_by_priority = None).
    { apply first_counted_none, Forall_forall. intros t Hin.
      apply Hzero. eauto. }
    now rewrite E.
Qed.

(** *** [departure_closest_to_target] *)

Lemma departs_from_spec a fls :
  departs_from a fls = true <-> exists fl, fl ∈ fls /\ departure fl = a.
Proof.
  induction fls as [|fl fls IH]; simpl.
  - split; [easy|]. intros (fl & Hin & _). now apply not_elem_of_nil in Hin.
  - case_bool_decide as Hd.
    + split; [|easy]. intros _. exists fl. split; [now left|exact Hd].
    + rewrite IH. split.
      * intros (fl' & Hin & Hfl'). exists fl'. split; [now right|exact Hfl'].
      * intros (fl' & Hin & Hfl').
        apply elem_of_cons in Hin as [->|Hin]; [congruence|eauto].
Qed.

Lemma first_departure_ok airfields fls a :
  first_departure airfields fls = Ok a <->
  exists pre post,
    airfields = pre ++ a :: post
    /\ departs_from a fls = true
    /\ Forall (fun b => departs_from b fls = false) pre.
Proof.
  induction airfields as [|b airfields IH]; simpl.
  - split; [easy|]. intros (pre & post & Heq & _). now destruct pre.
  - destruct (departs_from b fls) eqn:E.
    + split.
      * intros [= ->]. exists [], airfields. repeat split; [exact E|constructor].
      * intros (pre & post & Heq & Ha & Hpre).
        destruct pre as [|b' pre]; simpl in Heq; injection Heq as -> ->;
          [reflexivity|].
        apply Forall_cons in Hpre as [Hb _]. congruence.
    + rewrite IH. split.
      * intros (pre & post & -> & Ha & Hpre).
        exists (b :: pre), post. repeat split; [exact Ha|now constructor].
      * intros (pre & post & Heq & Ha & Hpre).
        destruct pre as [|b' pre]; simpl in Heq; injection Heq as -> ->;
          [congruence|].
        apply Forall_cons in Hpre as [_ Hpre]. now exists pre, post.
Qed.

Lemma first_departure_raises airfields fls :
  Forall (fun b => departs_from b fls = false) airfields ->
  first_departure airfields fls = Raise RuntimeError.
Proof.
  induction 1 as [|b airfields Hb _ IH]; simpl; [reflexivity|].
  now rewrite Hb.
Qed.

Lemma first_departure_finds airfields fls a :
  a ∈ airfields -> departs_from a fls = true ->
  exists a', first_departure airfields fls = Ok a'.
Proof.
  induction airfields as [|b airfields IH]; simpl; intros Hin Ha.
  - now apply not_elem_of_nil in Hin.
  - destruct (departs_from b fls) eqn:E; [eauto|].
    apply elem_of_cons in Hin as [->|Hin]; [congruence|now apply IH].
Qed.

Lemma StronglySorted_filter {A : Type} (R : A -> A -> Prop)
    (P : A -> Prop) `{forall x, Decision (P x)} (l : list A) :
  StronglySorted R l -> StronglySorted R (filter P l).
Proof.
  induction 1 as [|x l Hs IH Hall]; [constructor|].
  rewrite filter_cons. destruct (decide (P x)); [|exact IH].
  constructor; [exact IH|].
  apply Forall_forall. intros y [_ Hy]%list_elem_of_filter.
  rewrite Forall_forall in Hall. now apply Hall.
Qed.

Lemma operational_airfields_sorted `{Airfields} target :
  StronglySorted (key_le (distance_from target)) (operational_airfields target).
Proof. apply StronglySorted_filter, py_sorted_sorted. Qed.

(** C10. [departure_closest_to_target] raises [RuntimeError] for a package
    without flights, and when no operational airfield is the departure of
    a flight of the package; otherwise it returns the first operational
    airfield, in order of increasing distance to the target, that is the
    departure of some flight of the package. *)
Theorem departure_closest_to_target_first `{Airfields} w self o fls :
  packages w !! self = Some o ->
  Forall2 (fun f fl => flight_objects w !! f = Some fl) (flights o) fls ->
  (flights o = [] ->
   departure_closest_to_target self w = (w, Raise RuntimeError))
  /\ ((forall a fl,
         a ∈ operational_airfields (target o) -> fl ∈ fls ->
         departure fl <> a) ->
      departure_closest_to_target self w = (w, Raise RuntimeError))
  /\ (forall a fl,
        a ∈ operational_airfields (target o) -> fl ∈ fls ->
        departure fl = a ->
        exists a' pre post,
          departure_closest_to_target self w = (w, Ok a')
          /\ operational_airfields (target o) = pre ++ a' :: post
          /\ (exists fl', fl' ∈ fls /\ departure fl' = a')
          /\ (forall b fl', b ∈ pre -> fl' ∈ fls -> departure fl' <> b)
          /\ (forall b fl',
                b ∈ operational_airfields (target o) -> fl' ∈ fls ->
                departure fl' = b ->
                distance_from (target o) a' <= distance_from (target o) b)).
Proof.
  intros Hself Hfls.
  assert (Hrun : flights o <> [] ->
            departure_closest_to_target self w
            = (w, first_departure (operational_airfields (target o)) fls)).
  { intros Hne. unfold departure_closest_to_target.
    rewrite (pkg_bind_ok _ _ _ _ _ (get_package_ok _ _ _ Hself)).
    destruct (flights o) as [|f fs] eqn:E; [easy|].
    rewrite <- E in *.
    now rewrite (pkg_bind_ok _ _ _ _ _ (get_flights_ok _ _ _ Hfls)). }
  split; [|split].
  - intros Hnil. unfold departure_closest_to_target.
    rewrite (pkg_bind_ok _ _ _ _ _ (get_package_ok _ _ _ Hself)).
    now rewrite Hnil.
  - intros Hnone. destruct (flights o) as [|f fs] eqn:E.
    + unfold departure_closest_to_target.
      rewrite (pkg_bind_ok _ _ _ _ _ (get_package_ok _ _ _ Hself)).
      now rewrite E.
    + rewrite Hrun by easy. rewrite first_departure_raises; [reflexivity|].
      apply Forall_forall. intros b Hb.
      apply not_true_is_false. intros (fl & Hin & Hd)%departs_from_spec.
      now apply (Hnone b fl).
  - intros a fl Ha Hfl Hd.
    assert (Hne : flights o <> []).
    { intros Hnil. rewrite Hnil in Hfls. apply Forall2_nil_inv_l in Hfls.
      subst fls. now apply not_elem_of_nil in Hfl. }
    destruct (first_departure_finds (operational_airfields (target o)) fls a)
      as [a' Ha']; [exact Ha|apply departs_from_spec; eauto|].
    pose proof Ha' as (pre & post & Heq & Hdep & Hpre)%first_departure_ok.
    exists a', pre, post. rewrite Hrun by exact Hne.
    split; [now rewrite Ha'|]. split; [exact Heq|].
    split; [now apply departs_from_spec|]. split.
    + intros b fl' Hb Hfl' Hd'. rewrite Forall_forall in Hpre.
      specialize (Hpre b Hb).
      assert (departs_from b fls = true) by (apply departs_from_spec; eauto).
      congruence.
    + intros b fl' Hb Hfl' Hd'.
      pose proof (operational_airfields_sorted (target o)) as Hsorted.
      rewrite Heq in Hsorted, Hb.
      apply StronglySorted_app_1_r in Hsorted.
      apply StronglySorted_inv in Hsorted as [_ Hpost].
      apply elem_of_app in Hb as [Hb|Hb].
      * rewrite Forall_forall in Hpre. specialize (Hpre b Hb).
        assert (departs_from b fls = true) by (apply departs_from_spec; eauto).
        congruence.
      * apply elem_of_cons in Hb as [->|Hb]; [lia|].
        rewrite Forall_forall in Hpost. now apply (Hpost b).
Qed.

(** *** [set_tot_asap] *)

Lemma max_time_bounds fls :
  0 <= foldr Z.max 0 (map time_to_target fls)
  /\ Forall (fun fl => time_to_target fl <= foldr Z.max 0 (map time_to_target fls))
       fls.
Proof.
  induction fls as [|fl fls [IH0 IH]]; simpl; [split; [lia|constructor]|].
  split; [lia|]. constructor; [lia|].
  eapply List.Forall_impl; [|exact IH]. simpl. intros; lia.
Qed.

Lemma max_time_least fls bound :
  0 <= bound -> Forall (fun fl => time_to_target fl <= bound) fls ->
  foldr Z.max 0 (map time_to_target fls) <= bound.
Proof.
  intros H0. induction 1 as [|fl fls Hfl _ IH]; simpl; lia.
Qed.

Lemma max_time_attained fls :
  fls <> [] -> Forall (fun fl => 0 <= time_to_target fl) fls ->
  exists slowest,
    slowest ∈ fls
    /\ foldr Z.max 0 (map time_to_target fls) = time_to_target slowest.
Proof.
  intros Hne Hpos. induction Hpos as [|fl fls Hfl Hpos IH]; [easy|]. simpl.
  destruct fls as [|fl' fls].
  - exists fl. split; [now left|]. simpl. lia.
  - destruct IH as (slowest & Hin & Hmax); [easy|].
    destruct (Z_le_gt_dec (time_to_target slowest) (time_to_target fl)).
    + exists fl. split; [now left|]. lia.
    + exists slowest. split; [now right|]. lia.
Qed.

(** C8. [set_tot_asap] raises nothing and sets the package's time over
    target, and nothing else, to the estimate: [now] plus the transit time
    of the slowest flight plus the buffer, where a flight without a flight
    plan counts with a transit time of zero.  The estimate is feasible (no
    flight needs longer) and the earliest such time. *)
Theorem set_tot_asap_earliest `{TotEstimator} w self o fls now :
  packages w !! self = Some o ->
  Forall2 (fun f fl => flight_objects w !! f = Some fl) (flights o) fls ->
  exists w',
    set_tot_asap self now w = (w', Ok tt)
    /\ packages w'
       = <[self := set_time_over_target o (earliest_tot fls now)]> (packages w)
    /\ flight_objects w' = flight_objects w
    /\ (forall fl, fl ∈ fls -> transit_time fl = None -> time_to_target fl = 0)
    /\ now + tot_buffer <= earliest_tot fls now
    /\ (forall fl,
          fl ∈ fls -> now + time_to_target fl + tot_buffer <= earliest_tot fls now)
    /\ (forall tot,
          now + tot_buffer <= tot ->
          (forall fl, fl ∈ fls -> now + time_to_target fl + tot_buffer <= tot) ->
          earliest_tot fls now <= tot)
    /\ (fls <> [] ->
        (forall fl, fl ∈ fls -> 0 <= time_to_target fl) ->
        exists slowest,
          slowest ∈ fls
          /\ (forall fl, fl ∈ fls -> time_to_target fl <= time_to_target slowest)
          /\ earliest_tot fls now = now + time_to_target slowest + tot_buffer).
Proof.
  intros Hself Hfls. eexists. split.
  { unfold set_tot_asap.
    rewrite (pkg_bind_ok _ _ _ _ _ (get_package_ok _ _ _ Hself)).
    rewrite (pkg_bind_ok _ _ _ _ _ (get_flights_ok _ _ _ Hfls)).
    reflexivity. }
  destruct (max_time_bounds fls) as [H0 Hall]. rewrite Forall_forall in Hall.
  unfold earliest_tot. repeat split.
  - intros fl _ Hnone. unfold time_to_target. now rewrite Hnone.
  - lia.
  - intros fl Hin. specialize (Hall fl Hin). simpl in Hall. lia.
  - intros tot Hnow Hfeasible.
    pose proof (max_time_least fls (tot - now - tot_buffer)) as Hleast.
    rewrite Forall_forall in Hleast.
    assert (foldr Z.max 0 (map time_to_target fls) <= tot - now - tot_buffer).
    { apply Hleast; [lia|]. intros fl Hin. specialize (Hfeasible fl Hin). lia. }
    lia.
  - intros Hne Hpos.
    destruct (max_time_attained fls Hne) as (slowest & Hin & Hmax);
      [now apply Forall_forall|].
    exists slowest. split; [exact Hin|]. split; [|lia].
    intros fl Hfl. specialize (Hall fl Hfl). simpl in Hall. lia.
Qed.

(** *** [remove_flight] *)

Lemma database_update_ok w db update contents contents' :
  databases w !! db = Some contents -> update contents = Ok contents' ->
  database_update db update w
  = ({| packages := packages w;
        flight_objects := flight_objects w;
        databases := <[db := contents']> (databases w);
        transports := transports w;
        returned := returned w |}, Ok tt).
Proof. intros Hdb Hup. unfold database_update. now rewrite Hdb, Hup. Qed.

Lemma database_update_raises w db update contents e :
  databases w !! db = Some contents -> update contents = Raise e ->
  database_update db update w = (w, Raise e).
Proof. intros Hdb Hup. unfold database_update. now rewrite Hdb, Hup. Qed.

(** C6. [remove_flight], for a flight of the package that is registered in
    the package's database, returns without raising; it removes the given
    flight (its first occurrence) from the flights list and keeps the other
    entries in order, unregisters it, returns its pilots and aircraft,
    clears the transport of its cargo if it has cargo, and resets
    [waypoints] to [None] exactly when the list is empty afterwards; the
    package's [target], [custom_name] and [time_over_target] stay. *)
Theorem remove_flight_empties_cleanly `{Database}
    w self flight o fl contents contents' :
  packages w !! self = Some o ->
  flight ∈ flights o ->
  flight_objects w !! flight = Some fl ->
  databases w !! _db o = Some contents ->
  db_remove contents (id fl) = Ok contents' ->
  exists w' o' pre post,
    remove_flight self flight w = (w', Ok tt)
    /\ flights o = pre ++ flight :: post /\ (flight ∉ pre)
    /\ packages w' = <[self := o']> (packages w)
    /\ flights o' = pre ++ post
    /\ waypoints o'
       = match pre ++ post with [] => None | _ :: _ => waypoints o end
    /\ target o' = target o
    /\ custom_name o' = custom_name o
    /\ time_over_target o' = time_over_target o
    /\ returned w' = returned w ++ [flight]
    /\ transports w'
       = match cargo fl with
         | Some c => <[c := None]> (transports w)
         | None => transports w
         end
    /\ databases w' = <[_db o := contents']> (databases w)
    /\ flight_objects w' = flight_objects w.
Proof.
  intros Hself Hin Hfl Hdb Hrm.
  destruct (list_remove_spec flight (flights o) Hin)
    as (pre & post & Hsplit & Hpre & Hremove).
  unfold remove_flight.
  erewrite pkg_bind_ok by (apply get_package_ok; exact Hself).
  erewrite pkg_bind_ok by (unfold lift; rewrite Hremove; reflexivity).
  erewrite pkg_bind_ok by reflexivity.
  erewrite pkg_bind_ok by (apply get_flight_ok; exact Hfl).
  erewrite pkg_bind_ok by (eapply database_update_ok; [exact Hdb|exact Hrm]).
  erewrite pkg_bind_ok by reflexivity.
  assert (Hlist : flights (set_flights o (pre ++ post)) = pre ++ post)
    by reflexivity.
  destruct (cargo fl) as [c|];
    (erewrite pkg_bind_ok by reflexivity);
    (erewrite pkg_bind_ok
       by (apply get_package_ok; cbn [packages]; apply lookup_insert_eq));
    rewrite Hlist; destruct (pre ++ post) as [|f fs] eqn:Hrest.
  - eexists _, (set_waypoints (set_flights o []) None), pre, post.
    rewrite Hrest. split; [reflexivity|].
    repeat split; try reflexivity; try assumption.
    cbn. apply insert_insert_eq.
  - eexists _, (set_flights o (f :: fs)), pre, post.
    rewrite Hrest. split; [reflexivity|].
    repeat split; try reflexivity; assumption.
  - eexists _, (set_waypoints (set_flights o []) None), pre, post.
    rewrite Hrest. split; [reflexivity|].
    repeat split; try reflexivity; try assumption.
    cbn. apply insert_insert_eq.
  - eexists _, (set_flights o (f :: fs)), pre, post.
    rewrite Hrest. split; [reflexivity|].
    repeat split; try reflexivity; assumption.
Qed.

(** *** Ownership of flights *)


(** Whatever its outcome, [add_flight] has appended the flight to the list
    of [self] and touched no other package and no flight. *)
Lemma add_flight_outcome `{Database} w self flight o :
  packages w !! self = Some o ->
  packages (fst (add_flight self flight w))
  = <[self := set_flights o (flights o ++ [flight])]> (packages w)
  /\ flight_objects (fst (add_flight self flight w)) = flight_objects w.
Proof.
  intros Hself. unfold add_flight.
  erewrite pkg_bind_ok by (apply get_package_ok; exact Hself).
  erewrite pkg_bind_ok by reflexivity.
  unfold mbind, M_bind, get_flight, database_update.
  cbn [flight_objects databases packages].
  destruct (flight_objects w !! flight) as [fl|]; [|split; reflexivity].
  cbn [flight_objects databases packages].
  destruct (databases w !! _db o) as [contents|]; [|split; reflexivity].
  destruct (db_add contents (id fl) flight); split; reflexivity.
Qed.

Lemma add_flight_ok `{Database} w self flight o fl contents contents' :
  packages w !! self = Some o ->
  flight_objects w !! flight = Some fl ->
  databases w !! _db o = Some contents ->
  db_add contents (id fl) flight = Ok contents' ->
  add_flight self flight w
  = ({| packages :=
          <[self := set_flights o (flights o ++ [flight])]> (packages w);
        flight_objects := flight_objects w;
        databases := <[_db o := contents']> (databases w);
        transports := transports w;
        returned := returned w |}, Ok tt).
Proof.
  intros Hself Hfl Hdb Hadd. unfold add_flight.
  erewrite pkg_bind_ok by (apply get_package_ok; exact Hself).
  erewrite pkg_bind_ok by reflexivity.
  erewrite pkg_bind_ok by (apply get_flight_ok; exact Hfl).
  erewrite database_update_ok by (first [exact Hdb|exact Hadd]).
  reflexivity.
Qed.


(** *** [clone_package] *)

Lemma set_flights_same c : set_flights c (flights c ++ []) = c.
Proof. rewrite app_nil_r. now destruct c. Qed.

Lemma clone_flight_ok `{Database} w f fl :
  flight_objects w !! f = Some fl ->
  exists cfl,
    clone_flight f w
    = ({| packages := packages w;
          flight_objects :=
            <[fresh (dom (flight_objects w)) := cfl]> (flight_objects w);
          databases := databases w;
          transports := transports w;
          returned := returned w |}, Ok (fresh (dom (flight_objects w)))).
Proof.
  intros Hf. eexists. unfold clone_flight.
  erewrite pkg_bind_ok by (apply get_flight_ok; exact Hf). reflexivity.
Qed.

(** The loop of [clone_package], whatever its outcome: the clone's list has
    grown by flights that are new objects and refer to the clone; no other
    package and no flight that existed has changed. *)
Lemma clone_flights_outcome `{Database} clone fs : forall w c,
  packages w !! clone = Some c ->
  exists news,
    packages (fst (clone_flights clone fs w))
    = <[clone := set_flights c (flights c ++ news)]> (packages w)
    /\ flight_objects w ⊆ flight_objects (fst (clone_flights clone fs w))
    /\ Forall (fun cf =>
                 flight_objects w !! cf = None
                 /\ exists cfl,
                      flight_objects (fst (clone_flights clone fs w)) !! cf
                      = Some cfl
                      /\ package cfl = clone)
         news
    /\ (snd (clone_flights clone fs w) = Ok tt -> length news = length fs).
Proof.
  induction fs as [|f fs IH]; intros w c Hc.
  { exists []. cbn. rewrite set_flights_same, insert_id by exact Hc.
    repeat split; [reflexivity|constructor]. }
  cbn [clone_flights].
  destruct (flight_objects w !! f) as [fl|] eqn:Hf.
  2:{ erewrite pkg_bind_raise
        by (unfold clone_flight;
            erewrite pkg_bind_raise
              by (unfold get_flight; rewrite Hf; reflexivity);
            reflexivity).
      exists []. cbn. rewrite set_flights_same, insert_id by exact Hc.
      repeat split; [reflexivity|constructor|discriminate]. }
  destruct (clone_flight_ok w f fl Hf) as [cfl Hclone].
  pose proof (not_elem_of_dom_1 _ _ (is_fresh (dom (flight_objects w))))
    as Hfresh.
  set (cf := fresh (dom (flight_objects w))) in *.
  erewrite pkg_bind_ok by exact Hclone.
  erewrite pkg_bind_ok
    by (apply get_flight_ok; cbn [flight_objects]; apply lookup_insert_eq).
  erewrite pkg_bind_ok by reflexivity.
  match goal with
  | |- context [mbind _ (add_flight clone cf) ?w2] =>
      pose proof (add_flight_outcome w2 clone cf c Hc) as [Hpk Hfo];
      rewrite (pkg_bind_run (add_flight clone cf) _ w2);
      destruct (add_flight clone cf w2) as [w3 [[]|e]]
  end; cbv beta iota; cbn [fst packages flight_objects] in Hpk, Hfo;
    rewrite insert_insert_eq in Hfo.
  - assert (Hc3 : packages w3 !! clone
                  = Some (set_flights c (flights c ++ [cf])))
      by (rewrite Hpk; apply lookup_insert_eq).
    destruct (IH w3 _ Hc3) as (news & Hpk' & Hsub & Hall & Hlen).
    exists (cf :: news). split; [|split; [|split]].
    + rewrite Hpk', Hpk, insert_insert_eq. cbn [flights set_flights].
      now rewrite <- app_assoc.
    + etransitivity; [|exact Hsub]. rewrite Hfo.
      now apply insert_subseteq.
    + constructor.
      * split; [exact Hfresh|].
        exists (set_flight_package cfl clone). split; [|reflexivity].
        eapply lookup_weaken; [|exact Hsub]. rewrite Hfo.
        apply lookup_insert_eq.
      * eapply List.Forall_impl; [|exact Hall]. cbn beta.
        intros cf' [Hnew Hcfl]. split; [|exact Hcfl].
        rewrite Hfo in Hnew.
        eapply lookup_weaken_None; [exact Hnew|now apply insert_subseteq].
    + intros Hok. simpl. now rewrite Hlen.
  - exists [cf]. cbn [fst snd]. split; [exact Hpk|]. split; [|split].
    + rewrite Hfo. now apply insert_subseteq.
    + constructor; [|constructor]. split; [exact Hfresh|].
      exists (set_flight_package cfl clone).
      split; [rewrite Hfo; apply lookup_insert_eq|reflexivity].
    + discriminate.
Qed.






(** *** The example world *)




(** Flight 10 is in package 1.  Adding it to package 2 as well puts it in
    both lists, whether the database then refuses the second registration
    or takes it. *)
Example add_flight_again_strict :
  snd (@add_flight strict_database 2 10 demo_world) = Raise KeyError
  /\ flights <$> packages (fst (@add_flight strict_database 2 10 demo_world))
                   !! 1 = Some [11; 10; 12]
  /\ flights <$> packages (fst (@add_flight strict_database 2 10 demo_world))
                   !! 2 = Some [13; 10].
Proof. repeat split. Qed.

Example add_flight_again_lenient :
  snd (@add_flight lenient_database 2 10 demo_world) = Ok tt
  /\ flights <$> packages (fst (@add_flight lenient_database 2 10 demo_world))
                   !! 1 = Some [11; 10; 12]
  /\ flights <$> packages (fst (@add_flight lenient_database 2 10 demo_world))
                   !! 2 = Some [13; 10].
Proof. repeat split. Qed.



Example clone_package_demo :
  snd (@clone_package strict_database 1 demo_world) = Ok 4
  /\ flights <$> packages (fst (@clone_package strict_database 1 demo_world))
                   !! 4 = Some [14; 15; 16]
  /\ package <$> flight_objects
                    (fst (@clone_package strict_database 1 demo_world))
                    !! 15 = Some 4.
Proof. vm_compute. repeat split. Qed.

(** Removing flight 12, which carries cargo 300, from package 1, and
    removing flight 13, the only one, from package 2. *)
Example remove_flight_demo :
  let r := @remove_flight strict_database 1 12 demo_world in
  snd r = Ok tt
  /\ packages (fst r) !! 1
     = Some {| target := 500; _db := 900; frequency := None;
               custom_name := None; auto_asap := false;
               flights := [11; 10];
               time_over_target := 0; waypoints := Some 77 |}
  /\ transports (fst r) !! 300 = Some None
  /\ returned (fst r) = [12]
  /\ databases (fst r) !! 900
     = Some (list_to_map [(110, 10); (111, 11); (113, 13)]).
Proof. vm_compute. repeat split. Qed.

Example remove_last_flight_demo :
  let r := @remove_flight strict_database 2 13 demo_world in
  snd r = Ok tt
  /\ packages (fst r) !! 2
     = Some {| target := 500; _db := 900; frequency := None;
               custom_name := None; auto_asap := true;
               flights := [];
               time_over_target := 0; waypoints := None |}.
Proof. vm_compute. repeat split. Qed.

Example remove_flight_absent :
  @remove_flight strict_database 2 10 demo_world
  = (demo_world, Raise ValueError).
Proof. reflexivity. Qed.

Lemma remove_flight_empties_cleanly_witness :
  exists w' o',
    @remove_flight strict_database 2 13 demo_world = (w', Ok tt)
    /\ packages w' = <[2 := o']> (packages demo_world)
    /\ flights o' = []
    /\ waypoints o' = None
    /\ target o' = 500
    /\ custom_name o' = None
    /\ time_over_target o' = 0
    /\ returned w' = [13].
Proof.
  destruct (@remove_flight_empties_cleanly strict_database demo_world 2 13
              demo_package_2 demo_flight_13
              (list_to_map [(110, 10); (111, 11); (112, 12); (113, 13)])
              (list_to_map [(110, 10); (111, 11); (112, 12)]))
    as (w' & o' & pre & post & Hrun & Hsplit & Hpre & Hpk & Hfl & Hwp
        & Htarget & Hname & Htot & Hret & _).
  - reflexivity.
  - now left.
  - reflexivity.
  - reflexivity.
  - vm_compute. reflexivity.
  - cbn [flights] in Hsplit.
    assert (pre ++ post = []) as Hnil.
    { destruct pre as [|x pre]; [now injection Hsplit as <-|].
      injection Hsplit as -> Hsplit. now destruct pre. }
    rewrite Hnil in Hfl, Hwp.
    exists w', o'. repeat split; assumption.
Defined.

Lemma demo_package_1_flights :
  Forall2 (fun f fl => flight_objects demo_world !! f = Some fl)
    (flights demo_package_1)
    [demo_flight_11; demo_flight_10; demo_flight_12].
Proof. repeat constructor. Qed.

Example primary_task_demo :
  snd (primary_task 1 demo_world) = Ok (Some STRIKE)
  /\ snd (primary_task 2 demo_world) = Ok (Some PRETENSE_CARGO)
  /\ snd (primary_task 3 demo_world) = Ok None.
Proof. repeat split. Qed.

(** Package 1 holds an escort, a strike and a transport flight, in this
    order: STRIKE comes first in the priority order.  The only flight of
    package 2 has a type that is not in the order. *)
Lemma primary_task_by_priority_witness :
  primary_task 1 demo_world = (demo_world, Ok (Some STRIKE))
  /\ primary_task 2 demo_world = (demo_world, Ok (Some PRETENSE_CARGO)).
Proof.
  split.
  - destruct (primary_task_by_priority demo_world 1 demo_package_1 _ eq_refl
                demo_package_1_flights)
      as (task & Hrun & _ & _ & Hfirst & _).
    rewrite Hrun. f_equal. f_equal.
    apply (Hfirst [CAS] STRIKE
             [ ANTISHIP; OCA_AIRCRAFT; OCA_RUNWAY; BAI; DEAD; TRANSPORT;
               AIR_ASSAULT; ARMED_RECON; SEAD; SEAD_SWEEP; TARCAP; BARCAP;
               AEWC; FERRY; RECOVERY; REFUELING; SWEEP; SEAD_ESCORT;
               ESCORT ]).
    + reflexivity.
    + exists demo_flight_10. split; [|reflexivity]. right. now left.
    + intros t' fl Ht' Hfl. apply list_elem_of_singleton in Ht' as ->.
      repeat (apply elem_of_cons in Hfl as [->|Hfl]; [discriminate|]).
      now apply not_elem_of_nil in Hfl.
  - destruct (primary_task_by_priority demo_world 2 demo_package_2
                [demo_flight_13] eq_refl)
      as (task & Hrun & _ & _ & _ & Hother).
    + repeat constructor.
    + rewrite Hrun. f_equal. f_equal.
      apply (Hother demo_flight_13 [] eq_refl).
      intros t fl Ht Hfl. apply list_elem_of_singleton in Hfl as ->.
      repeat (apply elem_of_cons in Ht as [->|Ht]; [discriminate|]).
      now apply not_elem_of_nil in Ht.
Defined.

Example departure_closest_to_target_demo :
  snd (@departure_closest_to_target demo_airfields 1 demo_world) = Ok 202
  /\ snd (@departure_closest_to_target demo_airfields 2 demo_world)
     = Raise RuntimeError
  /\ snd (@departure_closest_to_target demo_airfields 3 demo_world)
     = Raise RuntimeError.
Proof. repeat split. Qed.

Lemma departure_closest_to_target_first_witness :
  exists a pre post,
    @departure_closest_to_target demo_airfields 1 demo_world
    = (demo_world, Ok a)
    /\ @operational_airfields demo_airfields 500 = pre ++ a :: post
    /\ (forall b fl',
          b ∈ @operational_airfields demo_airfields 500 ->
          fl' ∈ [demo_flight_11; demo_flight_10; demo_flight_12] ->
          departure fl' = b ->
          @distance_from demo_airfields 500 a
          <= @distance_from demo_airfields 500 b).
Proof.
  destruct (@departure_closest_to_target_first demo_airfields demo_world 1
              demo_package_1 _ eq_refl demo_package_1_flights)
    as (_ & _ & Hfound).
  destruct (Hfound 201 demo_flight_10)
    as (a & pre & post & Hrun & Hsplit & _ & _ & Hmin).
  - apply list_elem_of_In. vm_compute. tauto.
  - right. now left.
  - reflexivity.
  - exists a, pre, post. repeat split; assumption.
Defined.

Example set_tot_asap_demo :
  let r := @set_tot_asap demo_estimator 1 1000 demo_world in
  snd r = Ok tt
  /\ time_over_target <$> packages (fst r) !! 1 = Some 3700.
Proof. repeat split. Qed.

Lemma set_tot_asap_earliest_witness :
  exists w',
    @set_tot_asap demo_estimator 1 1000 demo_world = (w', Ok tt)
    /\ time_over_target <$> packages w' !! 1 = Some 3700
    /\ (forall fl,
          fl ∈ [demo_flight_11; demo_flight_10; demo_flight_12] ->
          1000 + time_to_target fl + 300 <= 3700).
Proof.
  destruct (@set_tot_asap_earliest demo_estimator demo_world 1 demo_package_1
              _ 1000 eq_refl demo_package_1_flights)
    as (w' & Hrun & Hpk & _ & _ & _ & Hfeasible & _).
  exists w'. split; [exact Hrun|]. split.
  - rewrite Hpk, lookup_insert_eq. reflexivity.
  - exact Hfeasible.
Defined.

End PkgFacts.

(** * More facts about the planner: what a check of the target area returns
      and leaves behind, the weighted threat range, eliminated air defenses *)

Module PlannerMoreFacts.
Import Planner PlannerFacts.

Section TargetAreaFacts.
Context `{GroundObjects}.

Lemma append_unseen_covers (xs acc : list Z) x :
  x ∈ xs \/ x ∈ acc -> x ∈ append_unseen xs acc.
Proof.
  revert acc. induction xs as [|y xs IH]; intros acc [Hx|Hx]; simpl.
  - now apply not_elem_of_nil in Hx.
  - exact Hx.
  - apply elem_of_cons in Hx as [->|Hx]; case_bool_decide as Hy;
      apply IH; auto.
    right. apply elem_of_app. right. now left.
  - case_bool_decide; apply IH; right; [exact Hx|].
    apply elem_of_app. now left.
Qed.

Lemma append_unseen_absorb (xs acc : list Z) :
  (forall x, x ∈ xs -> x ∈ acc) -> append_unseen xs acc = acc.
Proof.
  induction xs as [|y xs IH]; intros Hall; simpl; [reflexivity|].
  rewrite bool_decide_eq_true_2 by (apply Hall; now left).
  apply IH. intros x Hx. apply Hall. now right.
Qed.

Lemma threat_loop_threatened self state threats threatened acc :
  fst (threat_loop self state threats threatened acc)
  = threatened
    || existsb
         (fun t =>
            float_lt (_get_weighted_threat_range self t state)
              (float_of_int 0))
         threats.
Proof.
  revert threatened acc.
  induction threats as [|t threats IH]; intros threatened acc;
    cbn [threat_loop existsb fst].
  - now rewrite orb_false_r.
  - rewrite IH.
    destruct (float_lt (_get_weighted_threat_range self t state)
                (float_of_int 0));
      destruct threatened; reflexivity.
Qed.

Lemma append_unseen_added (xs acc : list Z) :
  exists added,
    append_unseen xs acc = acc ++ added
    /\ forall x, x ∈ added <-> x ∈ xs /\ (x ∉ acc).
Proof.
  revert acc. induction xs as [|y xs IH]; intros acc; simpl.
  - exists []. split; [now rewrite app_nil_r|].
    intros x. split; [intros Hx|intros [Hx _]];
      now apply not_elem_of_nil in Hx.
  - case_bool_decide as Hy.
    + destruct (IH acc) as (added & -> & Hadded). exists added.
      split; [reflexivity|]. intros x. rewrite Hadded, elem_of_cons.
      split; [tauto|]. intros [[->|Hx] Hacc]; [contradiction|tauto].
    + destruct (IH (acc ++ [y])) as (added & -> & Hadded). exists (y :: added).
      split; [now rewrite <- app_assoc|].
      intros x. rewrite !elem_of_cons, Hadded, elem_of_app.
      rewrite list_elem_of_singleton.
      destruct (decide (x = y)) as [->|Hne]; [tauto|]. tauto.
Qed.

Lemma iter_detecting_iads_returns self state :
  exists detectors, iter_detecting_iads self state = Ok detectors.
Proof. eexists. apply iter_iads_ranges_member. Qed.

Lemma iter_iads_threats_returns self state :
  exists threats, iter_iads_threats self state = Ok threats.
Proof. eexists. apply iter_iads_ranges_member. Qed.

(** The whole call, in terms of what the two generators yield. *)
Lemma target_area_preconditions_met_run self state ignore_iads
    detectors threats :
  iter_detecting_iads self state = Ok detectors ->
  iter_iads_threats self state = Ok threats ->
  target_area_preconditions_met self state ignore_iads
  = if ignore_iads then
      (set_detecting state
         (append_unseen detectors (detecting_air_defenses state)), Ok true)
    else
      (set_threatening
         (set_detecting state
            (append_unseen detectors (detecting_air_defenses state)))
         (append_unseen threats (threatening_air_defenses state)),
       Ok (negb
             (existsb
                (fun t =>
                   float_lt (_get_weighted_threat_range self t state)
                     (float_of_int 0))
                threats))).
Proof.
  intros Hdet Hthr. unfold target_area_preconditions_met.
  rewrite Hdet. destruct ignore_iads; cbn [negb]; [reflexivity|].
  change (iter_iads_threats self
            (set_detecting state
               (append_unseen detectors (detecting_air_defenses state))))
    with (iter_iads_threats self state).
  rewrite Hthr.
  match goal with
  | |- context [threat_loop ?a ?b ?c ?d ?e] =>
      pose proof (threat_loop_threatening a b c d e) as Hlist;
      pose proof (threat_loop_threatened a b c d e) as Hflag;
      destruct (threat_loop a b c d e) as [threatened threatening]
  end.
  cbn [fst snd] in Hlist, Hflag. subst. reflexivity.
Qed.

(** X1. [target_area_preconditions_met] returns [True] exactly when it is
    told to ignore the IADS or, for every object that [iter_iads_threats]
    yields, the comparison [weighted < meters(0)] of the float that
    [_get_weighted_threat_range] computes is false. *)
Theorem target_area_clear_iff self state ignore_iads :
  exists threats clear,
    iter_iads_threats self state = Ok threats
    /\ snd (target_area_preconditions_met self state ignore_iads) = Ok clear
    /\ (clear = true <->
        ignore_iads = true
        \/ Forall
             (fun t =>
                float_lt (_get_weighted_threat_range self t state)
                  (float_of_int 0) = false)
             threats).
Proof.
  destruct (iter_detecting_iads_returns self state) as [detectors Hdet].
  destruct (iter_iads_threats_returns self state) as [threats Hthr].
  rewrite (target_area_preconditions_met_run _ _ _ _ _ Hdet Hthr).
  exists threats. destruct ignore_iads; cbn [snd].
  - exists true. repeat split; auto.
  - eexists. split; [exact Hthr|]. split; [reflexivity|].
    rewrite negb_true_iff, <- not_true_iff_false, existsb_exists, Forall_forall.
    split.
    + intros Hnone. right. intros t Ht.
      apply not_true_iff_false. intros Hneg.
      destruct Hnone. exists t. split; [now apply list_elem_of_In|exact Hneg].
    + intros [Hignore|Hall] (t & Ht & Hneg); [discriminate|].
      apply list_elem_of_In in Ht. apply Hall in Ht.
      now rewrite Ht in Hneg.
Qed.

(** X2. The call only appends: the state keeps its context and its enemy
    lists; [detecting_air_defenses] grows at its end by the detectors it
    did not hold, [threatening_air_defenses] by the threats it did not
    hold, and by nothing when the IADS is ignored. *)
Theorem target_area_preconditions_met_appends self state ignore_iads :
  exists detectors threats new_detecting new_threatening,
    iter_detecting_iads self state = Ok detectors
    /\ iter_iads_threats self state = Ok threats
    /\ context (fst (target_area_preconditions_met self state ignore_iads))
       = context state
    /\ enemy_air_defenses
         (fst (target_area_preconditions_met self state ignore_iads))
       = enemy_air_defenses state
    /\ enemy_ships (fst (target_area_preconditions_met self state ignore_iads))
       = enemy_ships state
    /\ detecting_air_defenses
         (fst (target_area_preconditions_met self state ignore_iads))
       = detecting_air_defenses state ++ new_detecting
    /\ (forall x, x ∈ new_detecting <->
                  x ∈ detectors /\ (x ∉ detecting_air_defenses state))
    /\ threatening_air_defenses
         (fst (target_area_preconditions_met self state ignore_iads))
       = threatening_air_defenses state ++ new_threatening
    /\ (forall x, x ∈ new_threatening <->
                  ignore_iads = false /\ x ∈ threats
                  /\ (x ∉ threatening_air_defenses state)).
Proof.
  destruct (iter_detecting_iads_returns self state) as [detectors Hdet].
  destruct (iter_iads_threats_returns self state) as [threats Hthr].
  rewrite (target_area_preconditions_met_run _ _ _ _ _ Hdet Hthr).
  destruct (append_unseen_added detectors (detecting_air_defenses state))
    as (new_detecting & Hd & Hnd).
  destruct (append_unseen_added threats (threatening_air_defenses state))
    as (new_threatening & Ht & Hnt).
  destruct ignore_iads; cbn [fst].
  - exists detectors, threats, new_detecting, [].
    split; [exact Hdet|]. split; [exact Hthr|].
    do 3 (split; [reflexivity|]). split; [exact Hd|]. split; [exact Hnd|].
    split; [cbn; now rewrite app_nil_r|].
    intros x. split; [intros Hx; now apply not_elem_of_nil in Hx|].
    intros (Hfalse & _). discriminate.
  - exists detectors, threats, new_detecting, new_threatening.
    split; [exact Hdet|]. split; [exact Hthr|].
    do 3 (split; [reflexivity|]). split; [exact Hd|]. split; [exact Hnd|].
    split; [exact Ht|].
    intros x. rewrite Hnt. tauto.
Qed.

(** X3. A second check of the same target area changes nothing more and
    returns what the first returned. *)
Theorem target_area_preconditions_met_idempotent self state ignore_iads :
  target_area_preconditions_met self
    (fst (target_area_preconditions_met self state ignore_iads)) ignore_iads
  = target_area_preconditions_met self state ignore_iads.
Proof.
  destruct (iter_detecting_iads_returns self state) as [detectors Hdet].
  destruct (iter_iads_threats_returns self state) as [threats Hthr].
  rewrite (target_area_preconditions_met_run _ state _ _ _ Hdet Hthr).
  destruct ignore_iads; cbn [fst].
  - rewrite (target_area_preconditions_met_run _ _ _ detectors threats)
      by assumption.
    cbn [detecting_air_defenses set_detecting].
    rewrite (append_unseen_absorb detectors (append_unseen detectors _));
      [reflexivity|].
    intros x Hx. apply append_unseen_covers. now left.
  - rewrite (target_area_preconditions_met_run _ _ _ detectors threats)
      by assumption.
    cbn [detecting_air_defenses threatening_air_defenses set_detecting
           set_threatening].
    rewrite (append_unseen_absorb detectors (append_unseen detectors _)),
      (append_unseen_absorb threats (append_unseen threats _));
      [reflexivity| |];
      intros x Hx; apply append_unseen_covers; now left.
Qed.

(** *** The weighted threat range *)

(** The float of an int that is not negative is not below zero. *)
Lemma binary_round_aux_not_negative prec emax mx ex lx s :
  SpecFloat.SFltb (SpecFloat.binary_round_aux prec emax false mx ex lx)
    (SpecFloat.S754_zero s) = false.
Proof.
  unfold SpecFloat.binary_round_aux.
  destruct (SpecFloat.shr_fexp prec emax mx ex lx) as [mrs' e'].
  destruct (SpecFloat.shr_fexp prec emax _ e' SpecFloat.loc_Exact)
    as [mrs'' e''].
  destruct (SpecFloat.shr_m mrs''); [reflexivity| |reflexivity].
  destruct (e'' <=? emax - prec); reflexivity.
Qed.

Lemma float_of_int_not_negative d :
  0 <= d -> float_lt (float_of_int d) (float_of_int 0) = false.
Proof.
  intros Hd.
  unfold float_of_int, float_lt, SpecFloat.binary_normalize.
  destruct d as [|m|m]; [reflexivity| |lia].
  unfold SpecFloat.binary_round.
  destruct (SpecFloat.shl_align _ _ _) as [mz ez].
  apply binary_round_aux_not_negative.
Qed.

(** A product with zero is a zero, or not a number. *)
Lemma float_mul_zero_r x s :
  float_mul x (SpecFloat.S754_zero s) = SpecFloat.S754_nan
  \/ exists s', float_mul x (SpecFloat.S754_zero s) = SpecFloat.S754_zero s'.
Proof. destruct x; cbn; eauto. Qed.

(** Subtracting a zero leaves a number that is not below zero so. *)
Lemma float_sub_zero_r x s :
  float_lt x (float_of_int 0) = false ->
  float_lt (float_sub x (SpecFloat.S754_zero s)) (float_of_int 0) = false.
Proof.
  destruct x as [sx|sx| |sx m e]; cbn; intros Hx;
    try assumption; try reflexivity.
  destruct sx, s; reflexivity.
Qed.

(** With a margin of zero the weighted threat range of an object that is
    not at a negative distance is not below zero. *)
Lemma weighted_threat_range_margin_zero self t state :
  (if coalition_player (context state)
   then ownfor_autoplanner_aggressiveness (settings (context state))
   else opfor_autoplanner_aggressiveness (settings (context state))) = 100 ->
  0 <= distance_to t (target self) ->
  float_lt (_get_weighted_threat_range self t state) (float_of_int 0) = false.
Proof.
  intros Haggr Hdist. unfold _get_weighted_threat_range. rewrite Haggr.
  change (int_truediv (100 - 100) 100) with (SpecFloat.S754_zero false).
  destruct (float_mul_zero_r (float_of_int (max_threat_range t)) false)
    as [->|[s' ->]];
    unfold corrective_factor_for_type; destruct (task_of t);
    try (destruct (float_of_int (distance_to t (target self))); reflexivity);
    apply float_sub_zero_r, float_of_int_not_negative, Hdist.
Qed.

Lemma iter_iads_ranges_elem self state rt threats t :
  iter_iads_ranges self state (Member rt) = Ok threats ->
  t ∈ threats <->
  t ∈ enemy_air_defenses state ++ enemy_ships state
  /\ covers_target self rt t = true.
Proof.
  rewrite iter_iads_ranges_member. intros [= <-].
  rewrite <- (py_sorted_perm snd), map_fst_paired, list_elem_of_filter. tauto.
Qed.

(** X5. At an aggressiveness of 100 the margin is zero and the weighted
    threat range is the distance itself: with distances that are not
    negative the target area always counts as clear. *)
Theorem full_aggressiveness_clears self state :
  (if coalition_player (context state)
   then ownfor_autoplanner_aggressiveness (settings (context state))
   else opfor_autoplanner_aggressiveness (settings (context state))) = 100 ->
  (forall t, t ∈ enemy_air_defenses state ++ enemy_ships state ->
             0 <= distance_to t (target self)) ->
  snd (target_area_preconditions_met self state false) = Ok true.
Proof.
  intros Haggr Hdist.
  destruct (iter_detecting_iads_returns self state) as [detectors Hdet].
  destruct (iter_iads_threats_returns self state) as [threats Hthr].
  rewrite (target_area_preconditions_met_run _ _ _ _ _ Hdet Hthr). cbn [snd].
  f_equal. apply negb_true_iff, not_true_iff_false.
  intros (t & Ht & Hneg)%existsb_exists.
  apply list_elem_of_In in Ht.
  apply (iter_iads_ranges_elem _ _ _ _ _ Hthr) in Ht as [Ht _].
  specialize (Hdist t Ht).
  rewrite (weighted_threat_range_margin_zero self t state Haggr Hdist) in Hneg.
  discriminate.
Qed.

End TargetAreaFacts.

(** *** Sorting and filtering commute *)

Section SortedFilter.
Context {A : Type} (key : A -> Z) (P : A -> Prop) `{forall x, Decision (P x)}.

Lemma insert_by_key_first x l :
  Forall (fun y => key x <= key y) l -> insert_by_key key x l = x :: l.
Proof.
  destruct 1 as [|y l Hy _]; simpl; [reflexivity|].
  now rewrite (proj2 (Z.leb_le _ _) Hy).
Qed.

Lemma filter_insert_by_key_out x l :
  ~ P x -> filter P (insert_by_key key x l) = filter P l.
Proof.
  intros Hx. induction l as [|y l IH]; simpl.
  - now rewrite filter_cons_False.
  - destruct (key x <=? key y).
    + now rewrite (filter_cons_False P x) by exact Hx.
    + rewrite !filter_cons, IH. reflexivity.
Qed.

Lemma filter_insert_by_key_in x l :
  StronglySorted (key_le key) l -> P x ->
  filter P (insert_by_key key x l) = insert_by_key key x (filter P l).
Proof.
  intros Hs Hx. induction Hs as [|y l Hs IH Hall]; simpl.
  - now rewrite filter_cons_True.
  - destruct (key x <=? key y) eqn:E.
    + apply Z.leb_le in E. rewrite (filter_cons_True P x) by exact Hx.
      symmetry. apply insert_by_key_first.
      apply Forall_forall. intros z [_ Hz]%list_elem_of_filter.
      apply elem_of_cons in Hz as [->|Hz]; [exact E|].
      rewrite Forall_forall in Hall. specialize (Hall z Hz).
      unfold key_le in Hall. lia.
    + rewrite !filter_cons. destruct (decide (P y)); simpl.
      * now rewrite E, IH.
      * exact IH.
Qed.

Lemma py_sorted_filter l :
  py_sorted key (filter P l) = filter P (py_sorted key l).
Proof.
  induction l as [|x l IH]; [reflexivity|].
  rewrite filter_cons. cbn [py_sorted foldr].
  fold (py_sorted key l). destruct (decide (P x)) as [Hx|Hx].
  - cbn [py_sorted foldr]. fold (py_sorted key (filter P l)).
    rewrite IH. symmetry.
    apply filter_insert_by_key_in; [apply py_sorted_sorted|exact Hx].
  - rewrite IH. symmetry. now apply filter_insert_by_key_out.
Qed.
End SortedFilter.

(** *** Eliminating an air defense *)

Lemma filter_ne_absent (x : Z) (l : list Z) :
  x ∉ l -> filter (fun y => y <> x) l = l.
Proof.
  induction l as [|y l IH]; intros Hx; [reflexivity|].
  apply not_elem_of_cons in Hx as [Hne Hx].
  rewrite filter_cons_True by congruence. now rewrite IH.
Qed.

Lemma list_remove_filter (x : Z) (l : list Z) :
  NoDup l -> x ∈ l -> list_remove x l = Ok (filter (fun y => y <> x) l).
Proof.
  induction 1 as [|y l Hy Hnd IH]; intros Hx.
  - now apply not_elem_of_nil in Hx.
  - simpl. case_bool_decide as E.
    + subst y. rewrite filter_cons_False by tauto.
      now rewrite filter_ne_absent.
    + apply elem_of_cons in Hx as [->|Hx]; [congruence|].
      rewrite IH by exact Hx. now rewrite filter_cons_True.
Qed.

Lemma remove_if_present_spec (x : Z) (l : list Z) :
  sublist (remove_if_present x l) l
  /\ (forall y, y <> x -> y ∈ remove_if_present x l <-> y ∈ l)
  /\ (NoDup l -> x ∉ remove_if_present x l)
  /\ length (remove_if_present x l)
     = (length l - if bool_decide (x ∈ l) then 1 else 0)%nat.
Proof.
  unfold remove_if_present. case_bool_decide as Hx.
  - destruct (list_remove_spec x l Hx) as (pre & post & -> & Hpre & ->).
    split; [|split; [|split]].
    + apply sublist_app; [reflexivity|]. now apply sublist_cons.
    + intros y Hy. rewrite !elem_of_app, elem_of_cons. tauto.
    + intros Hnd Hin. apply NoDup_app in Hnd as (_ & Hdisj & Hpost).
      apply NoDup_cons in Hpost as [Hpost _].
      apply elem_of_app in Hin as [Hin|Hin]; [contradiction|contradiction].
    + rewrite !length_app. simpl. lia.
  - split; [reflexivity|]. split; [tauto|]. split; [tauto|]. lia.
Qed.

(** X6. [eliminate_air_defense] of an object that is in
    [enemy_air_defenses] returns; the first occurrence of the object is
    gone from that list and the rest keeps its order; [enemy_ships] and the
    context stay; the two persistent lists keep every other entry, and no
    longer hold the object if they held it at most once. *)
Theorem eliminate_air_defense_removes state tgo :
  tgo ∈ enemy_air_defenses state ->
  exists state' pre post,
    eliminate_air_defense state tgo = (state', Ok tt)
    /\ enemy_air_defenses state = pre ++ tgo :: post /\ (tgo ∉ pre)
    /\ enemy_air_defenses state' = pre ++ post
    /\ enemy_ships state' = enemy_ships state
    /\ context state' = context state
    /\ (forall x, x <> tgo ->
          (x ∈ threatening_air_defenses state'
           <-> x ∈ threatening_air_defenses state)
          /\ (x ∈ detecting_air_defenses state'
              <-> x ∈ detecting_air_defenses state))
    /\ (NoDup (threatening_air_defenses state) ->
        tgo ∉ threatening_air_defenses state')
    /\ (NoDup (detecting_air_defenses state) ->
        tgo ∉ detecting_air_defenses state').
Proof.
  intros Hin.
  destruct (list_remove_spec tgo _ Hin) as (pre & post & Hsplit & Hpre & Hrm).
  unfold eliminate_air_defense. cbn [enemy_air_defenses]. rewrite Hrm.
  eexists _, pre, post. split; [reflexivity|].
  cbn [enemy_air_defenses enemy_ships context threatening_air_defenses
         detecting_air_defenses].
  destruct (remove_if_present_spec tgo (threatening_air_defenses state))
    as (_ & Ht & Htn & _).
  destruct (remove_if_present_spec tgo (detecting_air_defenses state))
    as (_ & Hd & Hdn & _).
  do 5 (split; [first [reflexivity|assumption]|]).
  split; [|split; assumption].
  intros x Hx. split; [now apply Ht|now apply Hd].
Qed.

(** X7. [eliminate_air_defense] of an object that is not in
    [enemy_air_defenses], and [eliminate_ship] of one that is not in
    [enemy_ships], raise [ValueError], but only after the object has been
    taken out of the two persistent lists: an object that was in
    [threatening_air_defenses] is no longer counted there. *)
Theorem eliminate_absent_purges state tgo :
  (tgo ∉ enemy_air_defenses state ->
   snd (eliminate_air_defense state tgo) = Raise ValueError
   /\ enemy_air_defenses (fst (eliminate_air_defense state tgo))
      = enemy_air_defenses state
   /\ length (threatening_air_defenses (fst (eliminate_air_defense state tgo)))
      = (length (threatening_air_defenses state)
         - if bool_decide (tgo ∈ threatening_air_defenses state)
           then 1 else 0)%nat
   /\ length (detecting_air_defenses (fst (eliminate_air_defense state tgo)))
      = (length (detecting_air_defenses state)
         - if bool_decide (tgo ∈ detecting_air_defenses state)
           then 1 else 0)%nat)
  /\ (tgo ∉ enemy_ships state ->
      snd (eliminate_ship state tgo) = Raise ValueError
      /\ enemy_ships (fst (eliminate_ship state tgo)) = enemy_ships state
      /\ length (threatening_air_defenses (fst (eliminate_ship state tgo)))
         = (length (threatening_air_defenses state)
            - if bool_decide (tgo ∈ threatening_air_defenses state)
              then 1 else 0)%nat
      /\ length (detecting_air_defenses (fst (eliminate_ship state tgo)))
         = (length (detecting_air_defenses state)
            - if bool_decide (tgo ∈ detecting_air_defenses state)
              then 1 else 0)%nat).
Proof.
  destruct (remove_if_present_spec tgo (threatening_air_defenses state))
    as (_ & _ & _ & Ht).
  destruct (remove_if_present_spec tgo (detecting_air_defenses state))
    as (_ & _ & _ & Hd).
  split; intros Habsent.
  - unfold eliminate_air_defense. cbn [enemy_air_defenses].
    rewrite (list_remove_raises _ _ Habsent). cbn. auto.
  - unfold eliminate_ship. cbn [enemy_ships].
    rewrite (list_remove_raises _ _ Habsent). cbn. auto.
Qed.

Section EliminatedFacts.
Context `{GroundObjects}.

(** [iter_iads_ranges] on a state whose enemy lists are those of another
    state without one object. *)
Lemma iter_iads_ranges_without self state state' rt tgo :
  enemy_air_defenses state' ++ enemy_ships state'
  = filter (fun t => t <> tgo) (enemy_air_defenses state ++ enemy_ships state) ->
  iter_iads_ranges self state' (Member rt)
  = (threats ← iter_iads_ranges self state (Member rt);
     Ok (filter (fun t => t <> tgo) threats)).
Proof.
  intros Hlists. rewrite !iter_iads_ranges_member. cbn. f_equal.
  rewrite Hlists.
  set (all_iads := enemy_air_defenses state ++ enemy_ships state).
  set (paired := fun t : Z => (t, distance_to_threat self rt t)).
  set (covers := fun t : Z => covers_target self rt t = true).
  assert (Hpairs : forall l : list Z,
             map paired (filter (fun t => t <> tgo) l)
             = filter (fun p => fst p <> tgo) (map paired l)).
  { induction l as [|t l IH]; [reflexivity|].
    cbn [map]. rewrite !filter_cons. cbn [fst paired].
    destruct (decide (t <> tgo)); cbn [map]; now rewrite IH. }
  assert (Hfst : forall l : list (Z * Z),
             map fst (filter (fun p => fst p <> tgo) l)
             = filter (fun t => t <> tgo) (map fst l)).
  { induction l as [|p l IH]; [reflexivity|].
    cbn [map]. rewrite !filter_cons.
    destruct (decide (fst p <> tgo)); cbn [map]; now rewrite IH. }
  assert (Hcomm : forall l : list Z,
             filter covers (filter (fun t => t <> tgo) l)
             = filter (fun t => t <> tgo) (filter covers l)).
  { induction l as [|t l IH]; [reflexivity|].
    rewrite !filter_cons.
    destruct (decide (t <> tgo)), (decide (covers t));
      rewrite ?filter_cons; repeat case_decide; try tauto; now rewrite IH. }
  fold covers. rewrite Hcomm. fold paired. rewrite Hpairs.
  rewrite (py_sorted_filter snd (fun p : Z * Z => fst p <> tgo)).
  apply Hfst.
Qed.

(** X8. Once an air defense is eliminated, [iter_iads_ranges] yields what
    it yielded before without that object, in the same order. *)
Theorem eliminated_air_defense_not_yielded self state rt tgo threats :
  NoDup (enemy_air_defenses state ++ enemy_ships state) ->
  tgo ∈ enemy_air_defenses state ->
  iter_iads_ranges self state (Member rt) = Ok threats ->
  snd (eliminate_air_defense state tgo) = Ok tt
  /\ iter_iads_ranges self (fst (eliminate_air_defense state tgo)) (Member rt)
     = Ok (filter (fun t => t <> tgo) threats).
Proof.
  intros Hnd Hin Hthreats.
  apply NoDup_app in Hnd as (Hnd & Hdisj & _).
  assert (Hrun : eliminate_air_defense state tgo
                 = ({| context := context state;
                       enemy_air_defenses :=
                         filter (fun t => t <> tgo) (enemy_air_defenses state);
                       threatening_air_defenses :=
                         remove_if_present tgo (threatening_air_defenses state);
                       detecting_air_defenses :=
                         remove_if_present tgo (detecting_air_defenses state);
                       enemy_ships := enemy_ships state |}, Ok tt)).
  { unfold eliminate_air_defense. cbn [enemy_air_defenses].
    now rewrite (list_remove_filter _ _ Hnd Hin). }
  rewrite Hrun. cbn [fst snd]. split; [reflexivity|].
  rewrite (iter_iads_ranges_without self state _ rt tgo), Hthreats;
    [reflexivity|].
  cbn [enemy_air_defenses enemy_ships].
  rewrite filter_app, (filter_ne_absent tgo (enemy_ships state));
    [reflexivity|now apply Hdisj].
Qed.

(** X9. [eliminate_ship] of a ship of [enemy_ships], in a state whose
    enemy lists hold no object twice: the call returns, the ship is gone
    from [enemy_ships], [enemy_air_defenses] stays, and [iter_iads_ranges]
    yields what it yielded before without the ship, in the same order. *)
Theorem eliminated_ship_not_yielded self state rt tgo threats :
  NoDup (enemy_air_defenses state ++ enemy_ships state) ->
  tgo ∈ enemy_ships state ->
  iter_iads_ranges self state (Member rt) = Ok threats ->
  snd (eliminate_ship state tgo) = Ok tt
  /\ enemy_ships (fst (eliminate_ship state tgo))
     = filter (fun t => t <> tgo) (enemy_ships state)
  /\ enemy_air_defenses (fst (eliminate_ship state tgo))
     = enemy_air_defenses state
  /\ iter_iads_ranges self (fst (eliminate_ship state tgo)) (Member rt)
     = Ok (filter (fun t => t <> tgo) threats).
Proof.
  intros Hnd Hin Hthreats.
  apply NoDup_app in Hnd as (_ & Hdisj & Hnd).
  assert (Hrun : eliminate_ship state tgo
                 = ({| context := context state;
                       enemy_air_defenses := enemy_air_defenses state;
                       threatening_air_defenses :=
                         remove_if_present tgo (threatening_air_defenses state);
                       detecting_air_defenses :=
                         remove_if_present tgo (detecting_air_defenses state);
                       enemy_ships :=
                         filter (fun t => t <> tgo) (enemy_ships state) |},
                    Ok tt)).
  { unfold eliminate_ship. cbn [enemy_ships].
    now rewrite (list_remove_filter _ _ Hnd Hin). }
  rewrite Hrun. cbn [fst snd enemy_ships enemy_air_defenses].
  split; [reflexivity|]. split; [reflexivity|]. split; [reflexivity|].
  rewrite (iter_iads_ranges_without self state _ rt tgo), Hthreats;
    [reflexivity|].
  cbn [enemy_air_defenses enemy_ships].
  rewrite filter_app, (filter_ne_absent tgo (enemy_air_defenses state));
    [reflexivity|].
  intros Hin'. now apply (Hdisj tgo).
Qed.
End EliminatedFacts.

(** The three literals are the floats that [1 / 1], [1 / 2] and [9 / 10]
    round to. *)
Example corrective_factor_literals :
  int_truediv 1 1 = float_1_0
  /\ int_truediv 1 2 = float_0_5
  /\ int_truediv 9 10 = float_0_9.
Proof. repeat split. Qed.

(** Rounding decides: at an aggressiveness of 93 the margin is 7, and
    [100.0 * (7 / 100)] is the float above 7; a site 7 meters away with a
    range of 100 meters has a weighted threat range of [-2 ** -50], and the
    target area is not clear. *)
Example weighted_threat_range_rounds :
  @_get_weighted_threat_range PlannerEffects.near_objects (new_task 100) 5
    PlannerEffects.careful_state
  = SpecFloat.S754_finite true 4503599627370496 (-102)
  /\ @iter_iads_threats PlannerEffects.near_objects (new_task 100)
       PlannerEffects.careful_state = Ok [5]
  /\ snd (@target_area_preconditions_met PlannerEffects.near_objects
            (new_task 100) PlannerEffects.careful_state false) = Ok false.
Proof. repeat split; vm_compute; reflexivity. Qed.

Lemma full_aggressiveness_clears_witness :
  snd (@target_area_preconditions_met demo_objects (new_task 100)
         PlannerEffects.bold_state false) = Ok true.
Proof.
  apply (@full_aggressiveness_clears demo_objects (new_task 100)
           PlannerEffects.bold_state); [reflexivity|].
  intros t Ht. apply list_elem_of_In in Ht. simpl in Ht.
  destruct Ht as [<-|[<-|[<-|[<-|[]]]]]; cbn; lia.
Defined.

Lemma eliminate_air_defense_removes_witness :
  exists state' pre post,
    eliminate_air_defense PlannerEffects.bold_state 2 = (state', Ok tt)
    /\ enemy_air_defenses PlannerEffects.bold_state = pre ++ 2 :: post
    /\ enemy_air_defenses state' = pre ++ post
    /\ (2 ∉ threatening_air_defenses state')
    /\ (2 ∉ detecting_air_defenses state').
Proof.
  destruct (eliminate_air_defense_removes PlannerEffects.bold_state 2)
    as (state' & pre & post & Hrun & Hsplit & _ & Hrest & _ & _ & _
        & Hthreat & Hdetect).
  - apply list_elem_of_In. simpl. tauto.
  - exists state', pre, post. repeat (split; [assumption|]).
    split; [apply Hthreat|apply Hdetect];
      apply NoDup_singleton.
Defined.

Lemma eliminate_absent_purges_witness :
  snd (eliminate_ship PlannerEffects.bold_state 2) = Raise ValueError
  /\ enemy_ships (fst (eliminate_ship PlannerEffects.bold_state 2)) = [4]
  /\ length (threatening_air_defenses
               (fst (eliminate_ship PlannerEffects.bold_state 2))) = 0%nat.
Proof.
  destruct (proj2 (eliminate_absent_purges PlannerEffects.bold_state 2))
    as (Hraise & Hships & Hthreat & _).
  - intros Hin. apply list_elem_of_In in Hin. simpl in Hin.
    destruct Hin as [Hin|[]]. discriminate Hin.
  - split; [exact Hraise|]. split; [exact Hships|]. exact Hthreat.
Defined.

Lemma eliminated_air_defense_not_yielded_witness :
  snd (eliminate_air_defense demo_state 2) = Ok tt
  /\ @iter_iads_ranges demo_objects (new_task 100)
       (fst (eliminate_air_defense demo_state 2)) (Member Threat)
     = Ok (filter (fun t => t <> 2) [4; 2]).
Proof.
  apply (@eliminated_air_defense_not_yielded demo_objects (new_task 100)
           demo_state Threat 2 [4; 2]).
  - apply NoDup_ListNoDup. repeat constructor; simpl; lia.
  - apply list_elem_of_In. simpl. tauto.
  - reflexivity.
Defined.

Lemma eliminated_ship_not_yielded_witness :
  snd (eliminate_ship demo_state 4) = Ok tt
  /\ enemy_ships (fst (eliminate_ship demo_state 4))
     = filter (fun t => t <> 4) (enemy_ships demo_state)
  /\ enemy_air_defenses (fst (eliminate_ship demo_state 4))
     = enemy_air_defenses demo_state
  /\ @iter_iads_ranges demo_objects (new_task 100)
       (fst (eliminate_ship demo_state 4)) (Member Threat)
     = Ok (filter (fun t => t <> 4) [4; 2]).
Proof.
  apply (@eliminated_ship_not_yielded demo_objects (new_task 100)
           demo_state Threat 4 [4; 2]).
  - apply NoDup_ListNoDup. repeat constructor; simpl; lia.
  - apply list_elem_of_In. simpl. tauto.
  - reflexivity.
Defined.

End PlannerMoreFacts.

(** * Facts about [apply_effects] (packageplanningtask.py) *)

Module PlannerEffectsFacts.
Import Planner PlannerEffects.

Section ApplyEffectsFacts.
Context `{ControlPoints}.

Lemma credited_flight_cons_same f fs :
  is_helo f = false -> credited_flight (f :: fs) (departure f) = Some f.
Proof.
  intros Hh. unfold credited_flight. now rewrite filter_cons_True.
Qed.

Lemma credited_flight_cons_other f fs cp :
  departure f <> cp \/ is_helo f = true ->
  credited_flight (f :: fs) cp = credited_flight fs cp.
Proof.
  intros Hne. unfold credited_flight. rewrite filter_cons_False; [reflexivity|].
  intros [Hd Hh]. destruct Hne; congruence.
Qed.

Lemma seen_add_subseteq (d : Z) (seen : gset Z) (m : gmap Z Z) (n : Z) :
  is_Some (m !! d) -> seen ⊆ dom m -> {[d]} ∪ seen ⊆ dom (<[d := n]> m).
Proof.
  intros Hd Hseen. rewrite (dom_insert_lookup_L m d n Hd).
  apply union_least; [|exact Hseen].
  apply singleton_subseteq_l. now apply elem_of_dom.
Qed.

Lemma seen_add_other (d cp : Z) (seen : gset Z) :
  cp <> d -> cp ∈ {[d]} ∪ seen <-> cp ∈ seen.
Proof.
  intros Hne. rewrite elem_of_union, elem_of_singleton. tauto.
Qed.

Lemma seen_add_same (d : Z) (seen : gset Z) : d ∈ {[d]} ∪ seen.
Proof. apply elem_of_union. left. now apply elem_of_singleton. Qed.

Lemma credit_departures_spec fs : forall seen recovery_targets,
  seen ⊆ dom recovery_targets ->
  dom (fst (credit_departures fs seen recovery_targets)) = dom recovery_targets
  /\ (snd (credit_departures fs seen recovery_targets) = Ok tt
      \/ snd (credit_departures fs seen recovery_targets) = Raise KeyError)
  /\ (snd (credit_departures fs seen recovery_targets) = Raise KeyError
      <-> exists f, f ∈ fs /\ uncounted recovery_targets f)
  /\ (snd (credit_departures fs seen recovery_targets) = Ok tt ->
      forall cp,
        fst (credit_departures fs seen recovery_targets) !! cp
        = if is_fleet cp && bool_decide (cp ∉ seen) then
            match credited_flight fs cp with
            | Some f => (fun n => n + count f) <$> recovery_targets !! cp
            | None => recovery_targets !! cp
            end
          else recovery_targets !! cp).
Proof.
  induction fs as [|f rest IH]; intros seen rt Hseen.
  - cbn. split; [reflexivity|]. split; [now left|]. split.
    + split; [discriminate|]. intros (f & Hf & _).
      now apply not_elem_of_nil in Hf.
    + intros _ cp. now destruct (is_fleet cp && bool_decide (cp ∉ seen)).
  - cbn [credit_departures].
    destruct (is_fleet (departure f)) eqn:Hfleet; cbn [andb];
      [destruct (is_helo f) eqn:Hhelo; cbn [negb andb];
       [|case_bool_decide as Hnew;
         [destruct (rt !! departure f) as [n|] eqn:Hlook|]]|].
    + (* a helicopter *)
      destruct (IH seen rt Hseen) as (Hdom & Hres & Hraise & Hok).
      split; [exact Hdom|]. split; [exact Hres|]. split.
      * rewrite Hraise. split; intros (g & Hg & Hun).
        -- exists g. split; [apply elem_of_cons; now right|exact Hun].
        -- apply elem_of_cons in Hg as [->|Hg]; [|now exists g].
           destruct Hun as (_ & Hh & _). congruence.
      * intros Hr cp. rewrite (Hok Hr cp).
        rewrite credited_flight_cons_other by now right. reflexivity.
    + (* credited *)
      assert (Hsome : is_Some (rt !! departure f)) by eauto.
      destruct (IH ({[departure f]} ∪ seen)
                  (<[departure f := n + count f]> rt))
        as (Hdom & Hres & Hraise & Hok);
        [now apply seen_add_subseteq|].
      split; [now rewrite Hdom, dom_insert_lookup_L|]. split; [exact Hres|]. split.
      * rewrite Hraise. split; intros (g & Hg & Hf' & Hh & Hnone).
        -- exists g. split; [apply elem_of_cons; now right|].
           split; [exact Hf'|]. split; [exact Hh|].
           destruct (decide (departure g = departure f)) as [E|E].
           ++ rewrite E, lookup_insert_eq in Hnone. discriminate.
           ++ now rewrite lookup_insert_ne in Hnone.
        -- apply elem_of_cons in Hg as [->|Hg]; [congruence|].
           exists g. split; [exact Hg|]. split; [exact Hf'|].
           split; [exact Hh|].
           destruct (decide (departure g = departure f)) as [E|E].
           ++ rewrite E in Hnone. congruence.
           ++ now rewrite lookup_insert_ne.
      * intros Hr cp. rewrite (Hok Hr cp).
        destruct (decide (cp = departure f)) as [->|Hne].
        -- rewrite Hfleet. cbn [andb].
           rewrite (bool_decide_eq_false_2 (departure f ∉ _))
             by (intros Hn; apply Hn, seen_add_same).
           rewrite (bool_decide_eq_true_2 _ Hnew).
           rewrite credited_flight_cons_same by exact Hhelo.
           now rewrite lookup_insert_eq, Hlook.
        -- rewrite lookup_insert_ne by congruence.
           rewrite credited_flight_cons_other by (left; congruence).
           destruct (is_fleet cp); cbn [andb]; [|reflexivity].
           destruct (decide (cp ∈ seen)) as [Hcp|Hcp].
           ++ rewrite !bool_decide_eq_false_2
                by (rewrite ?seen_add_other by exact Hne; tauto).
              reflexivity.
           ++ rewrite !bool_decide_eq_true_2
                by (rewrite ?seen_add_other by exact Hne; tauto).
              destruct (credited_flight rest cp); reflexivity.
    + (* no entry *)
      cbn [fst snd]. split; [reflexivity|]. split; [now right|]. split.
      * split; [|reflexivity]. intros _. exists f.
        split; [apply elem_of_cons; now left|]. now split.
      * discriminate.
    + (* seen before *)
      destruct (IH seen rt Hseen) as (Hdom & Hres & Hraise & Hok).
      split; [exact Hdom|]. split; [exact Hres|]. split.
      * rewrite Hraise. split; intros (g & Hg & Hun).
        -- exists g. split; [apply elem_of_cons; now right|exact Hun].
        -- apply elem_of_cons in Hg as [->|Hg]; [|now exists g].
           destruct Hun as (_ & _ & Hnone).
           apply not_elem_of_dom in Hnone. exfalso. apply Hnone, Hseen, Hnew.
      * intros Hr cp. rewrite (Hok Hr cp).
        destruct (is_fleet cp); cbn [andb]; [|reflexivity].
        case_bool_decide as Hcp; [|reflexivity].
        rewrite credited_flight_cons_other; [reflexivity|].
        left. intros E. apply Hcp. now rewrite <- E.
    + (* no carrier *)
      destruct (IH seen rt Hseen) as (Hdom & Hres & Hraise & Hok).
      split; [exact Hdom|]. split; [exact Hres|]. split.
      * rewrite Hraise. split; intros (g & Hg & Hun).
        -- exists g. split; [apply elem_of_cons; now right|exact Hun].
        -- apply elem_of_cons in Hg as [->|Hg]; [|now exists g].
           destruct Hun as (Hf' & _). congruence.
      * intros Hr cp. rewrite (Hok Hr cp).
        destruct (is_fleet cp) eqn:Hcp; cbn [andb]; [|reflexivity].
        rewrite credited_flight_cons_other; [reflexivity|].
        left. intros E. congruence.
Qed.

Lemma credit_departures_stops pre : forall f post seen recovery_targets,
  seen ⊆ dom recovery_targets ->
  uncounted recovery_targets f ->
  (forall g, g ∈ pre -> ~ uncounted recovery_targets g) ->
  credit_departures (pre ++ f :: post) seen recovery_targets
  = (fst (credit_departures pre seen recovery_targets), Raise KeyError).
Proof.
  induction pre as [|g pre IH]; intros f post seen rt Hseen Hun Hpre.
  - destruct Hun as (Hf & Hh & Hnone). cbn. rewrite Hf, Hh, Hnone. cbn.
    apply not_elem_of_dom in Hnone.
    rewrite bool_decide_eq_true_2 by (intros Hin; apply Hnone, Hseen, Hin).
    reflexivity.
  - cbn [app credit_departures].
    assert (Hrest : forall g', g' ∈ pre -> ~ uncounted rt g')
      by (intros g' Hg'; apply Hpre; apply elem_of_cons; now right).
    destruct (is_fleet (departure g) && negb (is_helo g)
              && bool_decide (departure g ∉ seen)) eqn:Hcond;
      [|now apply IH].
    apply andb_true_iff in Hcond as [Hcond _].
    apply andb_true_iff in Hcond as [Hf Hh]. apply negb_true_iff in Hh.
    destruct (rt !! departure g) as [n|] eqn:Hlook.
    + destruct Hun as (Hf' & Hh' & Hnone).
      assert (Hne : departure f <> departure g) by congruence.
      apply IH.
      * apply seen_add_subseteq; eauto.
      * split; [exact Hf'|]. split; [exact Hh'|].
        now rewrite lookup_insert_ne by congruence.
      * intros g' Hg' (Hf'' & Hh'' & Hnone''). apply (Hrest g' Hg').
        split; [exact Hf''|]. split; [exact Hh''|].
        destruct (decide (departure g' = departure g)) as [E|E].
        -- rewrite E, lookup_insert_eq in Hnone''. discriminate.
        -- now rewrite lookup_insert_ne in Hnone'' by congruence.
    + exfalso. apply (Hpre g); [apply elem_of_cons; now left|]. now split.
Qed.

(** X10. [apply_effects] on a task with a planned package, when every
    carrier that a non-helicopter flight departs from has an entry in
    [recovery_targets]: the call returns, and each carrier's entry grows by
    the count of the first non-helicopter flight of the package that
    departs from it, not by the counts of all of them; every other entry
    stays. *)
Theorem apply_effects_credits self package_flights recovery_targets p :
  package self = Some p ->
  (forall f, f ∈ package_flights p ->
             is_fleet (departure f) = true -> is_helo f = false ->
             is_Some (recovery_targets !! departure f)) ->
  exists recovery_targets',
    apply_effects self package_flights recovery_targets
    = (recovery_targets', Ok tt)
    /\ forall cp,
         recovery_targets' !! cp
         = if is_fleet cp then
             match credited_flight (package_flights p) cp with
             | Some f => (fun n => n + count f) <$> recovery_targets !! cp
             | None => recovery_targets !! cp
             end
           else recovery_targets !! cp.
Proof.
  intros Hp Hkeys. unfold apply_effects. rewrite Hp.
  destruct (credit_departures_spec (package_flights p) ∅ recovery_targets)
    as (_ & Hres & Hraise & Hok); [apply empty_subseteq|].
  destruct Hres as [Hres|Hres].
  - exists (fst (credit_departures (package_flights p) ∅ recovery_targets)).
    split.
    + rewrite <- Hres. now destruct (credit_departures _ _ _).
    + intros cp. rewrite (Hok Hres cp).
      rewrite bool_decide_eq_true_2 by apply not_elem_of_empty.
      now rewrite andb_true_r.
  - apply Hraise in Hres as (f & Hf & Hfleet & Hhelo & Hnone).
    destruct (Hkeys f Hf Hfleet Hhelo) as [n Hn]. congruence.
Qed.

(** X11. [apply_effects] never adds or drops a key of [recovery_targets];
    without a planned package it leaves the dict as it is; it either
    returns or raises [KeyError], and it raises exactly when a
    non-helicopter flight of the package departs from a carrier that has
    no entry. *)
Theorem apply_effects_raises_iff self package_flights recovery_targets :
  dom (fst (apply_effects self package_flights recovery_targets))
  = dom recovery_targets
  /\ (package self = None ->
      apply_effects self package_flights recovery_targets
      = (recovery_targets, Ok tt))
  /\ (snd (apply_effects self package_flights recovery_targets) = Ok tt
      \/ snd (apply_effects self package_flights recovery_targets)
         = Raise KeyError)
  /\ (snd (apply_effects self package_flights recovery_targets)
      = Raise KeyError
      <-> exists p f,
            package self = Some p /\ f ∈ package_flights p
            /\ is_fleet (departure f) = true /\ is_helo f = false
            /\ recovery_targets !! departure f = None).
Proof.
  unfold apply_effects. destruct (package self) as [p|].
  - destruct (credit_departures_spec (package_flights p) ∅ recovery_targets)
      as (Hdom & Hres & Hraise & _); [apply empty_subseteq|].
    split; [exact Hdom|]. split; [discriminate|]. split; [exact Hres|].
    rewrite Hraise. split.
    + intros (f & Hf & Hun). now exists p, f.
    + intros (p' & f & [= <-] & Hf & Hun). now exists f.
  - cbn. split; [reflexivity|]. split; [reflexivity|]. split; [now left|].
    split; [discriminate|]. intros (p & f & Hp & _). discriminate.
Qed.

(** X12. When [apply_effects] raises, the entries credited for the flights
    before the first one whose carrier has no entry stay credited: the
    dict is left as the loop over those flights leaves it. *)
Theorem apply_effects_stops_midway self package_flights recovery_targets
    p pre f post :
  package self = Some p ->
  package_flights p = pre ++ f :: post ->
  is_fleet (departure f) = true -> is_helo f = false ->
  recovery_targets !! departure f = None ->
  (forall g, g ∈ pre ->
             is_fleet (departure g) = true -> is_helo g = false ->
             is_Some (recovery_targets !! departure g)) ->
  apply_effects self package_flights recovery_targets
  = (fst (apply_effects self (fun _ => pre) recovery_targets),
     Raise KeyError).
Proof.
  intros Hp Hfs Hfleet Hhelo Hnone Hpre. unfold apply_effects.
  rewrite Hp, Hfs. apply credit_departures_stops.
  - apply empty_subseteq.
  - now split.
  - intros g Hg (Hf' & Hh' & Hn').
    destruct (Hpre g Hg Hf' Hh') as [n Hn]. congruence.
Qed.

End ApplyEffectsFacts.

Lemma apply_effects_credits_witness :
  exists recovery_targets',
    @apply_effects demo_control_points (planned_task 7) demo_package_flights
      demo_recovery_targets
    = (recovery_targets', Ok tt)
    /\ recovery_targets' !! 301 = Some 4
    /\ recovery_targets' !! 302 = Some 0
    /\ recovery_targets' !! 303 = None.
Proof.
  destruct (@apply_effects_credits demo_control_points (planned_task 7)
              demo_package_flights demo_recovery_targets 7 eq_refl)
    as (rt' & Hrun & Hcp).
  - intros f Hf Hfleet _. apply list_elem_of_In in Hf. simpl in Hf.
    destruct Hf as [<-|[<-|[<-|[<-|[]]]]];
      first [discriminate Hfleet | vm_compute; eauto].
  - exists rt'. split; [exact Hrun|].
    rewrite (Hcp 301), (Hcp 302), (Hcp 303). now vm_compute.
Defined.

Lemma apply_effects_stops_midway_witness :
  @apply_effects demo_control_points (planned_task 8) demo_package_flights
    {[ 302 := 0 ]}
  = ({[ 302 := 3 ]}, Raise KeyError).
Proof.
  rewrite (@apply_effects_stops_midway demo_control_points (planned_task 8)
             demo_package_flights {[ 302 := 0 ]} 8
             [ {| departure := 302; is_helo := false; count := 3 |} ]
             {| departure := 301; is_helo := false; count := 4 |}
             [ {| departure := 302; is_helo := false; count := 2 |} ]);
    try reflexivity.
  intros g Hg _ _. apply list_elem_of_In in Hg. simpl in Hg.
  destruct Hg as [<-|[]]. vm_compute. eauto.
Defined.

End PlannerEffectsFacts.

(** * More facts about [TheaterState.clone]: clones of clones, and the
      persistent lists *)

Module TheaterMoreFacts.
Import Theater TheaterFacts.

Lemma is_data_mono (h h' : heap) v :
  h ⊆ h' -> is_data h v = true -> is_data h' v = true.
Proof.
  intros Hsub. destruct v as [| | |l]; simpl; try discriminate.
  destruct (h !! l) as [c|] eqn:Hl; [|discriminate].
  now rewrite (lookup_weaken _ _ _ _ Hl Hsub).
Qed.

Lemma has_type_mono (h h' : heap) t v :
  h ⊆ h' -> has_type h t v = true -> has_type h' t v = true.
Proof.
  intros Hsub.
  destruct t, v as [| | |l]; simpl; try discriminate; try reflexivity;
    (destruct (h !! l) as [c|] eqn:Hl; [|discriminate]);
    rewrite (lookup_weaken _ _ _ _ Hl Hsub); try easy.
  destruct c as [|items|]; try discriminate.
  intros [Hnd Hdata]%andb_true_iff. apply andb_true_iff. split; [exact Hnd|].
  rewrite forallb_forall in Hdata |- *. intros kv Hkv.
  eapply is_data_mono; eauto.
Qed.

Lemma well_typed_mono (h h' : heap) self :
  h ⊆ h' -> well_typed h self = true -> well_typed h' self = true.
Proof.
  intros Hsub. unfold well_typed. rewrite !forallb_forall.
  intros Hall f Hf. eapply has_type_mono; eauto.
Qed.

Lemma replace_items_typed h0 items : forall h items' h',
  h0 ⊆ h -> forallb (fun kv => is_data h0 (snd kv)) items = true ->
  replace_items items h = Ok (items', h') ->
  map fst items' = map fst items
  /\ forallb (fun kv => is_data h' (snd kv)) items' = true.
Proof.
  induction items as [|[cp g] items IH]; intros h items' h' Hsub Hdata Hrun.
  - injection Hrun as <- <-. split; reflexivity.
  - simpl in Hdata. apply andb_true_iff in Hdata as [Hg Hrest].
    destruct (dataclasses_replace_spec h0 h g Hsub Hg)
      as (g' & h1 & Hrun1 & Hsub1 & _).
    destruct (replace_items_spec h0 items h1 (transitivity Hsub Hsub1) Hrest)
      as (rest' & h2 & Hrun2 & Hsub2 & _).
    cbn [replace_items] in Hrun. rewrite (run_bind _ _ _ _ _ Hrun1) in Hrun.
    rewrite (run_bind _ _ _ _ _ Hrun2) in Hrun. injection Hrun as <- <-.
    destruct (IH h1 rest' h2 (transitivity Hsub Hsub1) Hrest Hrun2)
      as [Hkeys Hall].
    split; [simpl; now rewrite Hkeys|].
    simpl. rewrite Hall, andb_true_r.
    eapply is_data_mono; [exact Hsub2|].
    destruct g as [| | |lg]; try discriminate Hg.
    unfold dataclasses_replace, mbind, M_bind, read in Hrun1.
    destruct (h !! lg) as [[| |fs]|]; try discriminate Hrun1.
    injection Hrun1 as <- <-. simpl. now rewrite lookup_insert_eq.
Qed.

Lemma clone_argument_typed h0 h self f v h' :
  h0 ⊆ h -> has_type h0 (annotation f) (self f) = true ->
  clone_argument self f h = Ok (v, h') ->
  has_type h' (annotation f) v = true.
Proof.
  intros Hsub Htype Hrun.
  assert (Hlist : annotation f = TList -> per_pass f = true ->
                  py_list (self f) h = Ok (v, h') ->
                  has_type h' TList v = true).
  { intros Ha _ Hpy. rewrite Ha in Htype.
    destruct (self f) as [| | |lo]; try discriminate Htype.
    simpl in Htype.
    destruct (h0 !! lo) as [[xs| |]|] eqn:Hlo; try discriminate Htype.
    unfold py_list, mbind, M_bind, read in Hpy.
    rewrite (lookup_weaken _ _ _ _ Hlo Hsub) in Hpy.
    injection Hpy as <- <-. simpl. now rewrite lookup_insert_eq. }
  assert (Hdict : annotation f = TDict ->
                  py_dict (self f) h = Ok (v, h') ->
                  has_type h' TDict v = true).
  { intros Ha Hpy. rewrite Ha in Htype.
    destruct (self f) as [| | |lo]; try discriminate Htype.
    simpl in Htype.
    destruct (h0 !! lo) as [[|items|]|] eqn:Hlo; try discriminate Htype.
    unfold py_dict, mbind, M_bind, read in Hpy.
    rewrite (lookup_weaken _ _ _ _ Hlo Hsub) in Hpy.
    injection Hpy as <- <-. simpl. now rewrite lookup_insert_eq. }
  assert (Hsame : v = self f -> h' = h ->
                  has_type h' (annotation f) v = true).
  { intros -> ->. eapply has_type_mono; eauto. }
  destruct f; cbn [clone_argument] in Hrun;
    first [ apply Hlist; [reflexivity|reflexivity|exact Hrun]
          | apply Hdict; [reflexivity|exact Hrun]
          | injection Hrun as <- <-; now apply Hsame
          | idtac ].
  (* enemy_battle_positions *)
  cbn [annotation] in Htype |- *.
  destruct (self enemy_battle_positions) as [| | |lo];
    try discriminate Htype.
  simpl in Htype.
  destruct (h0 !! lo) as [[|items|]|] eqn:Hlo; try discriminate Htype.
  apply andb_true_iff in Htype as [Hnd Hdata].
  unfold dict_of_replaced in Hrun. unfold mbind at 1, M_bind at 1, read in Hrun.
  rewrite (lookup_weaken _ _ _ _ Hlo Hsub) in Hrun.
  destruct (replace_items_spec h0 items h Hsub Hdata)
    as (items' & h1 & Hrun1 & Hsub1 & _).
  rewrite (run_bind _ _ _ _ _ Hrun1) in Hrun. injection Hrun as <- <-.
  destruct (replace_items_typed h0 items h items' h1 Hsub Hdata Hrun1)
    as [Hkeys Hall].
  simpl. rewrite lookup_insert_eq, Hkeys, Hnd. simpl.
  rewrite forallb_forall in Hall |- *. intros kv Hkv.
  eapply is_data_mono; [apply alloc_extends|]. now apply Hall.
Qed.

Lemma eval_arguments_typed h0 self fs : forall h kwargs h',
  h0 ⊆ h ->
  forallb (fun f => has_type h0 (annotation f) (self f)) fs = true ->
  eval_arguments self fs h = Ok (kwargs, h') ->
  Forall (fun kv => has_type h' (annotation (fst kv)) (snd kv) = true) kwargs.
Proof.
  induction fs as [|f fs IH]; intros h kwargs h' Hsub Htypes Hrun.
  - injection Hrun as <- <-. constructor.
  - simpl in Htypes. apply andb_true_iff in Htypes as [Hf Hfs].
    destruct (clone_argument_spec h0 h self f Hsub Hf)
      as (v & h1 & Hrun1 & Hsub1 & _).
    destruct (eval_arguments_spec h0 self fs h1 (transitivity Hsub Hsub1) Hfs)
      as (rest & h2 & Hrun2 & Hsub2 & _).
    cbn [eval_arguments] in Hrun. rewrite (run_bind _ _ _ _ _ Hrun1) in Hrun.
    rewrite (run_bind _ _ _ _ _ Hrun2) in Hrun. injection Hrun as <- <-.
    constructor.
    + simpl. eapply has_type_mono; [exact Hsub2|].
      exact (clone_argument_typed h0 h self f v h1 Hsub Hf Hrun1).
    + eapply IH; [|exact Hfs|exact Hrun2]. now transitivity h.
Qed.

Lemma clone_well_typed h self c h' :
  well_typed h self = true -> clone self h = Ok (c, h') ->
  well_typed h' c = true.
Proof.
  intros Htyped Hrun.
  destruct (eval_arguments_spec h self clone_arguments h (reflexivity h) Htyped)
    as (kwargs & h1 & Hrun1 & _ & Hkeys & _).
  pose proof (eval_arguments_typed h self clone_arguments h kwargs h1
                (reflexivity h) Htyped Hrun1) as Hall.
  unfold clone in Hrun. rewrite (run_bind _ _ _ _ _ Hrun1) in Hrun.
  injection Hrun as <- <-.
  unfold well_typed. apply forallb_forall. intros f _.
  assert (Hin : f ∈ map fst kwargs)
    by (rewrite Hkeys; apply clone_arguments_complete).
  apply list_elem_of_fmap in Hin as ([f' v] & -> & Hin).
  rewrite Forall_forall in Hall. specialize (Hall _ Hin). simpl in Hall |- *.
  rewrite (construct_elem kwargs f' v); [exact Hall| |exact Hin].
  rewrite Hkeys. apply clone_arguments_NoDup.
Qed.

(** X13. A clone of a well-typed state is well-typed, and so is the
    original in the heap the call leaves: either can be cloned again, as
    the planner does for every branch it explores, and a clone of the clone
    again has per-pass collections that neither of the two states before
    it holds. *)
Theorem clone_keeps_well_typed h self :
  well_typed h self = true ->
  exists c h',
    clone self h = Ok (c, h')
    /\ well_typed h' c = true
    /\ well_typed h' self = true
    /\ exists c2 h2,
         clone c h' = Ok (c2, h2)
         /\ well_typed h2 c2 = true
         /\ forall f, per_pass f = true ->
              c2 f <> c f /\ c2 f <> self f /\ c f <> self f.
Proof.
  intros Htyped.
  destruct (clone_fields h self Htyped) as (c & h' & Hrun & Hsub & Hfields).
  pose proof (clone_well_typed h self c h' Htyped Hrun) as Hc.
  pose proof (well_typed_mono h h' self Hsub Htyped) as Hself.
  destruct (clone_fields h' c Hc) as (c2 & h2 & Hrun2 & Hsub2 & Hfields2).
  exists c, h'. split; [exact Hrun|]. split; [exact Hc|].
  split; [exact Hself|].
  exists c2, h2. split; [exact Hrun2|].
  split; [exact (clone_well_typed h' c c2 h2 Hc Hrun2)|].
  intros f Hf. specialize (Hfields f). specialize (Hfields2 f).
  rewrite Hf in Hfields, Hfields2.
  destruct Hfields as [(l & Hl & Hnew & Halloc) _].
  destruct Hfields2 as [(l2 & Hl2 & Hnew2 & _) _].
  destruct (per_pass_is_reference h self f Htyped Hf) as (lo & Hlo & Hold).
  rewrite Hl, Hl2, Hlo.
  split; [|split]; intros [= E]; subst.
  - destruct Halloc as [x Hx]. congruence.
  - destruct Hold as [x Hx].
    rewrite (lookup_weaken _ _ _ _ Hx Hsub) in Hnew2. discriminate.
  - destruct Hold as [x Hx]. congruence.
Qed.

Lemma persistent_is_list h self f :
  well_typed h self = true -> persistent f = true ->
  exists l items, self f = VRef l /\ h !! l = Some (CList items).
Proof.
  intros Htyped Hf. pose proof (well_typed_field h self f Htyped) as Ht.
  destruct f; try discriminate Hf; cbn [annotation] in Ht;
    destruct (self _) as [| | |l]; try discriminate Ht;
    simpl in Ht; destruct (h !! l) as [[items| |]|] eqn:Hl;
    try discriminate Ht; now exists l, items.
Qed.

(** X14. The four persistent lists are passed on, not copied: what is
    appended through the clone to one of them is appended to the
    original's list, which is the same object. *)
Theorem append_through_clone_is_shared h self f :
  well_typed h self = true ->
  persistent f = true ->
  exists c h' items,
    clone self h = Ok (c, h')
    /\ c f = self f
    /\ contents h (self f) = Some (CList items)
    /\ forall v, exists h'',
         list_append (c f) v h' = Ok (tt, h'')
         /\ contents h'' (self f) = Some (CList (items ++ [v]))
         /\ contents h'' (c f) = Some (CList (items ++ [v])).
Proof.
  intros Htyped Hf.
  destruct (clone_fields h self Htyped) as (c & h' & Hrun & Hsub & _).
  pose proof (clone_shares_persistent h self c h' f Htyped Hrun Hf) as Hshare.
  destruct (persistent_is_list h self f Htyped Hf) as (l & items & Hl & Hitems).
  exists c, h', items. split; [exact Hrun|]. split; [exact Hshare|].
  split; [rewrite Hl; exact Hitems|].
  intros v. pose proof (lookup_weaken _ _ _ _ Hitems Hsub) as Hitems'.
  exists (<[l := CList (items ++ [v])]> h').
  rewrite Hshare, Hl. split; [|split].
  - unfold list_append, mbind, M_bind, read. rewrite Hitems'.
    unfold write. now rewrite Hitems'.
  - simpl. apply lookup_insert_eq.
  - simpl. apply lookup_insert_eq.
Qed.

(** X15. A write through one of the original's per-pass collections after
    the clone was made leaves every per-pass collection of the clone: the
    clone is a snapshot that the original's later planning cannot
    change. *)
Theorem original_write_leaves_clone h self :
  well_typed h self = true ->
  exists c h',
    clone self h = Ok (c, h')
    /\ forall f, per_pass f = true ->
         forall x, exists h'',
           write (self f) x h' = Ok (tt, h'')
           /\ contents h'' (self f) = Some x
           /\ forall g, per_pass g = true ->
                contents h'' (c g) = contents h' (c g).
Proof.
  intros Htyped.
  destruct (clone_fields h self Htyped) as (c & h' & Hrun & Hsub & Hfields).
  exists c, h'. split; [exact Hrun|]. intros f Hf x.
  destruct (per_pass_is_reference h self f Htyped Hf) as (lo & Hlo & [co Hco]).
  pose proof (lookup_weaken _ _ _ _ Hco Hsub) as Hco'.
  exists (<[lo := x]> h'). rewrite Hlo. split; [|split].
  - unfold write. now rewrite Hco'.
  - simpl. apply lookup_insert_eq.
  - intros g Hg. specialize (Hfields g). rewrite Hg in Hfields.
    destruct Hfields as [(l & -> & Hnew & _) _]. simpl.
    apply lookup_insert_ne. congruence.
Qed.

Lemma replace_items_shape h0 items : forall h items' h',
  h0 ⊆ h -> forallb (fun kv => is_data h0 (snd kv)) items = true ->
  replace_items items h = Ok (items', h') ->
  Forall2 (fun kv' kv =>
             fst kv' = fst kv
             /\ exists g g' fields,
                  snd kv = VRef g /\ snd kv' = VRef g'
                  /\ h !! g' = None
                  /\ h0 !! g = Some (CData fields)
                  /\ h' !! g' = Some (CData fields))
    items' items.
Proof.
  induction items as [|[cp g] items IH]; intros h items' h' Hsub Hdata Hrun.
  - injection Hrun as <- <-. constructor.
  - simpl in Hdata. apply andb_true_iff in Hdata as [Hg Hrest].
    destruct (dataclasses_replace_spec h0 h g Hsub Hg)
      as (g' & h1 & Hrun1 & Hsub1 & _).
    destruct (replace_items_spec h0 items h1 (transitivity Hsub Hsub1) Hrest)
      as (rest' & h2 & Hrun2 & Hsub2 & _).
    cbn [replace_items] in Hrun. rewrite (run_bind _ _ _ _ _ Hrun1) in Hrun.
    rewrite (run_bind _ _ _ _ _ Hrun2) in Hrun. injection Hrun as <- <-.
    constructor.
    + split; [reflexivity|]. cbn [snd].
      destruct g as [| | |lg]; try discriminate Hg. simpl in Hg.
      destruct (h0 !! lg) as [[| |fields]|] eqn:Hlg; try discriminate Hg.
      unfold dataclasses_replace, mbind, M_bind, read in Hrun1.
      rewrite (lookup_weaken _ _ _ _ Hlg Hsub) in Hrun1.
      injection Hrun1 as <- <-.
      exists lg, (fresh (dom h)), fields.
      split; [reflexivity|]. split; [reflexivity|].
      split; [apply fresh_unused|]. split; [exact Hlg|].
      eapply lookup_weaken; [|exact Hsub2]. apply lookup_insert_eq.
    + eapply Forall2_impl;
        [exact (IH h1 rest' h2 (transitivity Hsub Hsub1) Hrest Hrun2)|].
      intros kv' kv (Hk & g0 & g0' & fields & Hg0 & Hg0' & Hnew & Hold & Hcopy).
      split; [exact Hk|]. exists g0, g0', fields.
      repeat split; try assumption.
      eapply lookup_weaken_None; eauto.
Qed.

Lemma eval_arguments_step h0 self fs : forall h kwargs h' f,
  h0 ⊆ h ->
  forallb (fun f => has_type h0 (annotation f) (self f)) fs = true ->
  eval_arguments self fs h = Ok (kwargs, h') ->
  f ∈ fs ->
  exists h1 h2 v,
    h ⊆ h1 /\ clone_argument self f h1 = Ok (v, h2) /\ h2 ⊆ h'
    /\ (f, v) ∈ kwargs.
Proof.
  induction fs as [|f0 fs IH]; intros h kwargs h' f Hsub Htypes Hrun Hf.
  - now apply not_elem_of_nil in Hf.
  - simpl in Htypes. apply andb_true_iff in Htypes as [Hf0 Hfs].
    destruct (clone_argument_spec h0 h self f0 Hsub Hf0)
      as (v & h1 & Hrun1 & Hsub1 & _).
    destruct (eval_arguments_spec h0 self fs h1 (transitivity Hsub Hsub1) Hfs)
      as (rest & h2 & Hrun2 & Hsub2 & _).
    cbn [eval_arguments] in Hrun. rewrite (run_bind _ _ _ _ _ Hrun1) in Hrun.
    rewrite (run_bind _ _ _ _ _ Hrun2) in Hrun. injection Hrun as <- <-.
    apply elem_of_cons in Hf as [->|Hf].
    + exists h, h1, v. repeat split; [reflexivity|exact Hrun1|exact Hsub2|].
      apply elem_of_cons. now left.
    + destruct (IH h1 rest h2 f (transitivity Hsub Hsub1) Hfs Hrun2 Hf)
        as (ha & hb & v' & Hsa & Hruna & Hsb & Hin).
      exists ha, hb, v'. repeat split; try assumption.
      * now transitivity h1.
      * apply elem_of_cons. now right.
Qed.

(** X16. [clone] gives [enemy_battle_positions] a new dict with a new
    [BattlePositions] instance for every control point, but
    [dataclasses.replace] copies one level only: every field of a new
    instance holds the very value of the original's field, so the lists
    inside a [BattlePositions] are shared between the clone and the
    original. *)
Theorem battle_positions_copied_one_level h self lo items :
  well_typed h self = true ->
  self enemy_battle_positions = VRef lo ->
  h !! lo = Some (CDict items) ->
  exists c h' l items',
    clone self h = Ok (c, h')
    /\ c enemy_battle_positions = VRef l
    /\ h !! l = None
    /\ h' !! l = Some (CDict items')
    /\ Forall2 (fun kv' kv =>
                  fst kv' = fst kv
                  /\ exists g g' fields,
                       snd kv = VRef g /\ snd kv' = VRef g'
                       /\ h !! g' = None
                       /\ h !! g = Some (CData fields)
                       /\ h' !! g = Some (CData fields)
                       /\ h' !! g' = Some (CData fields))
         items' items.
Proof.
  intros Htyped Hlo Hitems.
  destruct (eval_arguments_spec h self clone_arguments h (reflexivity h) Htyped)
    as (kwargs & h' & Hrun & Hsub & Hkeys & _).
  destruct (eval_arguments_step h self clone_arguments h kwargs h'
              enemy_battle_positions (reflexivity h) Htyped Hrun
              (clone_arguments_complete _))
    as (h1 & h2 & v & Hsub1 & Harg & Hsub2 & Hin).
  pose proof (well_typed_field h self enemy_battle_positions Htyped) as Htype.
  cbn [annotation] in Htype. rewrite Hlo in Htype. simpl in Htype.
  rewrite Hitems in Htype. apply andb_true_iff in Htype as [_ Hdata].
  cbn [clone_argument] in Harg. rewrite Hlo in Harg.
  unfold dict_of_replaced in Harg.
  unfold mbind at 1, M_bind at 1, read in Harg.
  rewrite (lookup_weaken _ _ _ _ Hitems Hsub1) in Harg.
  destruct (replace_items_spec h items h1 Hsub1 Hdata)
    as (items' & h1' & Hrepl & Hsub1' & _).
  rewrite (run_bind _ _ _ _ _ Hrepl) in Harg. injection Harg as <- <-.
  exists (construct kwargs), h', (fresh (dom h1')), items'.
  split; [unfold clone; now rewrite (run_bind _ _ _ _ _ Hrun)|].
  split; [|split; [|split]].
  - apply construct_elem; [|exact Hin].
    rewrite Hkeys. apply clone_arguments_NoDup.
  - eapply lookup_weaken_None; [apply fresh_unused|].
    now transitivity h1.
  - eapply lookup_weaken; [|exact Hsub2]. apply lookup_insert_eq.
  - eapply Forall2_impl;
      [exact (replace_items_shape h items h1 items' h1' Hsub1 Hdata Hrepl)|].
    intros kv' kv (Hk & g & g' & fields & Hg & Hg' & Hnew & Hold & Hcopy).
    split; [exact Hk|]. exists g, g', fields.
    split; [exact Hg|]. split; [exact Hg'|].
    split; [eapply lookup_weaken_None; eauto|].
    split; [exact Hold|]. split.
    + eapply lookup_weaken; [exact Hold|exact Hsub].
    + eapply lookup_weaken; [exact Hcopy|].
      transitivity (<[fresh (dom h1') := CDict items']> h1');
        [apply alloc_extends|exact Hsub2].
Qed.

Lemma original_write_leaves_clone_witness :
  exists c h',
    clone demo_state demo_heap = Ok (c, h')
    /\ forall f, per_pass f = true ->
         forall x, exists h'',
           write (demo_state f) x h' = Ok (tt, h'')
           /\ contents h'' (demo_state f) = Some x
           /\ forall g, per_pass g = true ->
                contents h'' (c g) = contents h' (c g).
Proof.
  apply (original_write_leaves_clone demo_heap demo_state).
  vm_compute. reflexivity.
Defined.

Lemma battle_positions_copied_one_level_witness :
  exists c h' l items',
    clone demo_state demo_heap = Ok (c, h')
    /\ c enemy_battle_positions = VRef l
    /\ h' !! l = Some (CDict items')
    /\ Forall2 (fun kv' kv =>
                  fst kv' = fst kv
                  /\ exists g g' fields,
                       snd kv = VRef g /\ snd kv' = VRef g'
                       /\ demo_heap !! g' = None
                       /\ demo_heap !! g = Some (CData fields)
                       /\ h' !! g = Some (CData fields)
                       /\ h' !! g' = Some (CData fields))
         items' [(50, VRef 20%positive)].
Proof.
  destruct (battle_positions_copied_one_level demo_heap demo_state
              14%positive [(50, VRef 20%positive)])
    as (c & h' & l & items' & Hrun & Hc & _ & Hl & Hall);
    [vm_compute; reflexivity|reflexivity|reflexivity|].
  exists c, h', l, items'.
  split; [exact Hrun|]. split; [exact Hc|]. split; [exact Hl|exact Hall].
Defined.

Lemma clone_keeps_well_typed_witness :
  exists c h',
    clone demo_state demo_heap = Ok (c, h')
    /\ well_typed h' c = true
    /\ well_typed h' demo_state = true
    /\ exists c2 h2,
         clone c h' = Ok (c2, h2)
         /\ well_typed h2 c2 = true
         /\ forall f, per_pass f = true ->
              c2 f <> c f /\ c2 f <> demo_state f /\ c f <> demo_state f.
Proof.
  apply (clone_keeps_well_typed demo_heap demo_state).
  vm_compute. reflexivity.
Defined.

Lemma append_through_clone_is_shared_witness :
  exists c h' items,
    clone demo_state demo_heap = Ok (c, h')
    /\ c detecting_air_defenses = demo_state detecting_air_defenses
    /\ contents demo_heap (demo_state detecting_air_defenses)
       = Some (CList items)
    /\ forall v, exists h'',
         list_append (c detecting_air_defenses) v h' = Ok (tt, h'')
         /\ contents h'' (demo_state detecting_air_defenses)
            = Some (CList (items ++ [v]))
         /\ contents h'' (c detecting_air_defenses)
            = Some (CList (items ++ [v])).
Proof.
  apply (append_through_clone_is_shared demo_heap demo_state
           detecting_air_defenses); vm_compute; reflexivity.
Defined.

End TheaterMoreFacts.

(** * More facts about packages (package.py): failures of [remove_flight],
      [primary_flight], the clone's attributes, speed and times *)

Module PkgMoreFacts.
Import Pkg PkgPlans PkgFacts.

(** *** [remove_flight] *)

Lemma list_remove_app_last (x : Z) (l : list Z) :
  x ∉ l -> list_remove x (l ++ [x]) = Ok l.
Proof.
  induction l as [|y l IH]; intros Hx; simpl.
  - now rewrite bool_decide_eq_true_2.
  - apply not_elem_of_cons in Hx as [Hne Hx].
    rewrite bool_decide_eq_false_2 by congruence. now rewrite IH.
Qed.

(** What [remove_flight] does when every step returns. *)
Lemma remove_flight_ok `{Database} w self flight o fs fl contents contents' :
  packages w !! self = Some o ->
  list_remove flight (flights o) = Ok fs ->
  flight_objects w !! flight = Some fl ->
  databases w !! _db o = Some contents ->
  db_remove contents (id fl) = Ok contents' ->
  remove_flight self flight w
  = ({| packages :=
          <[self := match fs with
                    | [] => set_waypoints (set_flights o fs) None
                    | _ :: _ => set_flights o fs
                    end]> (packages w);
        flight_objects := flight_objects w;
        databases := <[_db o := contents']> (databases w);
        transports := match cargo fl with
                      | Some c => <[c := None]> (transports w)
                      | None => transports w
                      end;
        returned := returned w ++ [flight] |}, Ok tt).
Proof.
  intros Hself Hremove Hfl Hdb Hrm. unfold remove_flight.
  erewrite pkg_bind_ok by (apply get_package_ok; exact Hself).
  erewrite pkg_bind_ok by (unfold lift; rewrite Hremove; reflexivity).
  erewrite pkg_bind_ok by reflexivity.
  erewrite pkg_bind_ok by (apply get_flight_ok; exact Hfl).
  erewrite pkg_bind_ok by (eapply database_update_ok; [exact Hdb|exact Hrm]).
  erewrite pkg_bind_ok by reflexivity.
  destruct (cargo fl) as [c|];
    (erewrite pkg_bind_ok by reflexivity);
    (erewrite pkg_bind_ok
       by (apply get_package_ok; cbn [packages]; apply lookup_insert_eq));
    cbn [flights set_flights]; destruct fs as [|f fs];
    unfold put_package, mret, M_ret;
    cbn [packages flight_objects databases transports returned];
    rewrite ?insert_insert_eq; reflexivity.
Qed.

(** X17. [remove_flight] of a flight that is not in the package's list
    raises [ValueError] and changes nothing: the database still has the
    flight, its pilots and aircraft are not returned. *)
Theorem remove_flight_absent_raises `{Database} w self flight o :
  packages w !! self = Some o ->
  flight ∉ flights o ->
  remove_flight self flight w = (w, Raise ValueError).
Proof.
  intros Hself Habsent. unfold remove_flight.
  erewrite pkg_bind_ok by (apply get_package_ok; exact Hself).
  erewrite pkg_bind_raise
    by (unfold lift; rewrite (list_remove_raises _ _ Habsent); reflexivity).
  reflexivity.
Qed.

(** X18. When the database refuses to unregister the flight,
    [remove_flight] raises what the database raised after the flight has
    left the package's list: the list is shorter, but the pilots and
    aircraft are not returned, the cargo keeps its transport, and
    [waypoints] is not reset even if the list is empty now. *)
Theorem remove_flight_unregister_fails `{Database}
    w self flight o fl contents e :
  packages w !! self = Some o ->
  flight ∈ flights o ->
  flight_objects w !! flight = Some fl ->
  databases w !! _db o = Some contents ->
  db_remove contents (id fl) = Raise e ->
  exists pre post,
    flights o = pre ++ flight :: post /\ (flight ∉ pre)
    /\ remove_flight self flight w
       = ({| packages := <[self := set_flights o (pre ++ post)]> (packages w);
             flight_objects := flight_objects w;
             databases := databases w;
             transports := transports w;
             returned := returned w |}, Raise e)
    /\ waypoints (set_flights o (pre ++ post)) = waypoints o.
Proof.
  intros Hself Hin Hfl Hdb Hrm.
  destruct (list_remove_spec flight (flights o) Hin)
    as (pre & post & Hsplit & Hpre & Hremove).
  exists pre, post. split; [exact Hsplit|]. split; [exact Hpre|].
  split; [|reflexivity]. unfold remove_flight.
  erewrite pkg_bind_ok by (apply get_package_ok; exact Hself).
  erewrite pkg_bind_ok by (unfold lift; rewrite Hremove; reflexivity).
  erewrite pkg_bind_ok by reflexivity.
  erewrite pkg_bind_ok by (apply get_flight_ok; exact Hfl).
  erewrite pkg_bind_raise
    by (eapply database_update_raises; [exact Hdb|exact Hrm]).
  reflexivity.
Qed.

(** X19. Adding a flight that the package does not have and removing it
    again gives back the flights list and every attribute of the package
    but [waypoints], which is reset when the package had no flight; the
    flight's pilots and aircraft are returned by the removal. *)
Theorem add_then_remove_flight `{Database}
    w self flight o fl contents contents1 contents2 :
  packages w !! self = Some o ->
  flight ∉ flights o ->
  flight_objects w !! flight = Some fl ->
  databases w !! _db o = Some contents ->
  db_add contents (id fl) flight = Ok contents1 ->
  db_remove contents1 (id fl) = Ok contents2 ->
  exists w1,
    add_flight self flight w = (w1, Ok tt)
    /\ remove_flight self flight w1
       = ({| packages :=
               <[self := match flights o with
                         | [] => set_waypoints o None
                         | _ :: _ => o
                         end]> (packages w);
             flight_objects := flight_objects w;
             databases := <[_db o := contents2]> (databases w);
             transports := match cargo fl with
                           | Some c => <[c := None]> (transports w)
                           | None => transports w
                           end;
             returned := returned w ++ [flight] |}, Ok tt).
Proof.
  intros Hself Habsent Hfl Hdb Hadd Hrm.
  eexists. split; [exact (add_flight_ok _ _ _ _ _ _ _ Hself Hfl Hdb Hadd)|].
  erewrite (remove_flight_ok _ self flight
              (set_flights o (flights o ++ [flight])) (flights o) fl
              contents1 contents2);
    [|cbn [packages]; apply lookup_insert_eq
     |cbn [flights set_flights]; now apply list_remove_app_last
     |exact Hfl
     |cbn [databases _db set_flights]; apply lookup_insert_eq
     |exact Hrm].
  cbn [packages flight_objects databases transports returned _db set_flights].
  rewrite !insert_insert_eq. f_equal. f_equal. f_equal.
  destruct o as [t d fr cn aa fs tot wp]. cbn. now destruct fs.
Qed.

(** *** [primary_flight] *)

Lemma first_of_type_some w task fs fls :
  Forall2 (fun f fl => flight_objects w !! f = Some fl) fs fls ->
  (exists fl, fl ∈ fls /\ flight_type fl = task) ->
  exists f pre post fl,
    first_of_type task fs fls = Some f
    /\ fs = pre ++ f :: post
    /\ flight_objects w !! f = Some fl
    /\ flight_type fl = task
    /\ forall g gl, g ∈ pre -> flight_objects w !! g = Some gl ->
                    flight_type gl <> task.
Proof.
  induction 1 as [|f fl fs fls Hf Hrest IH]; intros (fl0 & Hin & Ht).
  - now apply not_elem_of_nil in Hin.
  - simpl. case_bool_decide as E.
    + exists f, [], fs, fl. repeat split; try assumption.
      intros g gl Hg. now apply not_elem_of_nil in Hg.
    + apply elem_of_cons in Hin as [->|Hin]; [contradiction|].
      destruct IH as (f' & pre & post & fl' & Hfirst & -> & Hf' & Ht' & Hpre);
        [now exists fl0|].
      exists f', (f :: pre), post, fl'. repeat split; try assumption.
      intros g gl Hg Hgl. apply elem_of_cons in Hg as [->|Hg].
      * rewrite Hf in Hgl. injection Hgl as <-. exact E.
      * eapply Hpre; eauto.
Qed.

(** X20. [primary_flight] returns [None] exactly for a package without
    flights; otherwise it returns the first flight of the list whose type
    is the package's primary task. *)
Theorem primary_flight_leads w self o fls :
  packages w !! self = Some o ->
  Forall2 (fun f fl => flight_objects w !! f = Some fl) (flights o) fls ->
  exists r,
    primary_flight self w = (w, Ok r)
    /\ (r = None <-> flights o = [])
    /\ forall f, r = Some f ->
         exists task pre post fl,
           primary_task self w = (w, Ok (Some task))
           /\ flights o = pre ++ f :: post
           /\ flight_objects w !! f = Some fl
           /\ flight_type fl = task
           /\ forall g gl, g ∈ pre -> flight_objects w !! g = Some gl ->
                           flight_type gl <> task.
Proof.
  intros Hself Hfls. unfold primary_flight.
  rewrite (pkg_bind_ok _ _ _ _ _ (primary_task_run _ _ _ _ Hself Hfls)).
  pose proof (Forall2_length _ _ _ Hfls) as Hlen.
  destruct fls as [|first rest].
  { destruct (flights o); [|discriminate Hlen].
    exists None. split; [reflexivity|]. split; [tauto|discriminate]. }
  set (counts := fold_left count_flight (first :: rest) (fun _ => 0%nat)).
  set (task := match first_counted counts tasks_by_priority with
               | Some task => task
               | None => flight_type first
               end).
  assert (Htask : match first_counted counts tasks_by_priority with
                  | Some task => Some task
                  | None => Some (flight_type first)
                  end = Some task)
    by (subst task; now destruct (first_counted counts tasks_by_priority)).
  rewrite Htask.
  rewrite (pkg_bind_ok _ _ _ _ _ (get_package_ok _ _ _ Hself)).
  rewrite (pkg_bind_ok _ _ _ _ _ (get_flights_ok _ _ _ Hfls)).
  assert (Hsome : exists fl, fl ∈ first :: rest /\ flight_type fl = task).
  { subst task.
    destruct (first_counted counts tasks_by_priority) as [t|] eqn:E.
    - apply first_counted_some in E as (_ & _ & _ & Hc & _).
      now apply flight_counted in Hc.
    - exists first. split; [apply elem_of_cons; now left|reflexivity]. }
  destruct (first_of_type_some w task _ _ Hfls Hsome)
    as (f & pre & post & fl & Hfirst & Hsplit & Hf & Ht & Hpre).
  exists (Some f). split; [cbn; now rewrite Hfirst|]. split.
  - split; [discriminate|]. intros Hnil. rewrite Hnil in Hlen.
    discriminate Hlen.
  - intros f' [= <-]. exists task, pre, post, fl.
    split; [rewrite (primary_task_run _ _ _ _ Hself Hfls);
            do 2 f_equal; exact Htask|].
    repeat split; assumption.
Qed.

(** *** [clone_package] *)

(** X21. The package that [clone_package] makes has the target, the
    database, the [auto_asap] flag and the time over target of the
    original, but not its [custom_name], [frequency] and [waypoints], which
    are [None]; the original and every other package stay as they were. *)
Theorem clone_package_attributes `{Database} w pkg o :
  packages w !! pkg = Some o ->
  exists c,
    packages (fst (clone_package pkg w))
    = <[fresh (dom (packages w)) := c]> (packages w)
    /\ packages w !! fresh (dom (packages w)) = None
    /\ target c = target o
    /\ _db c = _db o
    /\ auto_asap c = auto_asap o
    /\ time_over_target c = time_over_target o
    /\ custom_name c = None
    /\ frequency c = None
    /\ waypoints c = None
    /\ packages (fst (clone_package pkg w)) !! pkg = Some o.
Proof.
  intros Hpkg.
  pose proof (not_elem_of_dom_1 _ _ (is_fresh (dom (packages w)))) as Hnew.
  unfold clone_package.
  erewrite pkg_bind_ok by (apply get_package_ok; exact Hpkg).
  erewrite pkg_bind_ok by reflexivity.
  set (clone := fresh (dom (packages w))) in *.
  erewrite pkg_bind_ok
    by (apply get_package_ok; cbn [packages fst put_package];
        apply lookup_insert_eq).
  erewrite pkg_bind_ok by reflexivity.
  match goal with
  | |- context [mbind _ (clone_flights clone (flights o)) ?w2] =>
      rewrite (pkg_bind_run (clone_flights clone (flights o)) _ w2);
      destruct (clone_flights_outcome clone (flights o) w2 _
                  (lookup_insert_eq _ clone _))
        as (news & Hpk & _);
      destruct (clone_flights clone (flights o) w2) as [w3 [[]|e]]
  end; unfold mret, M_ret;
    cbn [fst snd packages flight_objects put_package] in *;
    rewrite !insert_insert_eq in Hpk;
    (eexists; split; [exact Hpk|]); (split; [exact Hnew|]);
    cbn [target _db auto_asap time_over_target custom_name frequency
           waypoints flights set_flights set_time_over_target];
    (do 7 (split; [reflexivity|]));
    rewrite Hpk, lookup_insert_ne by congruence; exact Hpkg.
Qed.

(** *** Speed and times *)

Lemma py_min_spec x xs :
  py_min x xs ∈ x :: xs /\ forall y, y ∈ x :: xs -> py_min x xs <= y.
Proof.
  unfold py_min. revert x. induction xs as [|z xs IH]; intros x; simpl.
  - split; [apply elem_of_cons; now left|].
    intros y Hy. apply list_elem_of_singleton in Hy. lia.
  - destruct (IH (Z.min x z)) as [Hin Hle]. split.
    + apply elem_of_cons in Hin as [Hin|Hin].
      * rewrite Hin. destruct (Z.min_spec x z) as [[_ ->]|[_ ->]];
          rewrite !elem_of_cons; tauto.
      * rewrite !elem_of_cons. tauto.
    + intros y Hy.
      assert (Hmin : fold_left Z.min xs (Z.min x z) <= Z.min x z)
        by (apply Hle, elem_of_cons; now left).
      rewrite !elem_of_cons in Hy. destruct Hy as [->|[->|Hy]]; [lia|lia|].
      apply Hle, elem_of_cons. now right.
Qed.

Lemma py_max_spec x xs :
  py_max x xs ∈ x :: xs /\ forall y, y ∈ x :: xs -> y <= py_max x xs.
Proof.
  unfold py_max. revert x. induction xs as [|z xs IH]; intros x; simpl.
  - split; [apply elem_of_cons; now left|].
    intros y Hy. apply list_elem_of_singleton in Hy. lia.
  - destruct (IH (Z.max x z)) as [Hin Hle]. split.
    + apply elem_of_cons in Hin as [Hin|Hin].
      * rewrite Hin. destruct (Z.max_spec x z) as [[_ ->]|[_ ->]];
          rewrite !elem_of_cons; tauto.
      * rewrite !elem_of_cons. tauto.
    + intros y Hy.
      assert (Hmax : Z.max x z <= fold_left Z.max xs (Z.max x z))
        by (apply Hle, elem_of_cons; now left).
      rewrite !elem_of_cons in Hy. destruct Hy as [->|[->|Hy]]; [lia|lia|].
      apply Hle, elem_of_cons. now right.
Qed.

(** The least and the greatest of a list, [None] for the empty list. *)
Lemma least_of_list (l : list Z) :
  (match l with [] => None | t :: ts => Some (py_min t ts) end = None
   <-> l = [])
  /\ forall s,
       match l with [] => None | t :: ts => Some (py_min t ts) end = Some s ->
       s ∈ l /\ forall y, y ∈ l -> s <= y.
Proof.
  destruct l as [|t ts]; split; try easy.
  intros s [= <-]. apply py_min_spec.
Qed.

Lemma greatest_of_list (l : list Z) :
  (match l with [] => None | t :: ts => Some (py_max t ts) end = None
   <-> l = [])
  /\ forall s,
       match l with [] => None | t :: ts => Some (py_max t ts) end = Some s ->
       s ∈ l /\ forall y, y ∈ l -> y <= s.
Proof.
  destruct l as [|t ts]; split; try easy.
  intros s [= <-]. apply py_max_spec.
Qed.

Lemma omap_nil_iff {A B : Type} (f : A -> option B) (l : list A) :
  omap f l = [] <-> forall x, x ∈ l -> f x = None.
Proof.
  induction l as [|x l IH]; simpl.
  - split; [|reflexivity]. intros _ x Hx. now apply not_elem_of_nil in Hx.
  - destruct (f x) as [y|] eqn:E.
    + split; [discriminate|]. intros Hall.
      rewrite Hall in E by (apply elem_of_cons; now left). discriminate.
    + rewrite IH. split.
      * intros Hall y Hy. apply elem_of_cons in Hy as [->|Hy]; auto.
      * intros Hall y Hy. apply Hall, elem_of_cons. now right.
Qed.

Lemma formation_speeds_eq flights helo : forall speeds,
  formation_speeds flights helo speeds
  = speeds ++ omap (in_formation helo) flights.
Proof.
  induction flights as [|flight rest IH]; intros speeds; simpl.
  - now rewrite app_nil_r.
  - unfold in_formation at 1.
    destruct (is_formation (flight_plan flight)
              && bool_decide (is_helo flight = helo));
      rewrite IH; [now rewrite <- app_assoc|reflexivity].
Qed.

Lemma escort_start_times_eq flights : forall times,
  escort_start_times flights times = times ++ omap escort_requested flights.
Proof.
  induction flights as [|flight rest IH]; intros times; simpl.
  - now rewrite app_nil_r.
  - unfold escort_requested at 1.
    destruct (request_escort_at (flight_plan flight)) as [waypoint|]; simpl;
      [|apply IH].
    destruct (tot_for_waypoint (flight_plan flight) waypoint); rewrite IH;
      [now rewrite <- app_assoc|reflexivity].
Qed.

Lemma escort_end_times_eq flights : forall times,
  escort_end_times flights times = times ++ omap escort_dismissed flights.
Proof.
  induction flights as [|flight rest IH]; intros times; simpl.
  - now rewrite app_nil_r.
  - unfold escort_dismissed at 1.
    destruct (dismiss_escort_at (flight_plan flight)) as [waypoint|]; simpl;
      [|apply IH].
    destruct (tot_for_waypoint (flight_plan flight) waypoint);
      [rewrite IH; now rewrite <- app_assoc|].
    destruct (depart_time_for_waypoint (flight_plan flight) waypoint);
      rewrite IH; [now rewrite <- app_assoc|reflexivity].
Qed.

(** X22. [formation_speed] is [None] exactly when no flight of the asked
    kind (helicopter or not) has a formation flight plan; otherwise it is
    the formation speed of the slowest such flight.  Flights of the other
    kind and flights that do not fly in formation have no part in it. *)
Theorem formation_speed_slowest flights helo :
  (formation_speed flights helo = None
   <-> forall flight, flight ∈ flights ->
         is_formation (flight_plan flight) = false \/ is_helo flight <> helo)
  /\ forall s,
       formation_speed flights helo = Some s ->
       (exists flight,
           flight ∈ flights
           /\ is_formation (flight_plan flight) = true
           /\ is_helo flight = helo
           /\ best_flight_formation_speed (flight_plan flight) = s)
       /\ forall flight,
            flight ∈ flights ->
            is_formation (flight_plan flight) = true ->
            is_helo flight = helo ->
            s <= best_flight_formation_speed (flight_plan flight).
Proof.
  unfold formation_speed. rewrite formation_speeds_eq. cbn [app].
  destruct (least_of_list (omap (in_formation helo) flights)) as [Hnone Hsome].
  assert (Hin : forall flight s,
             in_formation helo flight = Some s
             <-> is_formation (flight_plan flight) = true
                 /\ is_helo flight = helo
                 /\ best_flight_formation_speed (flight_plan flight) = s).
  { intros flight s. unfold in_formation.
    destruct (is_formation (flight_plan flight)); cbn [andb];
      [case_bool_decide as Hh|];
      (split; [intros [= <-]; auto|intros (Hf & Hh' & Hs)]);
      try discriminate; congruence. }
  split.
  - rewrite Hnone, omap_nil_iff. split; intros Hall flight Hflight.
    + specialize (Hall flight Hflight).
      destruct (is_formation (flight_plan flight)) eqn:Hf; [|now left].
      right. intros Hh.
      assert (Hs : in_formation helo flight
                   = Some (best_flight_formation_speed (flight_plan flight)))
        by (apply Hin; auto).
      congruence.
    + destruct (in_formation helo flight) as [s|] eqn:E; [|reflexivity].
      apply Hin in E as (Hf & Hh & _).
      destruct (Hall flight Hflight); congruence.
  - intros s Hs. destruct (Hsome s Hs) as [Hmem Hle]. split.
    + apply list_elem_of_omap in Hmem as (flight & Hflight & E).
      apply Hin in E as (Hf & Hh & Hspeed). now exists flight.
    + intros flight Hflight Hf Hh. apply Hle, list_elem_of_omap.
      exists flight. split; [exact Hflight|]. apply Hin. auto.
Qed.

(** X23. [escort_start_time] is the earliest of the times at which flights
    request their escort, [escort_end_time] the latest of the times at
    which they dismiss it, where a dismissal waypoint without a TOT counts
    with its departure time; flights that name no waypoint, or a waypoint
    without a time, are skipped, and each property is [None] exactly when
    every flight is skipped.  [mission_departure_time] is the latest
    departure time of the flight plans, [None] without flights. *)
Theorem escort_window flights :
  ((escort_start_time flights = None
    <-> forall flight, flight ∈ flights -> escort_requested flight = None)
   /\ forall t, escort_start_time flights = Some t ->
        (exists flight, flight ∈ flights /\ escort_requested flight = Some t)
        /\ forall flight t', flight ∈ flights ->
             escort_requested flight = Some t' -> t <= t')
  /\ ((escort_end_time flights = None
       <-> forall flight, flight ∈ flights -> escort_dismissed flight = None)
      /\ forall t, escort_end_time flights = Some t ->
           (exists flight,
               flight ∈ flights /\ escort_dismissed flight = Some t)
           /\ forall flight t', flight ∈ flights ->
                escort_dismissed flight = Some t' -> t' <= t)
  /\ ((mission_departure_time flights = None <-> flights = [])
      /\ forall t, mission_departure_time flights = Some t ->
           (exists flight,
               flight ∈ flights
               /\ plan_departure_time (flight_plan flight) = t)
           /\ forall flight, flight ∈ flights ->
                plan_departure_time (flight_plan flight) <= t).
Proof.
  split; [|split].
  - unfold escort_start_time. rewrite escort_start_times_eq. cbn [app].
    destruct (least_of_list (omap escort_requested flights))
      as [Hnone Hsome].
    split; [now rewrite Hnone, omap_nil_iff|].
    intros t Ht. destruct (Hsome t Ht) as [Hmem Hle]. split.
    + apply list_elem_of_omap in Hmem as (flight & Hflight & E).
      now exists flight.
    + intros flight t' Hflight E. apply Hle, list_elem_of_omap.
      now exists flight.
  - unfold escort_end_time. rewrite escort_end_times_eq. cbn [app].
    destruct (greatest_of_list (omap escort_dismissed flights))
      as [Hnone Hsome].
    split; [now rewrite Hnone, omap_nil_iff|].
    intros t Ht. destruct (Hsome t Ht) as [Hmem Hle]. split.
    + apply list_elem_of_omap in Hmem as (flight & Hflight & E).
      now exists flight.
    + intros flight t' Hflight E. apply Hle, list_elem_of_omap.
      now exists flight.
  - unfold mission_departure_time.
    destruct (greatest_of_list
                (map (fun flight => plan_departure_time (flight_plan flight))
                   flights)) as [Hnone Hsome].
    split.
    + rewrite Hnone. split; [apply map_eq_nil|now intros ->].
    + intros t Ht. destruct (Hsome t Ht) as [Hmem Hle]. split.
      * apply list_elem_of_fmap in Hmem as (flight & -> & Hflight).
        now exists flight.
      * intros flight Hflight. apply Hle, list_elem_of_fmap.
        now exists flight.
Qed.

Lemma remove_flight_absent_raises_witness :
  @remove_flight strict_database 2 10 demo_world
  = (demo_world, Raise ValueError).
Proof.
  apply (@remove_flight_absent_raises strict_database demo_world 2 10
           demo_package_2); [reflexivity|].
  intros Hin. apply list_elem_of_In in Hin. simpl in Hin.
  destruct Hin as [Hin|[]]. discriminate Hin.
Defined.

Lemma remove_flight_unregister_fails_witness :
  exists pre post,
    flights demo_package_2 = pre ++ 13 :: post /\ (13 ∉ pre)
    /\ @remove_flight strict_database 2 13 unregistered_world
       = ({| packages :=
               <[2 := set_flights demo_package_2 (pre ++ post)]>
                 (packages unregistered_world);
             flight_objects := flight_objects unregistered_world;
             databases := databases unregistered_world;
             transports := transports unregistered_world;
             returned := returned unregistered_world |}, Raise KeyError)
    /\ waypoints (set_flights demo_package_2 (pre ++ post))
       = waypoints demo_package_2.
Proof.
  apply (@remove_flight_unregister_fails strict_database unregistered_world
           2 13 demo_package_2 demo_flight_13 ∅ KeyError);
    try reflexivity.
  apply list_elem_of_In. simpl. tauto.
Defined.

Lemma add_then_remove_flight_witness :
  exists w1,
    @add_flight lenient_database 3 13 demo_world = (w1, Ok tt)
    /\ packages (fst (@remove_flight lenient_database 3 13 w1)) !! 3
       = Some demo_package_3
    /\ returned (fst (@remove_flight lenient_database 3 13 w1)) = [13].
Proof.
  destruct (@add_then_remove_flight lenient_database demo_world 3 13
              demo_package_3 demo_flight_13
              (list_to_map [(110, 10); (111, 11); (112, 12); (113, 13)])
              (<[113 := 13]>
                 (list_to_map [(110, 10); (111, 11); (112, 12); (113, 13)]))
              (delete 113
                 (<[113 := 13]>
                    (list_to_map
                       [(110, 10); (111, 11); (112, 12); (113, 13)]))))
    as (w1 & Hadd & Hremove); try reflexivity.
  - intros Hin. now apply not_elem_of_nil in Hin.
  - exists w1. split; [exact Hadd|]. rewrite Hremove.
    split; [|reflexivity]. cbn [fst packages flights demo_package_3].
    apply lookup_insert_eq.
Defined.

Lemma primary_flight_leads_witness :
  exists r,
    primary_flight 1 demo_world = (demo_world, Ok r)
    /\ (r = None <-> flights demo_package_1 = []).
Proof.
  destruct (primary_flight_leads demo_world 1 demo_package_1
              [demo_flight_11; demo_flight_10; demo_flight_12])
    as (r & Hrun & Hnone & _).
  - reflexivity.
  - exact demo_package_1_flights.
  - now exists r.
Defined.

Lemma clone_package_attributes_witness :
  exists c,
    packages (fst (@clone_package strict_database 1 demo_world))
    = <[fresh (dom (packages demo_world)) := c]> (packages demo_world)
    /\ packages demo_world !! fresh (dom (packages demo_world)) = None
    /\ target c = target demo_package_1
    /\ _db c = _db demo_package_1
    /\ auto_asap c = auto_asap demo_package_1
    /\ time_over_target c = time_over_target demo_package_1
    /\ custom_name c = None
    /\ frequency c = None
    /\ waypoints c = None
    /\ packages (fst (@clone_package strict_database 1 demo_world)) !! 1
       = Some demo_package_1.
Proof.
  apply (@clone_package_attributes strict_database demo_world 1
           demo_package_1).
  reflexivity.
Defined.

End PkgMoreFacts.

(** * Facts about the waypoint routes (routes.py) *)

Module RoutesFacts.
Import Pkg PkgPlans Routes.

Lemma sm_bind_returns {A B : Type} (m : SM A) (k : A -> SM B) s a s' :
  m s = (s', Returns a) -> (v ← m; k v) s = k a s'.
Proof. intros Hm. unfold mbind, SM_bind. now rewrite Hm. Qed.

Lemma sm_bind_fails {A B : Type} (m : SM A) (k : A -> SM B) s e s' :
  m s = (s', Fails e) -> (v ← m; k v) s = (s', Fails e).
Proof. intros Hm. unfold mbind, SM_bind. now rewrite Hm. Qed.

Lemma lift_world_reads {A : Type} (m : M A) s a :
  m (world s) = (world s, Ok a) -> lift_world m s = (s, Returns a).
Proof. intros Hm. unfold lift_world. rewrite Hm. now destruct s. Qed.

Lemma set_waypoint_objects_same s :
  set_waypoint_objects s (waypoint_objects s) = s.
Proof. now destruct s. Qed.

Lemma get_flight_reads s f fl :
  flight_objects (world s) !! f = Some fl ->
  lift_world (get_flight f) s = (s, Returns fl).
Proof.
  intros Hf. apply lift_world_reads. unfold get_flight. now rewrite Hf.
Qed.

Lemma get_package_reads s p o :
  packages (world s) !! p = Some o ->
  lift_world (get_package p) s = (s, Returns o).
Proof.
  intros Hp. apply lift_world_reads. unfold get_package. now rewrite Hp.
Qed.

(** *** The index of a listed waypoint *)

Lemma listed_lookup flight ws : forall start (n : nat) entry,
  listed flight start ws !! n = Some entry ->
  exists w,
    ws !! n = Some w
    /\ entry = {| for_waypoint := Planned w; for_flight := flight;
                  idx := start + Z.of_nat n |}.
Proof.
  induction ws as [|w ws IH]; intros start n entry Hn; [discriminate|].
  destruct n as [|n]; simpl in Hn.
  - injection Hn as <-. exists w. split; [reflexivity|].
    now rewrite Z.add_0_r.
  - destruct (IH _ _ _ Hn) as (w' & Hw' & ->). exists w'.
    split; [exact Hw'|]. f_equal. lia.
Qed.

Lemma listed_length flight ws : forall start,
  length (listed flight start ws) = length ws.
Proof.
  induction ws as [|w ws IH]; intros start; simpl; [reflexivity|].
  now rewrite IH.
Qed.

Section HandlerFacts.
Context `{Services}.

Lemma indexed_waypoint_positive s flight ws (n : nat) w :
  flight_waypoints s !! flight = Some ws ->
  ws !! n = Some w ->
  indexed_waypoint flight (1 + Z.of_nat n) s = (s, Returns w).
Proof.
  intros Hws Hw. unfold indexed_waypoint.
  destruct (Z.eqb_spec (1 + Z.of_nat n) (0)) as [E|E]; [lia|].
  erewrite sm_bind_returns
    by (unfold get_flight_waypoints; rewrite Hws; reflexivity).
  unfold py_index. replace (1 + Z.of_nat n - 1) with (Z.of_nat n) by lia.
  destruct (Z.leb_spec (0) (Z.of_nat n)) as [E'|E']; [|lia].
  now rewrite Nat2Z.id, Hw.
Qed.

(** X24. [waypoints_for_flight] lists a takeoff waypoint made for the
    occasion at index 0 and then the waypoints of the flight plan, numbered
    from 1 in their order.  The index of a listed waypoint of the plan is
    the index under which [set_position] finds that very waypoint; the
    index of the takeoff entry is the one [set_position] refuses with
    403. *)
Theorem listed_index_selects s flight fl ws :
  flight_objects (world s) !! flight = Some fl ->
  flight_waypoints s !! flight = Some ws ->
  exists js,
    waypoints_for_flight flight s = (s, Returns js)
    /\ length js = S (length ws)
    /\ forall (n : nat) entry,
         js !! n = Some entry ->
         idx entry = Z.of_nat n
         /\ for_flight entry = flight
         /\ match for_waypoint entry with
            | Synthetic takeoff =>
                n = 0%nat
                /\ waypoint_type takeoff = TAKEOFF
                /\ indexed_waypoint flight (idx entry) s
                   = (s, Fails (HTTPException 403))
            | Planned w =>
                ws !! pred n = Some w
                /\ indexed_waypoint flight (idx entry) s = (s, Returns w)
            end.
Proof.
  intros Hfl Hws. unfold waypoints_for_flight.
  rewrite (sm_bind_returns _ _ _ _ _ (get_flight_reads _ _ _ Hfl)).
  erewrite sm_bind_returns
    by (unfold get_flight_waypoints; rewrite Hws; reflexivity).
  eexists. split; [reflexivity|]. split.
  - simpl. now rewrite listed_length.
  - intros n entry Hn. destruct n as [|n]; simpl in Hn.
    + injection Hn as <-. simpl. repeat split.
    + destruct (listed_lookup _ _ _ _ _ Hn) as (w & Hw & ->). simpl.
      split; [lia|]. split; [reflexivity|]. split; [exact Hw|].
      now apply (indexed_waypoint_positive s flight ws).
Qed.

(** X25. [set_position] with index 0 fails with 403 and with another index
    beyond the list with [IndexError], and changes nothing then.  A
    negative index is not refused: it counts from the end of the list, one
    further than Python's own, so that index -1 moves the waypoint before
    the last.  When the flight's package has no package model, the call
    fails with 404 after the waypoint has been moved. *)
Theorem set_position_outcomes s flight fl ws waypoint_idx lat lng :
  flight_objects (world s) !! flight = Some fl ->
  flight_waypoints s !! flight = Some ws ->
  (waypoint_idx = 0 ->
   set_position flight waypoint_idx lat lng s
   = (s, Fails (HTTPException 403)))
  /\ (waypoint_idx <> 0 ->
      Z.of_nat (length ws) < waypoint_idx
      \/ waypoint_idx < 1 - Z.of_nat (length ws) ->
      set_position flight waypoint_idx lat lng s
      = (s, Fails (Exception IndexError)))
  /\ (forall w o,
        (1 <= waypoint_idx /\ ws !! Z.to_nat (waypoint_idx - 1) = Some w)
        \/ (waypoint_idx <= -1
            /\ 1 - Z.of_nat (length ws) <= waypoint_idx
            /\ ws !! Z.to_nat (Z.of_nat (length ws) + waypoint_idx - 1)
               = Some w) ->
        waypoint_objects s !! w = Some o ->
        find_matching_package_model
          (set_waypoint_objects s
             (<[w := moved_to (from_latlng lat lng) o]> (waypoint_objects s)))
          (package fl) = None ->
        set_position flight waypoint_idx lat lng s
        = (set_waypoint_objects s
             (<[w := moved_to (from_latlng lat lng) o]> (waypoint_objects s)),
           Fails (HTTPException 404))).
Proof.
  intros Hfl Hws. split; [|split].
  - intros ->. reflexivity.
  - intros Hnonzero Hrange. unfold set_position.
    erewrite sm_bind_fails; [reflexivity|].
    unfold indexed_waypoint.
    destruct (Z.eqb_spec (waypoint_idx) (0)) as [E|E]; [lia|].
    erewrite sm_bind_returns
      by (unfold get_flight_waypoints; rewrite Hws; reflexivity).
    unfold py_index.
    destruct (Z.leb_spec (0) (waypoint_idx - 1)) as [E1|E1].
    + rewrite lookup_ge_None_2 by lia. reflexivity.
    + destruct (Z.leb_spec (- Z.of_nat (length ws)) (waypoint_idx - 1))
        as [E2|E2]; [lia|].
      reflexivity.
  - intros w o Hw Ho Hmodel. unfold set_position.
    assert (Hsel : indexed_waypoint flight waypoint_idx s = (s, Returns w)).
    { unfold indexed_waypoint.
      destruct (Z.eqb_spec (waypoint_idx) (0)) as [E|E]; [lia|].
      erewrite sm_bind_returns
        by (unfold get_flight_waypoints; rewrite Hws; reflexivity).
      unfold py_index.
      destruct Hw as [[Hpos Hw]|(Hneg & Hlow & Hw)].
      - destruct (Z.leb_spec (0) (waypoint_idx - 1)) as [E1|E1]; [|lia].
        now rewrite Hw.
      - destruct (Z.leb_spec (0) (waypoint_idx - 1)) as [E1|E1]; [lia|].
        destruct (Z.leb_spec (- Z.of_nat (length ws)) (waypoint_idx - 1))
          as [E2|E2]; [|lia].
        replace (Z.of_nat (length ws) + (waypoint_idx - 1))
          with (Z.of_nat (length ws) + waypoint_idx - 1) by lia.
        now rewrite Hw. }
    rewrite (sm_bind_returns _ _ _ _ _ Hsel).
    erewrite sm_bind_returns
      by (unfold set_position_of; rewrite Ho; reflexivity).
    erewrite sm_bind_returns by (apply get_flight_reads; exact Hfl).
    erewrite sm_bind_returns by reflexivity.
    rewrite Hmodel. reflexivity.
Qed.

(** *** Moving the waypoints of a package *)

Lemma moved_to_same (o : FlightWaypoint) :
  moved_to {| x := x (position o); y := y (position o) |} o = o.
Proof. destruct o as [t [px py]]. reflexivity. Qed.

Lemma point_eta (p : Point) : {| x := x p; y := y p |} = p.
Proof. now destruct p. Qed.

Lemma insert_moved (objects : gmap Z FlightWaypoint) w o p :
  objects !! w = Some o ->
  <[w := moved_to p o]> objects = alter (moved_to p) w objects.
Proof.
  intros Ho. apply map_eq. intros w'.
  destruct (decide (w' = w)) as [->|Hne].
  - now rewrite lookup_insert_eq, lookup_alter_eq, Ho.
  - now rewrite lookup_insert_ne, lookup_alter_ne by congruence.
Qed.

Lemma first_on_leg_alter (objects : gmap Z FlightWaypoint) t p w wpts :
  first_on_leg (alter (moved_to p) w objects) t wpts
  = first_on_leg objects t wpts.
Proof.
  induction wpts as [|wpt rest IH]; [reflexivity|]. simpl.
  destruct (decide (wpt = w)) as [->|Hne].
  - rewrite lookup_alter_eq. destruct (objects !! w) as [o|]; simpl;
      [|reflexivity].
    now rewrite IH.
  - rewrite lookup_alter_ne by congruence. now rewrite IH.
Qed.

Lemma move_first_match_run s waypoint f wpts events moved :
  waypoint_objects s !! waypoint = Some moved ->
  (forall w, w ∈ wpts -> is_Some (waypoint_objects s !! w)) ->
  move_first_match waypoint f wpts events s
  = match first_on_leg (waypoint_objects s) (waypoint_type moved) wpts with
    | Some wpt =>
        (set_waypoint_objects s
           (alter (moved_to (position moved)) wpt (waypoint_objects s)),
         Returns (events ++ [f]))
    | None => (s, Returns events)
    end.
Proof.
  intros Hmoved. induction wpts as [|wpt rest IH]; intros Hrefs;
    [reflexivity|].
  destruct (Hrefs wpt) as [o Ho]; [apply elem_of_cons; now left|].
  cbn [move_first_match first_on_leg]. rewrite Ho.
  erewrite sm_bind_returns by (unfold get_waypoint; rewrite Ho; reflexivity).
  erewrite sm_bind_returns
    by (unfold get_waypoint; rewrite Hmoved; reflexivity).
  destruct (same_leg (waypoint_type moved) (waypoint_type o)).
  - erewrite sm_bind_returns
      by (unfold set_position_of; rewrite Ho; reflexivity).
    rewrite point_eta, (insert_moved _ _ _ _ Ho). reflexivity.
  - apply IH. intros w Hw. apply Hrefs, elem_of_cons. now right.
Qed.

Lemma omap_ext_fun {A B : Type} (f g : A -> option B) (l : list A) :
  (forall a, f a = g a) -> omap f l = omap g l.
Proof.
  intros Hfg. induction l as [|a l IH]; [reflexivity|].
  cbn [omap list_omap]. now rewrite Hfg, IH.
Qed.

Lemma follower_alter s t flight f p w :
  follower (set_waypoint_objects s
              (alter (moved_to p) w (waypoint_objects s))) t flight f
  = follower s t flight f.
Proof.
  unfold follower. case_bool_decide; [reflexivity|].
  cbn [iter_waypoints waypoint_objects set_waypoint_objects].
  destruct (iter_waypoints s !! f) as [wpts|]; [|reflexivity]. simpl.
  apply first_on_leg_alter.
Qed.

(** The flights lists are run through with the objects as they are found:
    the result is the objects after moving, one after the other, the
    follower of each flight. *)
Lemma update_flights_run waypoint flight fs : forall s events moved,
  waypoint_objects s !! waypoint = Some moved ->
  (forall f, f ∈ fs -> f <> flight ->
     exists wpts,
       iter_waypoints s !! f = Some wpts
       /\ forall w, w ∈ wpts -> is_Some (waypoint_objects s !! w)) ->
  update_flights waypoint flight fs events s
  = (set_waypoint_objects s
       (foldl (fun objects w => alter (moved_to (position moved)) w objects)
          (waypoint_objects s)
          (omap (follower s (waypoint_type moved) flight) fs)),
     Returns
       (events
        ++ filter (fun f => is_Some (follower s (waypoint_type moved) flight f))
             fs)).
Proof.
  induction fs as [|f rest IH]; intros s events moved Hmoved Hrefs.
  - cbn. now rewrite set_waypoint_objects_same, app_nil_r.
  - assert (Hrest : forall f', f' ∈ rest -> f' <> flight ->
               exists wpts,
                 iter_waypoints s !! f' = Some wpts
                 /\ forall w, w ∈ wpts -> is_Some (waypoint_objects s !! w))
      by (intros f' Hf'; apply Hrefs, elem_of_cons; now right).
    cbn [update_flights omap list_omap]. rewrite filter_cons.
    destruct (decide (f = flight)) as [Hf|Hf].
    + assert (Hfol : follower s (waypoint_type moved) flight f = None)
        by (unfold follower; now rewrite bool_decide_eq_true_2).
      rewrite Hfol, bool_decide_eq_true_2 by exact Hf.
      rewrite decide_False by (intros [? ?]; discriminate).
      now apply IH.
    + destruct (Hrefs f) as (wpts & Hwpts & Hin);
        [apply elem_of_cons; now left|exact Hf|].
      assert (Hfol : follower s (waypoint_type moved) flight f
                     = first_on_leg (waypoint_objects s) (waypoint_type moved)
                         wpts)
        by (unfold follower;
            now rewrite bool_decide_eq_false_2, Hwpts by exact Hf).
      rewrite Hfol, bool_decide_eq_false_2 by exact Hf.
      erewrite sm_bind_returns
        by (unfold get_iter_waypoints; rewrite Hwpts; reflexivity).
      unfold mbind at 1, SM_bind at 1.
      rewrite (move_first_match_run s waypoint f wpts events moved Hmoved Hin).
      destruct (first_on_leg (waypoint_objects s) (waypoint_type moved) wpts)
        as [wpt|] eqn:Hfirst.
      * rewrite decide_True by eauto.
        set (s1 := set_waypoint_objects s
                     (alter (moved_to (position moved)) wpt
                        (waypoint_objects s))).
        assert (Hmoved1 : waypoint_objects s1 !! waypoint = Some moved).
        { subst s1. cbn [waypoint_objects set_waypoint_objects].
          destruct (decide (waypoint = wpt)) as [->|Hne].
          - rewrite lookup_alter_eq, Hmoved. simpl. f_equal.
            now destruct moved.
          - now rewrite lookup_alter_ne by congruence. }
        rewrite (IH s1 (events ++ [f]) moved Hmoved1).
        -- cbn [foldl]. subst s1.
           cbn [waypoint_objects set_waypoint_objects]. f_equal.
           ++ unfold set_waypoint_objects.
              cbn [world waypoint_objects flight_waypoints iter_waypoints
                     package_waypoints event_stream].
              f_equal. f_equal. apply omap_ext_fun.
              intros f'. apply follower_alter.
           ++ rewrite <- app_assoc. cbn [app]. do 3 f_equal.
              apply list_filter_iff. intros f'.
              now rewrite follower_alter.
        -- intros f' Hf' Hne'.
           destruct (Hrest f' Hf' Hne') as (ws & Hws & Hall).
           exists ws. split; [exact Hws|]. intros w Hw. subst s1.
           cbn [waypoint_objects set_waypoint_objects].
           destruct (decide (w = wpt)) as [->|Hw'].
           ++ rewrite lookup_alter_eq. destruct (Hall wpt Hw) as [o ->].
              simpl. eauto.
           ++ rewrite lookup_alter_ne by congruence. now apply Hall.
      * rewrite decide_False by (intros [? ?]; discriminate).
        now apply IH.
Qed.

Lemma foldl_moved_lookup p targets : forall (objects : gmap Z FlightWaypoint) w,
  foldl (fun objects w => alter (moved_to p) w objects) objects targets !! w
  = if bool_decide (w ∈ targets) then moved_to p <$> objects !! w
    else objects !! w.
Proof.
  induction targets as [|t targets IH]; intros objects w; [reflexivity|].
  cbn [foldl]. rewrite IH.
  destruct (decide (w = t)) as [->|Hne].
  - rewrite lookup_alter_eq.
    rewrite (bool_decide_eq_true_2 (t ∈ t :: targets))
      by (apply elem_of_cons; now left).
    destruct (objects !! t) as [o|]; simpl; now case_bool_decide.
  - rewrite lookup_alter_ne by congruence.
    destruct (decide (w ∈ targets)) as [Hin|Hin].
    + rewrite !bool_decide_eq_true_2;
        [reflexivity|apply elem_of_cons; now right|exact Hin].
    + rewrite !bool_decide_eq_false_2; [reflexivity| |exact Hin].
      intros [?|?]%elem_of_cons; contradiction.
Qed.

(** X26. [update_package_waypoints_if_primary_flight] changes nothing and
    reports no flight when the flight is not the primary flight of its
    package, when the package has no waypoints, or when the moved waypoint
    is neither a join, split or refuel point nor an ingress point. *)
Theorem other_waypoints_move_nothing s waypoint flight events fl o primary :
  flight_objects (world s) !! flight = Some fl ->
  packages (world s) !! package fl = Some o ->
  primary_flight (package fl) (world s) = (world s, Ok primary) ->
  primary <> Some flight
  \/ waypoints o = None
  \/ (exists r old moved,
        waypoints o = Some r
        /\ package_waypoints s !! r = Some old
        /\ waypoint_objects s !! waypoint = Some moved
        /\ (waypoint_type moved = TAKEOFF
            \/ exists n, waypoint_type moved = OtherWaypointType n)) ->
  update_package_waypoints_if_primary_flight waypoint flight events s
  = (s, Returns events).
Proof.
  intros Hfl Ho Hprimary Hcase.
  unfold update_package_waypoints_if_primary_flight.
  rewrite (sm_bind_returns _ _ _ _ _ (get_flight_reads _ _ _ Hfl)).
  rewrite (sm_bind_returns _ _ _ _ _ (get_package_reads _ _ _ Ho)).
  rewrite (sm_bind_returns _ _ _ _ _ (lift_world_reads _ _ _ Hprimary)).
  case_bool_decide as Hp; [|reflexivity].
  destruct Hcase as [Hne|[Hnone|(r & old & moved & Hr & Hold & Hmoved & Ht)]].
  - contradiction.
  - now rewrite Hnone.
  - rewrite Hr.
    erewrite sm_bind_returns
      by (unfold get_waypoint; rewrite Hmoved; reflexivity).
    erewrite sm_bind_returns
      by (unfold get_package_waypoints; rewrite Hold; reflexivity).
    destruct Ht as [->|[n ->]]; reflexivity.
Qed.

(** X27. When the primary flight of a package with waypoints moves its
    join, split, refuel or ingress point, the attribute of the package's
    waypoints for that kind of point is the waypoint's position afterwards
    (for an ingress point also [initial], the initial point computed from
    it and the target), and the other attributes are as before; in every
    other flight of the package the first waypoint of the same kind, and
    only that one, is moved to the same position; the flights that have
    such a waypoint are reported as updated, in the order of the package's
    list.  No waypoint changes its type, and the world of packages and
    flights stays. *)
Theorem primary_flight_moves_followers
    s waypoint flight events fl o r old moved :
  flight_objects (world s) !! flight = Some fl ->
  packages (world s) !! package fl = Some o ->
  primary_flight (package fl) (world s) = (world s, Ok (Some flight)) ->
  waypoints o = Some r ->
  package_waypoints s !! r = Some old ->
  waypoint_objects s !! waypoint = Some moved ->
  waypoint_type moved = JOIN \/ waypoint_type moved = SPLIT
  \/ waypoint_type moved = REFUEL
  \/ ingress_in_name (waypoint_type moved) = true ->
  (forall f, f ∈ flights o -> f <> flight ->
     exists wpts,
       iter_waypoints s !! f = Some wpts
       /\ forall w, w ∈ wpts -> is_Some (waypoint_objects s !! w)) ->
  exists s' events' new,
    update_package_waypoints_if_primary_flight waypoint flight events s
    = (s', Returns events')
    /\ world s' = world s
    /\ package_waypoints s' = <[r := new]> (package_waypoints s)
    /\ join new
       = (if bool_decide (waypoint_type moved = JOIN)
          then Some (position moved) else join old)
    /\ split new
       = (if bool_decide (waypoint_type moved = SPLIT)
          then Some (position moved) else split old)
    /\ refuel new
       = (if bool_decide (waypoint_type moved = REFUEL)
          then Some (position moved) else refuel old)
    /\ ingress new
       = (if ingress_in_name (waypoint_type moved)
          then Some (position moved) else ingress old)
    /\ initial new
       = (if ingress_in_name (waypoint_type moved)
          then Some (get_initial_point (position moved)
                       (target_position (target o)))
          else initial old)
    /\ (forall f w,
          f ∈ flights o ->
          follower s (waypoint_type moved) flight f = Some w ->
          waypoint_objects s' !! w
          = moved_to (position moved) <$> waypoint_objects s !! w)
    /\ (forall w,
          (forall f, f ∈ flights o ->
                     follower s (waypoint_type moved) flight f <> Some w) ->
          waypoint_objects s' !! w = waypoint_objects s !! w)
    /\ (forall w, waypoint_type <$> waypoint_objects s' !! w
                  = waypoint_type <$> waypoint_objects s !! w)
    /\ events'
       = events
         ++ filter
              (fun f => is_Some (follower s (waypoint_type moved) flight f))
              (flights o).
Proof.
  intros Hfl Ho Hprimary Hr Hold Hmoved Htype Hrefs.
  assert (Hnew : exists new,
             moved_package_waypoints (waypoint_type moved) (position moved)
               (target_position (target o)) old = Some new
             /\ join new
                = (if bool_decide (waypoint_type moved = JOIN)
                   then Some (position moved) else join old)
             /\ split new
                = (if bool_decide (waypoint_type moved = SPLIT)
                   then Some (position moved) else split old)
             /\ refuel new
                = (if bool_decide (waypoint_type moved = REFUEL)
                   then Some (position moved) else refuel old)
             /\ ingress new
                = (if ingress_in_name (waypoint_type moved)
                   then Some (position moved) else ingress old)
             /\ initial new
                = (if ingress_in_name (waypoint_type moved)
                   then Some (get_initial_point (position moved)
                                (target_position (target o)))
                   else initial old)).
  { destruct (waypoint_type moved) as [| | | |mission|n];
      destruct Htype as [Ht|[Ht|[Ht|Ht]]]; try discriminate Ht;
      (eexists; split; [reflexivity|]);
      repeat (split; [reflexivity|]); reflexivity. }
  destruct Hnew as (new & Hnew & Hjoin & Hsplit & Hrefuel & Hingress & Hinit).
  unfold update_package_waypoints_if_primary_flight.
  rewrite (sm_bind_returns _ _ _ _ _ (get_flight_reads _ _ _ Hfl)).
  rewrite (sm_bind_returns _ _ _ _ _ (get_package_reads _ _ _ Ho)).
  rewrite (sm_bind_returns _ _ _ _ _ (lift_world_reads _ _ _ Hprimary)).
  rewrite bool_decide_eq_true_2 by reflexivity. rewrite Hr.
  erewrite sm_bind_returns
    by (unfold get_waypoint; rewrite Hmoved; reflexivity).
  erewrite sm_bind_returns
    by (unfold get_package_waypoints; rewrite Hold; reflexivity).
  rewrite Hnew.
  erewrite sm_bind_returns by reflexivity.
  set (s2 := {| world := world s;
                waypoint_objects := waypoint_objects s;
                flight_waypoints := flight_waypoints s;
                iter_waypoints := iter_waypoints s;
                package_waypoints := <[r := new]> (package_waypoints s);
                event_stream := event_stream s |}).
  erewrite sm_bind_returns by (apply get_package_reads; exact Ho).
  rewrite (update_flights_run waypoint flight (flights o) s2 events moved
             Hmoved Hrefs).
  assert (Hfol : forall f, follower s2 (waypoint_type moved) flight f
                           = follower s (waypoint_type moved) flight f)
    by reflexivity.
  eexists _, _, new. split; [reflexivity|].
  cbn [world package_waypoints waypoint_objects set_waypoint_objects s2].
  split; [reflexivity|]. split; [reflexivity|].
  split; [exact Hjoin|]. split; [exact Hsplit|]. split; [exact Hrefuel|].
  split; [exact Hingress|]. split; [exact Hinit|].
  rewrite (omap_ext_fun _ _ _ Hfol).
  split; [|split; [|split]].
  - intros f w Hf Hw. rewrite foldl_moved_lookup.
    rewrite bool_decide_eq_true_2; [reflexivity|].
    apply list_elem_of_omap. now exists f.
  - intros w Hnone. rewrite foldl_moved_lookup.
    rewrite bool_decide_eq_false_2; [reflexivity|].
    intros (f & Hf & Hw)%list_elem_of_omap. now apply (Hnone f).
  - intros w. rewrite foldl_moved_lookup.
    destruct (bool_decide
                (w ∈ omap (follower s (waypoint_type moved) flight)
                       (flights o))); [|reflexivity].
    now destruct (waypoint_objects s !! w).
  - reflexivity.
Qed.

End HandlerFacts.

Lemma listed_index_selects_witness :
  exists js,
    @waypoints_for_flight demo_services 10 demo_server
    = (demo_server, Returns js)
    /\ length js = 4%nat.
Proof.
  destruct (@listed_index_selects demo_services demo_server 10 demo_flight_10
              [40; 41; 42]) as (js & Hrun & Hlen & _); try reflexivity.
  now exists js.
Defined.

Lemma set_position_outcomes_witness :
  @set_position demo_services 10 0 7 7 demo_server
  = (demo_server, Fails (HTTPException 403))
  /\ @set_position demo_services 10 4 7 7 demo_server
     = (demo_server, Fails (Exception IndexError))
  /\ @set_position demo_services 13 (-3) 7 7 demo_server
     = (demo_server, Fails (Exception IndexError)).
Proof.
  destruct (@set_position_outcomes demo_services demo_server 10 demo_flight_10
              [40; 41; 42] 0 7 7 eq_refl eq_refl) as (Hzero & _).
  destruct (@set_position_outcomes demo_services demo_server 10 demo_flight_10
              [40; 41; 42] 4 7 7 eq_refl eq_refl) as (_ & Hbeyond & _).
  destruct (@set_position_outcomes demo_services demo_server 13 demo_flight_13
              [] (-3) 7 7 eq_refl eq_refl) as (_ & Hbefore & _).
  split; [now apply Hzero|]. split.
  - apply Hbeyond; [lia|]. left. simpl. lia.
  - apply Hbefore; [lia|]. right. simpl. lia.
Defined.

Lemma other_waypoints_move_nothing_witness :
  @update_package_waypoints_if_primary_flight demo_services 50 11 []
    demo_server
  = (demo_server, Returns []).
Proof.
  apply (@other_waypoints_move_nothing demo_services demo_server 50 11 []
           demo_flight_11 demo_package_1 (Some 10)); try reflexivity.
  left. discriminate.
Defined.

Lemma primary_flight_moves_followers_witness :
  exists s' events',
    @update_package_waypoints_if_primary_flight demo_services 40 10 []
      demo_server
    = (s', Returns events')
    /\ package_waypoints demo_server !! 77
       = Some {| join := Some {| x := 10; y := 10 |};
                 ingress := Some {| x := 20; y := 20 |};
                 initial := Some {| x := 10; y := 10 |};
                 split := Some {| x := 30; y := 30 |};
                 refuel := None |}
    /\ package_waypoints s' !! 77
       = Some {| join := Some {| x := 12; y := 13 |};
                 ingress := Some {| x := 20; y := 20 |};
                 initial := Some {| x := 10; y := 10 |};
                 split := Some {| x := 30; y := 30 |};
                 refuel := None |}
    /\ position <$> waypoint_objects demo_server !! 50
       = Some {| x := 11; y := 11 |}
    /\ position <$> waypoint_objects s' !! 50 = Some {| x := 12; y := 13 |}
    /\ waypoint_objects s' !! 51 = waypoint_objects demo_server !! 51
    /\ events' = [11].
Proof.
  destruct (@primary_flight_moves_followers demo_services demo_server 40 10 []
              demo_flight_10 demo_package_1 77
              {| join := Some {| x := 10; y := 10 |};
                 ingress := Some {| x := 20; y := 20 |};
                 initial := Some {| x := 10; y := 10 |};
                 split := Some {| x := 30; y := 30 |};
                 refuel := None |}
              {| waypoint_type := JOIN; position := {| x := 12; y := 13 |} |})
    as (s' & events' & new & Hrun & _ & Hpw & Hjoin & Hsplit & Hrefuel
        & Hingress & Hinit & Hmove & Hkeep & _ & Hevents);
    try reflexivity.
  - now left.
  - intros f Hf Hne. apply list_elem_of_In in Hf. simpl in Hf.
    destruct Hf as [<-|[<-|[<-|[]]]]; [|congruence|];
      (eexists; split; [reflexivity|]);
      intros w Hw; apply list_elem_of_In in Hw; simpl in Hw;
      repeat (destruct Hw as [<-|Hw]; [vm_compute; eauto|]);
      destruct Hw.
  - exists s', events'. split; [exact Hrun|]. split; [reflexivity|].
    split; [|split; [reflexivity|split; [|split]]].
    + rewrite Hpw, lookup_insert_eq. f_equal.
      destruct new as [nj ni nin ns nr].
      cbn in Hjoin, Hsplit, Hrefuel, Hingress, Hinit. now subst.
    + rewrite (Hmove 11 50); [reflexivity| |reflexivity].
      apply list_elem_of_In. simpl. tauto.
    + apply Hkeep. intros f Hf. apply list_elem_of_In in Hf. simpl in Hf.
      destruct Hf as [<-|[<-|[<-|[]]]]; vm_compute; discriminate.
    + rewrite Hevents. reflexivity.
Defined.

End RoutesFacts.

(** * An invariant of the planner's state: the persistent lists name
      enemies the state still has *)

Module PlannerInvariantFacts.
Import Planner PlannerEffects PlannerFacts PlannerMoreFacts.

Lemma append_unseen_known (xs acc known : list Z) :
  (forall x, x ∈ xs -> x ∈ known) ->
  (forall x, x ∈ acc -> x ∈ known) ->
  forall x, x ∈ append_unseen xs acc -> x ∈ known.
Proof.
  intros Hxs Hacc x Hx.
  destruct (append_unseen_added xs acc) as (added & Heq & Hadded).
  rewrite Heq in Hx. apply elem_of_app in Hx as [Hx|Hx]; [now apply Hacc|].
  apply Hxs. now apply Hadded in Hx as [Hx _].
Qed.

Lemma remove_if_present_known (tgo : Z) (l known known' : list Z) :
  NoDup l ->
  (forall x, x ∈ l -> x ∈ known) ->
  (forall x, x ∈ known -> x <> tgo -> x ∈ known') ->
  forall x, x ∈ remove_if_present tgo l -> x ∈ known'.
Proof.
  intros Hnd Hl Hknown x Hx.
  destruct (remove_if_present_spec tgo l) as (Hsub & _ & Hgone & _).
  assert (Hne : x <> tgo) by (intros ->; now apply (Hgone Hnd)).
  apply Hknown; [|exact Hne].
  apply Hl. eapply sublist_subseteq; eauto.
Qed.

Lemma list_remove_keeps_others (tgo x : Z) (l l' : list Z) :
  list_remove tgo l = Ok l' -> x ∈ l -> x <> tgo -> x ∈ l'.
Proof.
  intros Hrm Hx Hne.
  assert (Hin : tgo ∈ l).
  { destruct (decide (tgo ∈ l)) as [Hin|Hout]; [exact Hin|].
    rewrite (list_remove_raises _ _ Hout) in Hrm. discriminate. }
  destruct (list_remove_spec tgo l Hin) as (pre & post & -> & _ & Hrm').
  rewrite Hrm in Hrm'. injection Hrm' as ->.
  rewrite !elem_of_app, elem_of_cons in *. tauto.
Qed.

Section Invariant.
Context `{GroundObjects}.

(** X28. If the persistent lists [threatening_air_defenses] and
    [detecting_air_defenses] name no object twice and only objects of the
    state's enemy lists, this is still so after
    [target_area_preconditions_met], after [eliminate_air_defense] and
    after [eliminate_ship], whether these return or raise: the planner
    never keeps an eliminated air defense on its lists of threats. *)
Theorem persistent_lists_stay_known self state ignore_iads tgo :
  known_threats state ->
  known_threats (fst (target_area_preconditions_met self state ignore_iads))
  /\ known_threats (fst (eliminate_air_defense state tgo))
  /\ known_threats (fst (eliminate_ship state tgo)).
Proof.
  intros (Hnt & Hnd & Ht & Hd). split; [|split].
  - destruct (iter_detecting_iads_returns self state) as [detectors Hdet].
    destruct (iter_iads_threats_returns self state) as [threats Hthr].
    rewrite (target_area_preconditions_met_run _ _ _ _ _ Hdet Hthr).
    assert (Hdet' : forall x, x ∈ detectors ->
                      x ∈ enemy_air_defenses state ++ enemy_ships state)
      by (intros x Hx; now apply (iter_iads_ranges_elem _ _ _ _ _ Hdet) in Hx).
    assert (Hthr' : forall x, x ∈ threats ->
                      x ∈ enemy_air_defenses state ++ enemy_ships state)
      by (intros x Hx; now apply (iter_iads_ranges_elem _ _ _ _ _ Hthr) in Hx).
    destruct ignore_iads; cbn [fst]; unfold known_threats;
      cbn [threatening_air_defenses detecting_air_defenses enemy_air_defenses
             enemy_ships set_detecting set_threatening].
    + split; [exact Hnt|]. split; [now apply append_unseen_NoDup|].
      split; [exact Ht|]. now apply append_unseen_known.
    + split; [now apply append_unseen_NoDup|].
      split; [now apply append_unseen_NoDup|].
      split; now apply append_unseen_known.
  - unfold eliminate_air_defense. cbn [enemy_air_defenses].
    destruct (list_remove tgo (enemy_air_defenses state)) as [l|e] eqn:Hrm;
      cbn [fst]; unfold known_threats;
      cbn [threatening_air_defenses detecting_air_defenses enemy_air_defenses
             enemy_ships].
    + split; [now apply remove_if_present_NoDup|].
      split; [now apply remove_if_present_NoDup|].
      assert (Hknown : forall x,
                 x ∈ enemy_air_defenses state ++ enemy_ships state ->
                 x <> tgo -> x ∈ l ++ enemy_ships state).
      { intros x Hx Hne. apply elem_of_app in Hx as [Hx|Hx];
          apply elem_of_app; [left|now right].
        eapply list_remove_keeps_others; eauto. }
      split; eapply remove_if_present_known; eauto.
    + split; [now apply remove_if_present_NoDup|].
      split; [now apply remove_if_present_NoDup|].
      split; eapply remove_if_present_known; eauto.
  - unfold eliminate_ship. cbn [enemy_ships].
    destruct (list_remove tgo (enemy_ships state)) as [l|e] eqn:Hrm;
      cbn [fst]; unfold known_threats;
      cbn [threatening_air_defenses detecting_air_defenses enemy_air_defenses
             enemy_ships].
    + split; [now apply remove_if_present_NoDup|].
      split; [now apply remove_if_present_NoDup|].
      assert (Hknown : forall x,
                 x ∈ enemy_air_defenses state ++ enemy_ships state ->
                 x <> tgo -> x ∈ enemy_air_defenses state ++ l).
      { intros x Hx Hne. apply elem_of_app in Hx as [Hx|Hx];
          apply elem_of_app; [now left|right].
        eapply list_remove_keeps_others; eauto. }
      split; eapply remove_if_present_known; eauto.
    + split; [now apply remove_if_present_NoDup|].
      split; [now apply remove_if_present_NoDup|].
      split; eapply remove_if_present_known; eauto.
Qed.

End Invariant.

Lemma persistent_lists_stay_known_witness :
  known_threats
    (fst (@target_area_preconditions_met demo_objects (new_task 100)
            bold_state false))
  /\ known_threats (fst (eliminate_air_defense bold_state 2))
  /\ known_threats (fst (eliminate_ship bold_state 4)).
Proof.
  assert (Hknown : known_threats bold_state).
  { unfold known_threats. cbn.
    split; [apply NoDup_singleton|]. split; [apply NoDup_singleton|].
    split; intros tgo Htgo; apply list_elem_of_singleton in Htgo as ->;
      apply list_elem_of_In; simpl; tauto. }
  destruct (@persistent_lists_stay_known demo_objects (new_task 100) bold_state
              false 2 Hknown) as (Harea & Hdefense & _).
  destruct (@persistent_lists_stay_known demo_objects (new_task 100) bold_state
              false 4 Hknown) as (_ & _ & Hship).
  split; [exact Harea|]. split; [exact Hdefense|exact Hship].
Defined.

End PlannerInvariantFacts.
